(** * Readwise to Notion synchronisation: a shallow embedding

    This development models [readwise_notion_sync.py] and proves properties
    of its fingerprinting, of the block construction in
    [append_highlights_to_page], of the patch built by [update_notion_page]
    and of the reconciliation loop [full_sync].

    Modelling conventions.
    - A Python [str] handled by the program is a [string]; each
      character stands for one code point below 256 (Latin-1), so slicing
      [t[:n]] is [take n] on the characters.  [normalize_text] is modelled
      a second time, in [Unicode], on texts of any code points, with what
      the interpreter reads in the Unicode character database as a
      parameter; the two models agree on texts of code points below 256.
    - A JSON object received from a service is a record; a key read with
      [.get(k, default)] is an [option] field, [None] standing for an
      absent key.  A key read with [obj[k]] is a mandatory field.  The two
      members whose [null] value makes the program raise, the timestamp of
      a highlight and the number held by a page, are [member] fields, which
      tell [null] from an absent key; elsewhere [null] is outside the
      model.
    - The requests sent to both services are recorded in a trace; the
      services answer through an oracle that sees the requests made so far.
    - [while] loops over paginated answers take a fuel argument; running
      out of fuel is the outcome [Diverge].
    - Progress messages printed by the methods of the class are not
      modelled; the console output of [main] is. *)

From Stdlib Require Import ZArith Ascii String List Sorting.Sorted.
From stdpp Require Import base tactics option list gmap strings sorting pretty.

Local Open Scope string_scope.
Local Open Scope list_scope.

(** ** Text normalisation *)

Module Text.

Abbreviation chars := (list ascii).

(** Python's [str.isspace] and the regular expression class [\s] agree on
    code points below 256: TAB..CR, FS..US, SPACE, NEL and NBSP. *)
Definition is_space (a : ascii) : bool :=
  let n := N_of_ascii a in
  ((9 <=? n) && (n <=? 13) || (28 <=? n) && (n <=? 32)
   || (n =? 133) || (n =? 160))%N.

(** [str.lower] on code points below 256: A..Z and the Latin-1 capitals
    U+00C0..U+00DE, the multiplication sign U+00D7 apart, move up by 32. *)
Definition lower_char (a : ascii) : ascii :=
  let n := N_of_ascii a in
  if ((65 <=? n) && (n <=? 90)
      || (192 <=? n) && (n <=? 222) && negb (n =? 215))%N
  then ascii_of_N (n + 32) else a.

Definition lower (l : chars) : chars := map lower_char l.

(** [re.sub(cc, '', text)] for a literal of two equal characters: leftmost,
    non-overlapping occurrences are removed. *)
Fixpoint remove_double (c : ascii) (l : chars) : chars :=
  match l with
  | a :: ((b :: l') as t) =>
      if Ascii.eqb a c && Ascii.eqb b c then remove_double c l'
      else a :: remove_double c t
  | _ => l
  end.

(** [re.sub(c, '', text)] for a literal of one character. *)
Fixpoint remove_single (c : ascii) (l : chars) : chars :=
  match l with
  | [] => []
  | a :: t => if Ascii.eqb a c then remove_single c t
              else a :: remove_single c t
  end.

Fixpoint lstrip (l : chars) : chars :=
  match l with
  | a :: t => if is_space a then lstrip t else l
  | [] => []
  end.

Fixpoint rstrip (l : chars) : chars :=
  match l with
  | [] => []
  | a :: t =>
      match rstrip t with
      | [] => if is_space a then [] else [a]
      | r => a :: r
      end
  end.

(** [text.strip()] *)
Definition strip (l : chars) : chars := rstrip (lstrip l).

(** [re.sub(r'\s+', ' ', text)]: every maximal run of white space becomes
    one space.  [in_run] tells that the previous character was white
    space, whose run has been replaced already. *)
Fixpoint sub_ws (in_run : bool) (l : chars) : chars :=
  match l with
  | [] => []
  | a :: t =>
      if is_space a
      then (if in_run then sub_ws true t else " "%char :: sub_ws true t)
      else a :: sub_ws false t
  end.

Definition strip_markup (l : chars) : chars :=
  let l := remove_double "*" l in
  let l := remove_single "*" l in
  let l := remove_double "_" l in
  remove_single "_" l.

Definition normalize_chars (l : chars) : chars :=
  let text := strip_markup l in
  let text := sub_ws false (strip text) in
  lower text.

End Text.

(** [ReadwiseNotionSync.normalize_text] *)
Definition normalize_text (text : string) : string :=
  string_of_list_ascii (Text.normalize_chars (list_ascii_of_string text)).

(** ** Text of any code points *)

Module Unicode.

(** A text is the list of its code points. *)
Abbreviation text := (list N).

(** What the interpreter reads in its Unicode character database:
    [Py_UNICODE_ISSPACE], which decides [str.isspace], [str.strip] and
    the class [\s]; [_PyUnicode_ToLowerFull], the lower case of one code
    point, of one to three code points; [_PyUnicode_IsCased] and
    [_PyUnicode_IsCaseIgnorable]. *)
Record Database := {
  db_space : N → bool;
  db_lower : N → list N;
  db_cased : N → bool;
  db_case_ignorable : N → bool
}.

Definition space : N := 32.
Definition asterisk : N := 42.
Definition underscore : N := 95.
Definition capital_sigma : N := 931.
Definition final_sigma : N := 962.
Definition small_sigma : N := 963.

Section Normalize.

Context (U : Database).

Fixpoint skip_ignorable (l : text) : text :=
  match l with
  | c :: t => if db_case_ignorable U c then skip_ignorable t else l
  | [] => []
  end.

(** [handle_capital_sigma]: a capital sigma is lowered to the final sigma
    when a cased code point stands before it and none after it, code
    points that case ignores being skipped on both sides.  [before] is
    the text before the sigma, last code point first. *)
Definition lower_sigma (before after : text) : N :=
  let cased_before :=
    match skip_ignorable before with
    | c :: _ => db_cased U c
    | [] => false
    end in
  let cased_after :=
    match skip_ignorable after with
    | c :: _ => db_cased U c
    | [] => false
    end in
  if cased_before && negb cased_after then final_sigma else small_sigma.

(** [str.lower]: each code point is replaced by its lower case, the
    capital sigma by one of the two small sigmas. *)
Fixpoint lower_from (before : text) (l : text) : text :=
  match l with
  | [] => []
  | c :: t =>
      (if (c =? capital_sigma)%N then [lower_sigma before t]
       else db_lower U c)
      ++ lower_from (c :: before) t
  end.

Definition lower (l : text) : text := lower_from [] l.

(** [re.sub(cc, '', text)] and [re.sub(c, '', text)] for a literal [c]. *)
Fixpoint remove_double (c : N) (l : text) : text :=
  match l with
  | a :: ((b :: l') as t) =>
      if ((a =? c) && (b =? c))%N then remove_double c l'
      else a :: remove_double c t
  | _ => l
  end.

Fixpoint remove_single (c : N) (l : text) : text :=
  match l with
  | [] => []
  | a :: t => if (a =? c)%N then remove_single c t
              else a :: remove_single c t
  end.

Fixpoint lstrip (l : text) : text :=
  match l with
  | a :: t => if db_space U a then lstrip t else l
  | [] => []
  end.

Fixpoint rstrip (l : text) : text :=
  match l with
  | [] => []
  | a :: t =>
      match rstrip t with
      | [] => if db_space U a then [] else [a]
      | r => a :: r
      end
  end.

(** [text.strip()] *)
Definition strip (l : text) : text := rstrip (lstrip l).

(** [re.sub(r'\s+', ' ', text)] *)
Fixpoint sub_ws (in_run : bool) (l : text) : text :=
  match l with
  | [] => []
  | a :: t =>
      if db_space U a
      then (if in_run then sub_ws true t else space :: sub_ws true t)
      else a :: sub_ws false t
  end.

Definition strip_markup (l : text) : text :=
  let l := remove_double asterisk l in
  let l := remove_single asterisk l in
  let l := remove_double underscore l in
  remove_single underscore l.

(** [ReadwiseNotionSync.normalize_text] *)
Definition normalize (l : text) : text :=
  let text := strip_markup l in
  let text := sub_ws false (strip text) in
  lower text.

(** White space in one pass.  [started] tells that a code point other
    than white space was met, [pending] that white space was met after
    it, for which a space is due before the next such code point. *)
Fixpoint collapse (pending started : bool) (l : text) : text :=
  match l with
  | [] => []
  | c :: t =>
      if db_space U c then collapse started started t
      else (if pending then [space] else []) ++ c :: collapse false true t
  end.

(** A code point that [str.lower] leaves alone wherever it stands. *)
Definition stable (d : N) : Prop := d ≠ capital_sigma ∧ db_lower U d = [d].

(** A text without emphasis markup. *)
Definition markup_free (l : text) : Prop :=
  Forall (λ c, c ≠ asterisk ∧ c ≠ underscore) l.

(** A text of white space only. *)
Definition blank (l : text) : Prop := Forall (λ c, db_space U c = true) l.

(** A text whose white space is in order: every white space character is
    a space that stands between two other characters. *)
Fixpoint tidy_from (after_space : bool) (l : text) : bool :=
  match l with
  | [] => negb after_space
  | c :: t =>
      if db_space U c
      then negb after_space && (c =? space)%N && tidy_from true t
      else tidy_from false t
  end.

Definition tidy (l : text) : bool :=
  match l with
  | [] => true
  | _ => tidy_from true l
  end.

(** What the proofs use of the database.  White space: the space is
    white space, the markup characters and the small sigmas are not.
    Lower case: it is never empty, it leaves the space alone, it brings
    in no white space and no markup character, and it is made of code
    points that are their own lower case, the capital sigma not being
    one of them. *)
Record lawful : Prop := {
  space_is_space : db_space U space = true;
  markup_no_space :
    db_space U asterisk = false ∧ db_space U underscore = false;
  sigma_no_space :
    db_space U final_sigma = false ∧ db_space U small_sigma = false;
  lower_some : ∀ c, db_lower U c ≠ [];
  lower_of_space : db_lower U space = [space];
  lower_no_space :
    ∀ c d, db_space U c = false → d ∈ db_lower U c → db_space U d = false;
  lower_no_markup :
    ∀ c d, d ∈ db_lower U c → d = asterisk ∨ d = underscore → c = d;
  lower_stable :
    ∀ c d, d ∈ db_lower U c → d ≠ capital_sigma ∧ db_lower U d = [d];
  sigma_stable :
    db_lower U final_sigma = [final_sigma] ∧
    db_lower U small_sigma = [small_sigma]
}.

(** The database agrees with [Text] on the code points below 256. *)
Definition latin1 : Prop :=
  ∀ a : ascii,
    db_space U (N_of_ascii a) = Text.is_space a ∧
    db_lower U (N_of_ascii a) = [N_of_ascii (Text.lower_char a)].

End Normalize.

(** A [string] as a text and back. *)
Definition encode (s : string) : text :=
  map N_of_ascii (list_ascii_of_string s).

Definition decode (l : text) : string :=
  string_of_list_ascii (map ascii_of_N l).

End Unicode.

(** [text[:n]] for a non-negative literal [n]. *)
Definition str_take (n : nat) (text : string) : string :=
  string_of_list_ascii (take n (list_ascii_of_string text)).

(** The fingerprint of a highlight text, as both
    [get_existing_page_content] and [append_highlights_to_page] compute
    it: [self.normalize_text(text[:1000])]. *)
Definition fingerprint (text : string) : string :=
  normalize_text (str_take 1000 text).


(** ** Python helpers *)

(** The truth value of [s] where [s] is a string or [None]. *)
Definition truthy (o : option string) : bool :=
  match o with
  | Some s => negb (String.eqb s "")
  | None => false
  end.

(** [range(0, stop, step)] *)
Definition py_range (stop step : nat) : list nat :=
  map (λ k, k * step) (seq 0 (Nat.div (stop + step - 1) step)).

(** [[l[i:i+n] for i in range(0, len(l), n)]] *)
Definition py_chunks {A} (n : nat) (l : list A) : list (list A) :=
  map (λ i, take n (drop i l)) (py_range (length l) n).

(** [x in s] for a one-character [x] *)
Definition str_contains (c : ascii) (s : string) : bool :=
  existsb (Ascii.eqb c) (list_ascii_of_string s).

(** [s.split(c)[0]] *)
Fixpoint before_char (c : ascii) (s : string) : string :=
  match s with
  | EmptyString => EmptyString
  | String a s' => if Ascii.eqb a c then EmptyString
                   else String a (before_char c s')
  end.

(** [s.replace(c, '')] *)
Definition str_remove (c : ascii) (s : string) : string :=
  string_of_list_ascii (Text.remove_single c (list_ascii_of_string s)).

(** [s.lower()] *)
Definition str_lower (s : string) : string :=
  string_of_list_ascii (Text.lower (list_ascii_of_string s)).

(** [sorted(l, key=key)] on string keys: the stable sort that compares
    keys with [<] only.  An element is placed before the first element of
    the sorted tail whose key is not smaller than its own. *)
Fixpoint insert_by_key {A} (key : A → string) (x : A) (l : list A) : list A :=
  match l with
  | [] => [x]
  | y :: t => if String.ltb (key y) (key x) then y :: insert_by_key key x t
              else x :: l
  end.

Fixpoint py_sorted {A} (key : A → string) (l : list A) : list A :=
  match l with
  | [] => []
  | x :: t => insert_by_key key x (py_sorted key t)
  end.

(** [s * n] *)
Fixpoint str_repeat (s : string) (n : nat) : string :=
  match n with
  | O => ""
  | S n' => s +:+ str_repeat s n'
  end.

(** The line feed character. *)
Definition nl : string := String (ascii_of_nat 10) "".

(** ** Data *)

(** JSON values built by the program and sent to the services. *)
#[warnings="-register-all"]
Inductive json :=
| JNull
| JNum (n : Z)
| JStr (s : string)
| JArr (l : list json)
| JObj (fields : list (string * json)).

(** [d[k] = v] on a dictionary that keeps insertion order. *)
Fixpoint dict_set (k : string) (v : json) (d : list (string * json))
  : list (string * json) :=
  match d with
  | [] => [(k, v)]
  | (k', v') :: d' => if String.eqb k' k then (k, v) :: d'
                      else (k', v') :: dict_set k v d'
  end.

Definition dict_keys (d : list (string * json)) : list string := map fst d.

(** A member of a received JSON object that may be [null]: the key is
    missing, its value is [null], or it has a value. *)
Inductive member (A : Type) :=
| Missing
| Null
| Value (a : A).
Arguments Missing {A}.
Arguments Null {A}.
Arguments Value {A} a.

(** [obj.get(k, d)]: [None] is Python's [None]. *)
Definition get_or {A} (d : A) (m : member A) : option A :=
  match m with
  | Missing => Some d
  | Null => None
  | Value a => Some a
  end.

(** An item of the Readwise [books] collection. *)
Record Book := {
  b_id : Z;
  b_title : option string;
  b_author : option string;
  b_category : option string;
  b_num_highlights : option Z;
  b_last_highlight_at : option string;
  b_cover_image_url : option string
}.

Record Highlight := {
  h_text : option string;
  h_note : option string;
  h_highlighted_at : member string
}.

(** A Notion page object: its id, the [plain_text] of the first element of
    its [Title] property ([None] when that property is empty) and the
    number held by its [Highlights] property. *)
Record Page := {
  p_id : string;
  p_title : option string;
  p_highlights : member Z
}.

(** A block of a Notion page: its [type] and the [plain_text] of the rich
    text elements of its [quote] member. *)
Record ChildBlock := {
  blk_type : option string;
  blk_quote_text : list (option string)
}.

Record ChildrenPage := {
  cp_results : list ChildBlock;
  cp_has_more : option bool;
  cp_next_cursor : option string
}.

Record exn := { exn_type : string; exn_msg : string }.

Definition TypeError (msg : string) : exn :=
  {| exn_type := "TypeError"; exn_msg := msg |}.

Inductive request :=
| GET (url : string) (params : list (string * json))
| POST (url : string) (payload : json)
| PATCH (url : string) (payload : json).

Inductive answer (A : Type) :=
| Answer (a : A)
| Fails (e : exn).
Arguments Answer {A} a.
Arguments Fails {A} e.

(** The outside world.  Each service oracle is given the requests made so
    far, the one being answered last; [Fails] stands for an exception of
    [requests], raised by the call or by [raise_for_status]. *)
Record World := {
  w_books : list request → answer (list Book * option string);
  w_highlights : list request → answer (list Highlight);
  w_query : list request → answer (list Page);
  w_children : list request → answer ChildrenPage;
  w_append : list request → answer unit;
  w_page : list request → answer Page;
  (** The message of the [TypeError] that [sorted] raises on keys that
      hold [None]: it names the types of the two keys compared first,
      which the sorting algorithm of the interpreter decides. *)
  w_unorderable : list (option string) → string;
  (** [datetime.utcnow().isoformat()] *)
  w_utcnow : list request → string;
  (** [(datetime.utcnow() - timedelta(days=n)).isoformat()] *)
  w_days_ago : list request → Z → string
}.

Record Config := {
  READWISE_API_TOKEN : string;
  NOTION_API_TOKEN : string;
  NOTION_DATABASE_ID : string;
  DAYS_TO_SYNC : option Z
}.

(** What the process writes to its console: a line of [print], or the
    stack trace that [traceback.print_exc] writes for the exception being
    handled. *)
Inductive out :=
| Stdout (line : string)
| Traceback (e : exn).

(** The two state files, each [None] when missing or unreadable, the
    requests sent so far and the console.  The order of the [synced_ids]
    array is not kept: the program reads it back with [set(...)]. *)
Record state := {
  trace : list request;
  last_sync_file : option string;
  synced_items_file : option (gset Z);
  console : list out
}.

Definition with_trace (tr : list request) (st : state) : state :=
  {| trace := tr; last_sync_file := last_sync_file st;
     synced_items_file := synced_items_file st; console := console st |}.

Definition with_last_sync_file (v : option string) (st : state) : state :=
  {| trace := trace st; last_sync_file := v;
     synced_items_file := synced_items_file st; console := console st |}.

Definition with_synced_items_file (v : option (gset Z)) (st : state) : state :=
  {| trace := trace st; last_sync_file := last_sync_file st;
     synced_items_file := v; console := console st |}.

Definition with_console (v : list out) (st : state) : state :=
  {| trace := trace st; last_sync_file := last_sync_file st;
     synced_items_file := synced_items_file st; console := v |}.

(** The attributes of a [ReadwiseNotionSync] object that vary. *)
Record Syncer := {
  last_sync_time : option string;
  synced_items : gset Z
}.

(** ** Effects *)

Inductive outcome (A : Type) :=
| Ok (a : A)
| Raise (e : exn)
| Diverge.
Arguments Ok {A} a.
Arguments Raise {A} e.
Arguments Diverge {A}.

Definition M (A : Type) : Type := state → outcome A * state.

#[global] Instance M_ret : MRet M := λ A a st, (Ok a, st).

#[global] Instance M_bind : MBind M := λ A B f m st,
  match m st with
  | (Ok a, st') => f a st'
  | (Raise e, st') => (Raise e, st')
  | (Diverge, st') => (Diverge, st')
  end.

Definition diverge {A} : M A := λ st, (Diverge, st).

(** [raise e] *)
Definition raise {A} (e : exn) : M A := λ st, (Raise e, st).

(** Sends [req] and waits for the answer of [oracle]. *)
Definition send {A} (oracle : list request → answer A) (req : request) : M A :=
  λ st,
    let tr := trace st ++ [req] in
    match oracle tr with
    | Answer a => (Ok a, with_trace tr st)
    | Fails e => (Raise e, with_trace tr st)
    end.

Definition get_trace : M (list request) := λ st, (Ok (trace st), st).

(** [print(line)] *)
Definition print (line : string) : M unit :=
  λ st, (Ok (), with_console (console st ++ [Stdout line]) st).

(** [traceback.print_exc()] in the handler of [e] *)
Definition print_exc (e : exn) : M unit :=
  λ st, (Ok (), with_console (console st ++ [Traceback e]) st).

(** [try: body except Exception as e: handler(e)] *)
Definition try_except {A} (body : M A) (handler : exn → M A) : M A :=
  λ st,
    match body st with
    | (Raise e, st') => handler e st'
    | r => r
    end.

(** [for x in l: acc = body(x, acc)] *)
Fixpoint for_each {A S} (body : A → S → M S) (l : list A) (acc : S) : M S :=
  match l with
  | [] => mret acc
  | x :: t => acc' ← body x acc; for_each body t acc'
  end.

(** ** The program *)

Definition READWISE_API_BASE : string := "https://readwise.io/api/v2".
Definition NOTION_API_BASE : string := "https://api.notion.com/v1".

Definition CATEGORY_MAP : gmap string string :=
  list_to_map [("books", "Books"); ("articles", "Articles");
               ("tweets", "Quote"); ("podcasts", "Podcast");
               ("supplementals", "Articles")].

(** The local counters of [full_sync]. *)
Record counters := {
  created_count : nat;
  updated_count : nat;
  skipped_count : nat;
  synced_ids : list Z
}.

(** The local accumulators of the loop of [append_highlights_to_page];
    [dup_count] is its [skipped_count]. *)
Record block_acc := {
  blocks : list json;
  new_count : nat;
  dup_count : nat
}.

Definition external_image (url : string) : json :=
  JObj [("type", JStr "external"); ("external", JObj [("url", JStr url)])].

Definition date_prop (start : string) : json :=
  JObj [("date", JObj [("start", JStr start); ("time_zone", JNull)])].

Definition quote_block (highlight_text : string) : json :=
  JObj [("object", JStr "block");
        ("type", JStr "quote");
        ("quote", JObj [("rich_text",
                          JArr [JObj [("type", JStr "text");
                                      ("text", JObj [("content",
                                         JStr (str_take 2000 highlight_text))])]]);
                        ("color", JStr "default")])].

Definition callout_block (note : string) : json :=
  JObj [("object", JStr "block");
        ("type", JStr "callout");
        ("callout", JObj [("rich_text",
                            JArr [JObj [("type", JStr "text");
                                        ("text", JObj [("content",
                                           JStr ("Note: " +:+ str_take 2000 note))])]]);
                          ("icon", JObj [("emoji", JStr "💭")]);
                          ("color", JStr "gray_background")])].

Definition highlight_text (highlight : Highlight) : string :=
  default "" (h_text highlight).

(** The key [sorted] reads from a highlight:
    [h.get('highlighted_at', '')]. *)
Definition sort_key (h : Highlight) : option string :=
  get_or "" (h_highlighted_at h).

(** That key when it is a string. *)
Definition highlighted_at (h : Highlight) : string :=
  default "" (sort_key h).

(** [sorted] on two or more elements compares every key with another
    one, and a comparison with [None] raises [TypeError]. *)
Definition unorderable (keys : list (option string)) : bool :=
  (2 <=? length keys)%nat && bool_decide (None ∈ keys).

(** One turn of the loop of [append_highlights_to_page]. *)
Definition block_step (existing_fingerprints : gset string)
    (acc : block_acc) (highlight : Highlight) : block_acc :=
  let text := highlight_text highlight in
  let fp := fingerprint text in
  if decide (fp ∈ existing_fingerprints) then
    {| blocks := blocks acc; new_count := new_count acc;
       dup_count := S (dup_count acc) |}
  else
    let blocks1 := blocks acc ++ [quote_block text] in
    let blocks2 :=
      if truthy (h_note highlight)
      then blocks1 ++ [callout_block (default "" (h_note highlight))]
      else blocks1 in
    {| blocks := blocks2; new_count := S (new_count acc);
       dup_count := dup_count acc |}.

Definition build_blocks (existing_fingerprints : gset string)
    (highlights_sorted : list Highlight) : block_acc :=
  foldl (block_step existing_fingerprints)
        {| blocks := []; new_count := 0; dup_count := 0 |}
        highlights_sorted.

(** [''.join([t.get('plain_text', '') for t in ...])] on the rich text of
    the [quote] member of a block. *)
Definition quote_text (block : ChildBlock) : string :=
  String.concat "" (map (default "") (blk_quote_text block)).

(** One turn of the inner loop of [get_existing_page_content]. *)
Definition add_fingerprint (existing_fingerprints : gset string)
    (block : ChildBlock) : gset string :=
  if decide (blk_type block = Some "quote") then
    let text := quote_text block in
    if String.eqb text "" then existing_fingerprints
    else existing_fingerprints ∪ {[ fingerprint text ]}
  else existing_fingerprints.

(** The payload of [update_notion_page]. *)
Definition update_payload (current_time : string) (book : Book) : json :=
  let properties :=
    [("Highlights", JObj [("number", JNum (default 0%Z (b_num_highlights book)))]);
     ("Last Synced", date_prop current_time)] in
  let properties :=
    if truthy (b_last_highlight_at book)
    then dict_set "Last Highlighted"
           (date_prop (default "" (b_last_highlight_at book))) properties
    else properties in
  let payload := [("properties", JObj properties)] in
  let cover_url := b_cover_image_url book in
  let payload :=
    if truthy cover_url
    then dict_set "icon" (external_image (default "" cover_url))
           (dict_set "cover" (external_image (default "" cover_url)) payload)
    else payload in
  JObj payload.

Definition title_equals (title : string) : json :=
  JObj [("property", JStr "Title"); ("title", JObj [("equals", JStr title)])].

Definition title_of (book : Book) : string := default "Untitled" (b_title book).

Section Program.

Context (cfg : Config) (w : World).

Definition load_synced_items : M (gset Z) :=
  λ st, (Ok (default ∅ (synced_items_file st)), st).

Definition load_last_sync_time : M (option string) :=
  λ st, (Ok (last_sync_file st), st).

(** [ReadwiseNotionSync.__init__] *)
Definition init : M Syncer :=
  t ← load_last_sync_time;
  s ← load_synced_items;
  mret {| last_sync_time := t; synced_items := s |}.

Definition save_synced_items (self : Syncer) (readwise_ids : list Z) : M Syncer :=
  let items := synced_items self ∪ list_to_set readwise_ids in
  λ st, (Ok {| last_sync_time := last_sync_time self; synced_items := items |},
         with_synced_items_file (Some items) st).

Definition save_last_sync_time : M unit :=
  λ st,
    let current_time := w_utcnow w (trace st) +:+ "Z" in
    (Ok (), with_last_sync_file (Some current_time) st).

Fixpoint get_readwise_books_loop (fuel : nat) (url : option string)
    (params : list (string * json)) (all_books : list Book) : M (list Book) :=
  if truthy url then
    match fuel with
    | O => diverge
    | S fuel' =>
        data ← send (w_books w) (GET (default "" url) params);
        get_readwise_books_loop fuel' (snd data) [] (all_books ++ fst data)
    end
  else mret all_books.

Definition get_readwise_books (fuel : nat) (updated_after : option string)
  : M (list Book) :=
  let url := READWISE_API_BASE +:+ "/books/" in
  let updated_after :=
    if truthy updated_after then
      let s := default "" updated_after in
      if str_contains "." s then Some (before_char "." s +:+ "Z")
      else updated_after
    else updated_after in
  let params :=
    if truthy updated_after
    then [("highlighted_after", JStr (default "" updated_after))] else [] in
  all_books ← get_readwise_books_loop fuel (Some url) params [];
  if truthy updated_after && negb (Nat.eqb (length all_books) 0) then
    let cutoff_date := str_remove "Z" (default "" updated_after) in
    let filtered_books :=
      List.filter
        (λ book,
           let last_highlight := default "" (b_last_highlight_at book) in
           negb (String.eqb last_highlight "") &&
           negb (String.ltb (str_remove "Z" last_highlight) cutoff_date))
        all_books in
    if Nat.ltb (length filtered_books) (length all_books)
    then mret filtered_books else mret all_books
  else mret all_books.

Definition search_notion_page (title : string) : M (option Page) :=
  let url := NOTION_API_BASE +:+ "/databases/"
             +:+ NOTION_DATABASE_ID cfg +:+ "/query" in
  let payload := JObj [("filter", title_equals title)] in
  results ← send (w_query w) (POST url payload);
  mret (head results).

Definition batch_search_notion_pages (titles : list string)
  : M (gmap string Page) :=
  match titles with
  | [] => mret ∅
  | _ =>
      let MAX_BATCH_SIZE := 100 in
      for_each
        (λ batch_titles (all_pages : gmap string Page),
           let url := NOTION_API_BASE +:+ "/databases/"
                      +:+ NOTION_DATABASE_ID cfg +:+ "/query" in
           let filter_obj :=
             match batch_titles with
             | [title] => title_equals title
             | _ => JObj [("or", JArr (map title_equals batch_titles))]
             end in
           let payload := JObj [("filter", filter_obj)] in
           results ← send (w_query w) (POST url payload);
           mret (foldl (λ (all_pages : gmap string Page) page,
                          match p_title page with
                          | Some page_title => <[page_title := page]> all_pages
                          | None => all_pages
                          end) all_pages results))
        (py_chunks MAX_BATCH_SIZE titles) ∅
  end.

Definition get_highlights_for_book (book_id : Z) (updated_after : option string)
  : M (list Highlight) :=
  let url := READWISE_API_BASE +:+ "/highlights/" in
  let params := [("book_id", JNum book_id)] in
  let params :=
    if truthy updated_after
    then dict_set "highlighted_after" (JStr (default "" updated_after)) params
    else params in
  send (w_highlights w) (GET url params).

Fixpoint get_existing_page_content_loop (fuel : nat) (url : string)
    (existing_fingerprints : gset string) (has_more : bool)
    (start_cursor : option string) : M (gset string) :=
  if has_more then
    match fuel with
    | O => diverge
    | S fuel' =>
        let params :=
          if truthy start_cursor
          then [("start_cursor", JStr (default "" start_cursor))] else [] in
        data ← send (w_children w) (GET url params);
        get_existing_page_content_loop fuel' url
          (foldl add_fingerprint existing_fingerprints (cp_results data))
          (default false (cp_has_more data)) (cp_next_cursor data)
    end
  else mret existing_fingerprints.

Definition get_existing_page_content (fuel : nat) (page_id : string)
  : M (gset string) :=
  let url := NOTION_API_BASE +:+ "/blocks/" +:+ page_id +:+ "/children" in
  get_existing_page_content_loop fuel url ∅ true None.

(** [sorted(highlights, key=lambda h: h.get('highlighted_at', ''))] *)
Definition sorted_highlights (highlights : list Highlight)
  : M (list Highlight) :=
  let keys := map sort_key highlights in
  if unorderable keys then raise (TypeError (w_unorderable w keys))
  else mret (py_sorted highlighted_at highlights).

Definition append_highlights_to_page (fuel : nat) (page_id : string)
    (highlights : list Highlight) : M unit :=
  highlights_sorted ← sorted_highlights highlights;
  existing_fingerprints ← get_existing_page_content fuel page_id;
  let url := NOTION_API_BASE +:+ "/blocks/" +:+ page_id +:+ "/children" in
  let acc := build_blocks existing_fingerprints highlights_sorted in
  if Nat.eqb (new_count acc) 0 then mret ()
  else
    for_each
      (λ chunk (_ : unit),
         send (w_append w) (PATCH url (JObj [("children", JArr chunk)])))
      (py_chunks 100 (blocks acc)) ().

Definition create_payload (current_time : string) (book : Book) : json :=
  let readwise_category := str_lower (default "books" (b_category book)) in
  let category := default "Books" (CATEGORY_MAP !! readwise_category) in
  let properties :=
    [("Title", JObj [("title",
         JArr [JObj [("text", JObj [("content", JStr (title_of book))])]])]);
     ("Author", JObj [("rich_text",
         JArr [JObj [("text", JObj [("content",
                 JStr (default "" (b_author book)))])]])]);
     ("Category", JObj [("select", JObj [("name", JStr category)])]);
     ("Highlights", JObj [("number", JNum (default 0%Z (b_num_highlights book)))]);
     ("Status", JObj [("status", JObj [("name", JStr "Not started")])]);
     ("Last Synced", date_prop current_time)] in
  let book_id := b_id book in
  let properties :=
    if negb (Z.eqb book_id 0)
    then dict_set "URL"
           (JObj [("url", JStr ("https://readwise.io/bookreview/"
                                +:+ pretty book_id))]) properties
    else properties in
  let properties :=
    if truthy (b_last_highlight_at book)
    then dict_set "Last Highlighted"
           (date_prop (default "" (b_last_highlight_at book))) properties
    else properties in
  let payload :=
    [("parent", JObj [("database_id", JStr (NOTION_DATABASE_ID cfg))]);
     ("properties", JObj properties)] in
  let cover_url := b_cover_image_url book in
  let payload :=
    if truthy cover_url
    then dict_set "icon" (external_image (default "" cover_url))
           (dict_set "cover" (external_image (default "" cover_url)) payload)
    else payload in
  JObj payload.

Definition create_notion_page (book : Book) : M Page :=
  let url := NOTION_API_BASE +:+ "/pages" in
  tr ← get_trace;
  let current_time := w_utcnow w tr in
  send (w_page w) (POST url (create_payload current_time book)).

Definition update_notion_page (page_id : string) (book : Book) : M Page :=
  let url := NOTION_API_BASE +:+ "/pages/" +:+ page_id in
  tr ← get_trace;
  let current_time := w_utcnow w tr in
  send (w_page w) (PATCH url (update_payload current_time book)).

(** The body of the loop of [full_sync]. *)
Definition full_sync_item (fuel : nat) (self : Syncer)
    (existing_pages_map : gmap string Page) (book : Book) (acc : counters)
  : M counters :=
  let title := title_of book in
  let book_id := b_id book in
  match existing_pages_map !! title with
  | Some existing_page =>
      let existing_highlight_count := get_or 0%Z (p_highlights existing_page) in
      let new_highlight_count := default 0%Z (b_num_highlights book) in
      _ ← update_notion_page (p_id existing_page) book;
      let acc :=
        {| created_count := created_count acc;
           updated_count := S (updated_count acc);
           skipped_count := skipped_count acc;
           synced_ids := synced_ids acc ++ [book_id] |} in
      match existing_highlight_count with
      | None =>
          raise (TypeError
            "'>' not supported between instances of 'int' and 'NoneType'")
      | Some existing_highlight_count =>
          if (existing_highlight_count <? new_highlight_count)%Z then
            highlights ← get_highlights_for_book (b_id book)
                           (last_sync_time self);
            match highlights with
            | _ :: _ =>
                _ ← append_highlights_to_page fuel (p_id existing_page)
                      highlights;
                mret acc
            | [] => mret acc
            end
          else mret acc
      end
  | None =>
      if decide (book_id ∈ synced_items self) then
        mret {| created_count := created_count acc;
                updated_count := updated_count acc;
                skipped_count := S (skipped_count acc);
                synced_ids := synced_ids acc |}
      else
        new_page ← create_notion_page book;
        let acc :=
          {| created_count := S (created_count acc);
             updated_count := updated_count acc;
             skipped_count := skipped_count acc;
             synced_ids := synced_ids acc ++ [book_id] |} in
        if (0 <? default 0 (b_num_highlights book))%Z then
          highlights ← get_highlights_for_book (b_id book) None;
          _ ← append_highlights_to_page fuel (p_id new_page) highlights;
          mret acc
        else mret acc
  end.

Definition full_sync (fuel : nat) (self : Syncer) : M Syncer :=
  books ← get_readwise_books fuel (last_sync_time self);
  if Nat.eqb (length books) 0 then mret self
  else
    let all_titles := map title_of books in
    existing_pages_map ← batch_search_notion_pages all_titles;
    acc ← for_each (full_sync_item fuel self existing_pages_map) books
            {| created_count := 0; updated_count := 0; skipped_count := 0;
               synced_ids := [] |};
    self ← save_synced_items self (synced_ids acc);
    _ ← save_last_sync_time;
    mret self.

(** The parsed command line. *)
Record Args := {
  args_days : option Z;
  args_all : bool
}.

Definition rule : string := str_repeat "=" 60.

(** The [except Exception as e] block of [main]. *)
Definition main_handler (e : exn) : M unit :=
  _ ← print (nl +:+ rule);
  _ ← print "❌ ERROR OCCURRED:";
  _ ← print ("   " +:+ exn_type e +:+ ": " +:+ exn_msg e);
  _ ← print (nl +:+ "📋 Full error details:");
  _ ← print_exc e;
  _ ← print rule;
  _ ← print_exc e;
  print rule.

Definition set_last_sync_time (v : option string) (syncer : Syncer) : Syncer :=
  {| last_sync_time := v; synced_items := synced_items syncer |}.

(** The [try] block of [main]. *)
Definition main_body (fuel : nat) (args : Args) : M unit :=
  if String.eqb (READWISE_API_TOKEN cfg) "YOUR_READWISE_TOKEN_HERE" then
    _ ← print "❌ Please set your READWISE_TOKEN";
    print "   Either as an environment variable or edit line 17 in this script"
  else if String.eqb (NOTION_API_TOKEN cfg) "YOUR_NOTION_TOKEN_HERE" then
    _ ← print "❌ Please set your NOTION_TOKEN";
    print "   Either as an environment variable or edit line 18 in this script"
  else if String.eqb (NOTION_DATABASE_ID cfg) "YOUR_DATABASE_ID_HERE" then
    _ ← print "❌ Please set your NOTION_DATABASE_ID";
    print "   Either as an environment variable or edit line 19 in this script"
  else
    _ ← print "🚀 Readwise token: ✅";
    _ ← print "🚀 Notion token: ✅";
    _ ← print ("🚀 Database ID: ✅" +:+ nl);
    syncer ← init;
    syncer ←
      (if args_all args then
         _ ← print ("⚠️  --all flag: Syncing ALL highlights (ignoring last sync time)"
                    +:+ nl);
         mret (set_last_sync_time None syncer)
       else if negb (Z.eqb (default 0%Z (args_days args)) 0) then
         let days := default 0%Z (args_days args) in
         tr ← get_trace;
         let days_ago := w_days_ago w tr days in
         _ ← print ("⚠️  --days " +:+ pretty days
                    +:+ ": Syncing highlights from last " +:+ pretty days
                    +:+ " days" +:+ nl);
         mret (set_last_sync_time (Some (days_ago +:+ "Z")) syncer)
       else if (0 <? default 0 (DAYS_TO_SYNC cfg))%Z then
         let days := default 0%Z (DAYS_TO_SYNC cfg) in
         tr ← get_trace;
         let days_ago := w_days_ago w tr days in
         _ ← print ("⚙️  Configuration: Syncing highlights from last "
                    +:+ pretty days +:+ " days" +:+ nl);
         mret (set_last_sync_time (Some (days_ago +:+ "Z")) syncer)
       else mret syncer);
    _ ← full_sync fuel syncer;
    print (nl +:+ "✅ Sync completed successfully!").

Definition main (fuel : nat) (args : Args) : M unit :=
  try_except (main_body fuel args) main_handler.

(** The exit status of the interpreter running [main()] as its last
    statement: 0 when [main] returns, 1 when an exception leaves it; there
    is none while it runs. *)
Definition exit_status (r : outcome unit) : option Z :=
  match r with
  | Ok _ => Some 0%Z
  | Raise _ => Some 1%Z
  | Diverge => None
  end.

Definition script (fuel : nat) (args : Args) (st : state)
  : option Z * state :=
  let r := main fuel args st in
  (exit_status (fst r), snd r).

End Program.

(** * Notions used in the statements *)

Module TextSpec.
Import Text.

(** [free c l]: the character [c] does not occur in [l]. *)
Definition free (c : ascii) (l : chars) : Prop :=
  Forall (λ a, Ascii.eqb a c = false) l.

(** The first character, if any, is not white space. *)
Definition head_ok (l : chars) : Prop :=
  match l with
  | a :: _ => is_space a = false
  | [] => True
  end.

End TextSpec.

(** The order in which [sorted] leaves two keys: the first is not greater
    than the second. *)
Definition key_le {A} (key : A → string) (x y : A) : Prop :=
  String.leb (key x) (key y) = true.

(** Timestamps are compared as strings.  Two timestamps written in one
    format (same length, digits at the same places, the same characters
    elsewhere) are in that order exactly when the numbers their digits
    spell, year first, are. *)
Definition is_digit (a : ascii) : bool :=
  let n := N_of_ascii a in ((48 <=? n) && (n <=? 57))%N.

Fixpoint same_format (s1 s2 : string) : bool :=
  match s1, s2 with
  | EmptyString, EmptyString => true
  | String a s1', String b s2' =>
      (if is_digit a then is_digit b else Ascii.eqb a b) && same_format s1' s2'
  | _, _ => false
  end.

Fixpoint digits_number (s : string) (acc : N) : N :=
  match s with
  | EmptyString => acc
  | String a s' =>
      digits_number s'
        (if is_digit a then (10 * acc + (N_of_ascii a - 48))%N else acc)
  end.

(** What the specification asks [append_highlights_to_page] to emit for
    one highlight, given the fingerprints found on the page: nothing for a
    fingerprint already there; otherwise a quote block and, when the
    highlight has a note, a callout block right after it. *)
Definition highlight_blocks (h : Highlight) : list json :=
  quote_block (highlight_text h)
  :: (if truthy (h_note h) then [callout_block (default "" (h_note h))]
      else []).

Definition blocks_for (existing_fingerprints : gset string) (h : Highlight)
  : list json :=
  if decide (fingerprint (highlight_text h) ∈ existing_fingerprints) then []
  else highlight_blocks h.

Definition children_url (page_id : string) : string :=
  NOTION_API_BASE +:+ "/blocks/" +:+ page_id +:+ "/children".

(** The request that appends [chunk] to the page. *)
Definition patch_children (page_id : string) (chunk : list json) : request :=
  PATCH (children_url page_id) (JObj [("children", JArr chunk)]).

(** A computation that only talks to the services: it leaves both state
    files and the console alone, and only adds requests to the trace. *)
Definition net_only {A} (m : M A) : Prop :=
  ∀ st r st', m st = (r, st') →
    last_sync_file st' = last_sync_file st ∧
    synced_items_file st' = synced_items_file st ∧
    console st' = console st ∧
    ∃ new, trace st' = trace st ++ new.

(** Reading a JSON value sent to a service: member [k] of an object, and
    the first element of an array. *)
Definition json_get (k : string) (j : json) : option json :=
  match j with
  | JObj fields => snd <$> List.find (λ kv, String.eqb (fst kv) k) fields
  | _ => None
  end.

Definition json_first (j : json) : option json :=
  match j with
  | JArr (x :: _) => Some x
  | _ => None
  end.

(** The text carried by a block of type [kind]. *)
Definition block_content (kind : string) (block : json) : option string :=
  body ← json_get kind block;
  rich ← json_get "rich_text" body;
  elt ← json_first rich;
  text ← json_get "text" elt;
  content ← json_get "content" text;
  match content with
  | JStr s => Some s
  | _ => None
  end.

(** [x] is the fingerprint of a quote block with text among [page_blocks]. *)
Definition quoted_in (page_blocks : list ChildBlock) (x : string) : Prop :=
  Exists (λ b, blk_type b = Some "quote" ∧ quote_text b ≠ "" ∧
               x = fingerprint (quote_text b)) page_blocks.

#[global] Instance quoted_in_dec page_blocks x :
  Decision (quoted_in page_blocks x).
Proof. unfold quoted_in. apply _. Defined.

(** The fingerprint of the highlight is that of a quote block with text
    among [page_blocks]. *)
Definition on_page (page_blocks : list ChildBlock) (h : Highlight) : Prop :=
  quoted_in page_blocks (fingerprint (highlight_text h)).

#[global] Instance on_page_dec page_blocks h : Decision (on_page page_blocks h).
Proof. unfold on_page. apply _. Defined.

(** What the specification asks [append_highlights_to_page] to emit for
    one highlight on a page that holds [page_blocks]. *)
Definition blocks_on (page_blocks : list ChildBlock) (h : Highlight)
  : list json :=
  if decide (on_page page_blocks h) then [] else highlight_blocks h.

(** The query parameters of the request that lists the blocks of a page
    from [start_cursor] on. *)
Definition cursor_params (start_cursor : option string)
  : list (string * json) :=
  if truthy start_cursor
  then [("start_cursor", JStr (default "" start_cursor))] else [].

(** [listing w url tr cursor page_blocks tr' n]: asked after the requests
    [tr] for the blocks at [url] from [cursor] on, and then from the
    cursor each answer names for as long as the answers announce more,
    the service lists [page_blocks], in [n] answers; [tr'] are the
    requests made by then. *)
Inductive listing (w : World) (url : string)
  : list request → option string → list ChildBlock → list request → nat
    → Prop :=
| listing_last tr cursor a :
    w_children w (tr ++ [GET url (cursor_params cursor)]) = Answer a →
    default false (cp_has_more a) = false →
    listing w url tr cursor (cp_results a)
      (tr ++ [GET url (cursor_params cursor)]) 1
| listing_more tr cursor a page_blocks tr' n :
    w_children w (tr ++ [GET url (cursor_params cursor)]) = Answer a →
    default false (cp_has_more a) = true →
    listing w url (tr ++ [GET url (cursor_params cursor)])
      (cp_next_cursor a) page_blocks tr' n →
    listing w url tr cursor (cp_results a ++ page_blocks) tr' (S n).

(** The instant that a UTC timestamp [YYYY-MM-DDTHH:MM:SS[.f...]Z] names,
    as a number that grows with time: the fourteen digits of the date and
    the time of day, then the fraction of the second cut or padded to six
    digits. *)
Fixpoint leading_digits (s : string) : string :=
  match s with
  | EmptyString => ""
  | String a s' => if is_digit a then String a (leading_digits s') else ""
  end.

Fixpoint fraction_digits (s : string) : string :=
  match s with
  | EmptyString => ""
  | String a s' =>
      if Ascii.eqb a "." then leading_digits s' else fraction_digits s'
  end.

Definition instant (timestamp : string) : N :=
  (digits_number (str_take 19 timestamp) 0 * 1000000
   + digits_number (str_take 6 (fraction_digits timestamp +:+ "000000")) 0)%N.

Definition request_url (req : request) : string :=
  match req with
  | GET url _ | POST url _ | PATCH url _ => url
  end.

(** The request of [update_notion_page] made at time [current_time]. *)
Definition update_request (current_time page_id : string) (book : Book)
  : request :=
  PATCH (NOTION_API_BASE +:+ "/pages/" +:+ page_id)
        (update_payload current_time book).

(** The request for the highlights of [book_id] created after [since]. *)
Definition highlights_request (book_id : Z) (since : option string) : request :=
  GET (READWISE_API_BASE +:+ "/highlights/")
      (("book_id", JNum book_id)
       :: (if truthy since then [("highlighted_after", JStr (default "" since))]
           else [])).

(** The counters after an item took the UPDATE, the SKIP or the CREATE
    path. *)
Definition count_updated (book : Book) (acc : counters) : counters :=
  {| created_count := created_count acc;
     updated_count := S (updated_count acc);
     skipped_count := skipped_count acc;
     synced_ids := synced_ids acc ++ [b_id book] |}.

Definition count_skipped (acc : counters) : counters :=
  {| created_count := created_count acc;
     updated_count := updated_count acc;
     skipped_count := S (skipped_count acc);
     synced_ids := synced_ids acc |}.

Definition no_counts : counters :=
  {| created_count := 0; updated_count := 0; skipped_count := 0;
     synced_ids := [] |}.

(** An item reaches CREATE or UPDATE: a page has its title, or its id was
    never synced. *)
Definition reaches_page (self : Syncer) (pages : gmap string Page)
    (book : Book) : Prop :=
  is_Some (pages !! title_of book) ∨ b_id book ∉ synced_items self.

#[global] Instance reaches_page_dec self pages book :
  Decision (reaches_page self pages book).
Proof. unfold reaches_page. apply _. Defined.

(** What the handler of [main] writes for the exception [e]. *)
Definition error_report (e : exn) : list out :=
  [Stdout (nl +:+ rule);
   Stdout "❌ ERROR OCCURRED:";
   Stdout ("   " +:+ exn_type e +:+ ": " +:+ exn_msg e);
   Stdout (nl +:+ "📋 Full error details:");
   Traceback e;
   Stdout rule;
   Traceback e;
   Stdout rule].

(** * Sample data for the instances *)

Module Sample.

Definition http_error : exn :=
  {| exn_type := "HTTPError";
     exn_msg := "500 Server Error: Internal Server Error" |}.

Definition cfg : Config :=
  {| READWISE_API_TOKEN := "rw-token"; NOTION_API_TOKEN := "nt-token";
     NOTION_DATABASE_ID := "db1"; DAYS_TO_SYNC := None |}.

Definition args : Args := {| args_days := None; args_all := false |}.

(** A page that holds one quote, spread over two rich text elements, and
    a paragraph. *)
Definition children : ChildrenPage :=
  {| cp_results :=
       [ {| blk_type := Some "quote";
            blk_quote_text := [Some "Hello "; Some "world"] |};
         {| blk_type := Some "paragraph"; blk_quote_text := [] |} ];
     cp_has_more := None; cp_next_cursor := None |}.

Definition book (id : Z) (title : string) (n : Z) : Book :=
  {| b_id := id; b_title := Some title; b_author := Some "An Author";
     b_category := Some "articles"; b_num_highlights := Some n;
     b_last_highlight_at := Some "2024-04-20T08:00:00Z";
     b_cover_image_url := None |}.

Definition page (id title : string) (n : Z) : Page :=
  {| p_id := id; p_title := Some title; p_highlights := Value n |}.

Definition h_dup : Highlight :=
  {| h_text := Some " **Hello**  world "; h_note := None;
     h_highlighted_at := Value "2024-04-03T00:00:00Z" |}.

Definition h_new : Highlight :=
  {| h_text := Some "Fresh thought"; h_note := Some "mine";
     h_highlighted_at := Value "2024-04-02T00:00:00Z" |}.

Definition h_early : Highlight :=
  {| h_text := Some "A"; h_note := None;
     h_highlighted_at := Value "2024-04-01T00:00:00Z" |}.

Definition h_twin : Highlight :=
  {| h_text := Some "fresh  THOUGHT"; h_note := None;
     h_highlighted_at := Value "2024-04-04T00:00:00Z" |}.

(** What [sorted] says when it meets a key that is [None]. *)
Definition no_order : string :=
  "'<' not supported between instances of 'NoneType' and 'str'".

(** Every request succeeds; Readwise has no item, Notion pages hold
    [children]. *)
Definition world : World :=
  {| w_books := λ _, Answer ([], None);
     w_highlights := λ _, Answer [];
     w_query := λ _, Answer [];
     w_children := λ _, Answer children;
     w_append := λ _, Answer ();
     w_page := λ _, Answer (page "page-1" "T" 0);
     w_unorderable := λ _, no_order;
     w_utcnow := λ _, "2024-05-01T10:00:00.000000";
     w_days_ago := λ _ _, "2024-04-24T10:00:00.000000" |}.

(** Notion refuses to create or update pages; Readwise has one item. *)
Definition refusing_world : World :=
  {| w_books := λ _, Answer ([book 42 "T" 5], None);
     w_highlights := λ _, Answer [];
     w_query := λ _, Answer [];
     w_children := λ _, Answer children;
     w_append := λ _, Answer ();
     w_page := λ _, Fails http_error;
     w_unorderable := λ _, no_order;
     w_utcnow := λ _, "2024-05-01T10:00:00.000000";
     w_days_ago := λ _ _, "2024-04-24T10:00:00.000000" |}.

(** Readwise has three items: one synced before whose page is gone, one
    with a page, one new. *)
Definition busy_world : World :=
  {| w_books := λ _, Answer ([book 7 "Gone" 2; book 42 "T" 5; book 43 "New" 0],
                             None);
     w_highlights := λ _, Answer [h_dup; h_new];
     w_query := λ _, Answer [page "page-1" "T" 3];
     w_children := λ _, Answer children;
     w_append := λ _, Answer ();
     w_page := λ _, Answer (page "page-1" "T" 5);
     w_unorderable := λ _, no_order;
     w_utcnow := λ _, "2024-05-01T10:00:00.000000";
     w_days_ago := λ _ _, "2024-04-24T10:00:00.000000" |}.

(** Readwise is down. *)
Definition down_world : World :=
  {| w_books := λ _, Fails http_error;
     w_highlights := λ _, Fails http_error;
     w_query := λ _, Answer [];
     w_children := λ _, Answer children;
     w_append := λ _, Answer ();
     w_page := λ _, Answer (page "page-1" "T" 0);
     w_unorderable := λ _, no_order;
     w_utcnow := λ _, "2024-05-01T10:00:00.000000";
     w_days_ago := λ _ _, "2024-04-24T10:00:00.000000" |}.

Definition pages : gmap string Page := {[ "T" := page "page-1" "T" 3 ]}.

Definition st0 : state :=
  {| trace := []; last_sync_file := Some "2024-04-01T00:00:00Z";
     synced_items_file := Some {[ 7%Z ]}; console := [] |}.

Definition self0 : Syncer :=
  {| last_sync_time := Some "2024-04-01T00:00:00Z";
     synced_items := {[ 7%Z ]} |}.

End Sample.

(** ** Notions for the further properties *)

(** A computation all of whose requests satisfy [P]. *)
Definition sends_only {A} (P : request → Prop) (m : M A) : Prop :=
  ∀ st r st', m st = (r, st') →
    ∃ new, trace st' = trace st ++ new ∧ Forall P new.

Definition is_get (req : request) : Prop :=
  match req with
  | GET _ _ => True
  | _ => False
  end.

(** A request that reads, or that writes to Notion. *)
Definition reads_or_writes_notion (req : request) : Prop :=
  match req with
  | GET _ _ => True
  | POST url _ | PATCH url _ => String.prefix NOTION_API_BASE url = true
  end.

(** The query parameters of the first request of [get_readwise_books]. *)
Definition books_since (updated_after : option string) : option string :=
  if truthy updated_after then
    let s := default "" updated_after in
    if str_contains "." s then Some (before_char "." s +:+ "Z") else Some s
  else None.

Definition books_params (updated_after : option string)
  : list (string * json) :=
  match books_since updated_after with
  | Some v => [("highlighted_after", JStr v)]
  | None => []
  end.

(** The requests of a walk through the pages of a collection: only the
    first carries query parameters. *)
Definition paged_requests (params : list (string * json)) (urls : list string)
  : list request :=
  match urls with
  | [] => []
  | u :: us => GET u params :: map (λ u, GET u []) us
  end.

(** An item passes the client-side filter of [get_readwise_books]. *)
Definition recent_enough (cutoff_date : string) (book : Book) : Prop :=
  ∃ d, b_last_highlight_at book = Some d ∧ d ≠ "" ∧
       String.ltb (str_remove "Z" d) cutoff_date = false.

Definition query_url (cfg : Config) : string :=
  NOTION_API_BASE +:+ "/databases/" +:+ NOTION_DATABASE_ID cfg +:+ "/query".

(** The query that looks the titles of one batch up. *)
Definition query_request (cfg : Config) (batch_titles : list string) : request :=
  POST (query_url cfg)
    (JObj [("filter",
            match batch_titles with
            | [title] => title_equals title
            | _ => JObj [("or", JArr (map title_equals batch_titles))]
            end)]).

(** The page a title is mapped to after the pages [l] were entered in
    order: the last one with that title. *)
Definition last_titled (title : string) (l : list Page) : option Page :=
  last (filter (λ p, p_title p = Some title) l).

(** A request that lists the blocks of a page, from the start or from a
    cursor. *)
Definition lists_children (page_id : string) (req : request) : Prop :=
  req = GET (children_url page_id) [] ∨
  ∃ c, c ≠ "" ∧ req = GET (children_url page_id) [("start_cursor", JStr c)].

(** A request that appends a non-empty chunk of at most 100 blocks. *)
Definition appends_chunk (page_id : string) (req : request) : Prop :=
  ∃ chunk, req = patch_children page_id chunk ∧ chunk ≠ [] ∧
           (length chunk ≤ 100)%nat.

(** [all_pages[page_title] = page] for a page with a title. *)
Definition enter_page (all_pages : gmap string Page) (page : Page)
  : gmap string Page :=
  match p_title page with
  | Some page_title => <[page_title := page]> all_pages
  | None => all_pages
  end.

(** The [properties] of a payload. *)
Definition payload_properties (payload : json) : list (string * json) :=
  match json_get "properties" payload with
  | Some (JObj properties) => properties
  | _ => []
  end.

(** The value of a [select] property. *)
Definition select_name (name : string) : json :=
  JObj [("select", JObj [("name", JStr name)])].

(** The request of [create_notion_page] made at time [current_time]. *)
Definition create_request (cfg : Config) (current_time : string) (book : Book)
  : request :=
  POST (NOTION_API_BASE +:+ "/pages") (create_payload cfg current_time book).

Definition count_created (book : Book) (acc : counters) : counters :=
  {| created_count := S (created_count acc);
     updated_count := updated_count acc;
     skipped_count := skipped_count acc;
     synced_ids := synced_ids acc ++ [b_id book] |}.

(** The three paths of the loop of [full_sync]. *)
Definition takes_update (pages : gmap string Page) (book : Book) : Prop :=
  is_Some (pages !! title_of book).

Definition takes_skip (self : Syncer) (pages : gmap string Page) (book : Book)
  : Prop :=
  pages !! title_of book = None ∧ b_id book ∈ synced_items self.

Definition takes_create (self : Syncer) (pages : gmap string Page)
    (book : Book) : Prop :=
  pages !! title_of book = None ∧ b_id book ∉ synced_items self.

#[global] Instance takes_update_dec pages book :
  Decision (takes_update pages book).
Proof. unfold takes_update. apply _. Defined.

#[global] Instance takes_skip_dec self pages book :
  Decision (takes_skip self pages book).
Proof. unfold takes_skip. apply _. Defined.

#[global] Instance takes_create_dec self pages book :
  Decision (takes_create self pages book).
Proof. unfold takes_create. apply _. Defined.

(** One of the three credentials still has its placeholder value. *)
Definition credentials_missing (cfg : Config) : bool :=
  String.eqb (READWISE_API_TOKEN cfg) "YOUR_READWISE_TOKEN_HERE"
  || String.eqb (NOTION_API_TOKEN cfg) "YOUR_NOTION_TOKEN_HERE"
  || String.eqb (NOTION_DATABASE_ID cfg) "YOUR_DATABASE_ID_HERE".

(** The time filter [main] puts in [syncer.last_sync_time] before it
    calls [full_sync]: [--all] goes before [--days], which goes before
    [DAYS_TO_SYNC], which goes before the time read from the file. *)
Definition chosen_since (cfg : Config) (w : World) (args : Args) (st : state)
  : option string :=
  if args_all args then None
  else if negb (Z.eqb (default 0%Z (args_days args)) 0) then
    Some (w_days_ago w (trace st) (default 0%Z (args_days args)) +:+ "Z")
  else if (0 <? default 0 (DAYS_TO_SYNC cfg))%Z then
    Some (w_days_ago w (trace st) (default 0%Z (DAYS_TO_SYNC cfg)) +:+ "Z")
  else last_sync_file st.

(** More sample data. *)
Module Cases.

Definition old_book : Book :=
  {| b_id := 5%Z; b_title := Some "Old"; b_author := None;
     b_category := Some "PODCASTS"; b_num_highlights := Some 1%Z;
     b_last_highlight_at := Some "2023-01-01T00:00:00Z";
     b_cover_image_url := Some "https://img/old.png" |}.

Definition silent_book : Book :=
  {| b_id := 6%Z; b_title := None; b_author := None; b_category := None;
     b_num_highlights := None; b_last_highlight_at := None;
     b_cover_image_url := None |}.

(** Readwise answers in two pages; Notion knows two pages called "T". *)
Definition paged_world : World :=
  {| w_books := λ tr,
       match tr with
       | [_] => Answer ([Sample.book 42 "T" 5; old_book],
                        Some "https://readwise.io/api/v2/books/?page=2")
       | _ => Answer ([silent_book; Sample.book 43 "New" 0], None)
       end;
     w_highlights := λ _, Answer [Sample.h_new];
     w_query := λ _, Answer [Sample.page "page-1" "T" 3;
                             {| p_id := "page-0"; p_title := None;
                                p_highlights := Missing |};
                             Sample.page "page-2" "T" 4];
     w_children := λ _, Answer Sample.children;
     w_append := λ _, Answer ();
     w_page := λ _, Answer (Sample.page "page-9" "New" 0);
     w_unorderable := λ _, Sample.no_order;
     w_utcnow := λ _, "2024-05-01T10:00:00.000000";
     w_days_ago := λ _ _, "2024-04-24T10:00:00.000000" |}.

(** Two new items with one title. *)
Definition twins_world : World :=
  {| w_books := λ _, Answer ([Sample.book 50 "Same" 0; Sample.book 51 "Same" 0],
                             None);
     w_highlights := λ _, Answer [];
     w_query := λ _, Answer [];
     w_children := λ _, Answer Sample.children;
     w_append := λ _, Answer ();
     w_page := λ _, Answer (Sample.page "page-9" "Same" 0);
     w_unorderable := λ _, Sample.no_order;
     w_utcnow := λ _, "2024-05-01T10:00:00.000000";
     w_days_ago := λ _ _, "2024-04-24T10:00:00.000000" |}.

(** The Unicode data of the code points below 256, of the capital sigma
    and of the capital I with a dot, whose lower case has two code
    points; other code points are left alone.  The Greek capitals and
    the letters below 256 are cased, the apostrophe is ignored by case. *)
Definition unicode : Unicode.Database :=
  {| Unicode.db_space := λ c,
       (c <? 256)%N && Text.is_space (ascii_of_N c);
     Unicode.db_lower := λ c,
       if (c <? 256)%N then [N_of_ascii (Text.lower_char (ascii_of_N c))]
       else if (c =? 931)%N then [963%N]
       else if (c =? 304)%N then [105%N; 775%N]
       else [c];
     Unicode.db_cased := λ c,
       (65 <=? c)%N && (c <=? 90)%N || (97 <=? c)%N && (c <=? 122)%N
       || (913 <=? c)%N && (c <=? 969)%N;
     Unicode.db_case_ignorable := λ c, (c =? 39)%N |}.

(** A highlight whose timestamp is [null]. *)
Definition h_undated : Highlight :=
  {| h_text := Some "Undated"; h_note := None; h_highlighted_at := Null |}.

(** Two highlights half a second apart, the later one written with a
    fraction of the second. *)
Definition h_whole : Highlight :=
  {| h_text := Some "A"; h_note := None;
     h_highlighted_at := Value "2024-04-01T10:00:00Z" |}.

Definition h_part : Highlight :=
  {| h_text := Some "B"; h_note := None;
     h_highlighted_at := Value "2024-04-01T10:00:00.500Z" |}.

(** A page whose [Highlights] number is empty. *)
Definition blank_page : Page :=
  {| p_id := "page-3"; p_title := Some "T"; p_highlights := Null |}.

Definition no_token : Config :=
  {| READWISE_API_TOKEN := "rw-token";
     NOTION_API_TOKEN := "YOUR_NOTION_TOKEN_HERE";
     NOTION_DATABASE_ID := "db1"; DAYS_TO_SYNC := Some 7%Z |}.

Definition all_args : Args := {| args_days := Some 3%Z; args_all := true |}.

End Cases.

(** * Properties *)

(** ** Text normalisation *)

Module TextFacts.
Import Text TextSpec.

Ltac by_chars a :=
  destruct a as [[] [] [] [] [] [] [] []]; vm_compute; try reflexivity;
  try discriminate; auto.

Lemma is_space_lower_char a : is_space (lower_char a) = is_space a.
Proof. by_chars a. Qed.

Lemma lower_char_idem a : lower_char (lower_char a) = lower_char a.
Proof. by_chars a. Qed.

Lemma lower_char_star a :
  Ascii.eqb (lower_char a) "*" = Ascii.eqb a "*".
Proof. by_chars a. Qed.

Lemma lower_char_underscore a :
  Ascii.eqb (lower_char a) "_" = Ascii.eqb a "_".
Proof. by_chars a. Qed.

Lemma remove_single_free c l : free c (remove_single c l).
Proof.
  induction l as [|a t IH]; simpl; [constructor|].
  destruct (Ascii.eqb a c) eqn:E; [assumption|].
  constructor; assumption.
Qed.

Lemma remove_single_keeps d c l : free d l → free d (remove_single c l).
Proof.
  induction 1 as [|a t Ha Ht IH]; simpl; [constructor|].
  destruct (Ascii.eqb a c); [assumption|]. constructor; assumption.
Qed.

Lemma remove_single_id c l : free c l → remove_single c l = l.
Proof.
  induction 1 as [|a t Ha Ht IH]; simpl; [reflexivity|].
  rewrite Ha. f_equal. exact IH.
Qed.

(** [remove_double] recurses two characters ahead, so its facts are proved
    for a list and for the list with one more character in front. *)
Lemma remove_double_keeps_both d c l :
  (free d l → free d (remove_double c l)) ∧
  (∀ a, free d (a :: l) → free d (remove_double c (a :: l))).
Proof.
  induction l as [|b t [IH1 IH2]].
  - split; intros; simpl; assumption.
  - split; [apply IH2|].
    intros a Hf. inversion Hf as [|? ? Ha Hbt]; subst.
    inversion Hbt as [|? ? Hb Ht]; subst.
    change (remove_double c (a :: b :: t)) with
      (if Ascii.eqb a c && Ascii.eqb b c then remove_double c t
       else a :: remove_double c (b :: t)).
    destruct (Ascii.eqb a c && Ascii.eqb b c).
    + apply IH1. assumption.
    + constructor; [assumption|]. apply IH2. assumption.
Qed.

Lemma remove_double_keeps d c l : free d l → free d (remove_double c l).
Proof. apply remove_double_keeps_both. Qed.

Lemma remove_double_id_both c l :
  (free c l → remove_double c l = l) ∧
  (∀ a, free c (a :: l) → remove_double c (a :: l) = a :: l).
Proof.
  induction l as [|b t [IH1 IH2]].
  - split; intros; reflexivity.
  - split; [apply IH2|].
    intros a Hf. inversion Hf as [|? ? Ha Hbt]; subst.
    change (remove_double c (a :: b :: t)) with
      (if Ascii.eqb a c && Ascii.eqb b c then remove_double c t
       else a :: remove_double c (b :: t)).
    rewrite Ha. simpl. f_equal. apply IH2. assumption.
Qed.

Lemma remove_double_id c l : free c l → remove_double c l = l.
Proof. apply remove_double_id_both. Qed.

Lemma remove_single_double_both c l :
  remove_single c (remove_double c l) = remove_single c l ∧
  (∀ a, remove_single c (remove_double c (a :: l)) = remove_single c (a :: l)).
Proof.
  induction l as [|b t [IH1 IH2]].
  - split; intros; reflexivity.
  - split; [apply IH2|].
    intros a.
    change (remove_double c (a :: b :: t)) with
      (if Ascii.eqb a c && Ascii.eqb b c then remove_double c t
       else a :: remove_double c (b :: t)).
    destruct (Ascii.eqb a c) eqn:Ea; destruct (Ascii.eqb b c) eqn:Eb;
      cbn [andb remove_single]; rewrite ?Ea, ?Eb, ?IH1, ?IH2;
      cbn [remove_single]; rewrite ?Eb; reflexivity.
Qed.

(** The four substitutions together delete every asterisk and every
    underscore. *)
Lemma strip_markup_deletes l :
  strip_markup l = remove_single "_" (remove_single "*" l).
Proof.
  unfold strip_markup.
  rewrite (proj1 (remove_single_double_both "_" _)).
  rewrite (proj1 (remove_single_double_both "*" _)). reflexivity.
Qed.

Lemma remove_single_lower c l :
  (∀ a, Ascii.eqb (lower_char a) c = Ascii.eqb a c) →
  remove_single c (lower l) = lower (remove_single c l).
Proof.
  intros Hc. induction l as [|a t IH]; [reflexivity|].
  change (lower (a :: t)) with (lower_char a :: lower t).
  cbn [remove_single]. rewrite Hc, IH.
  destruct (Ascii.eqb a c); reflexivity.
Qed.

Lemma strip_markup_lower l : strip_markup (lower l) = lower (strip_markup l).
Proof.
  rewrite !strip_markup_deletes.
  rewrite (remove_single_lower "*" l lower_char_star).
  apply remove_single_lower, lower_char_underscore.
Qed.

Lemma strip_markup_free l :
  free "*" (strip_markup l) ∧ free "_" (strip_markup l).
Proof.
  unfold strip_markup. split.
  - apply remove_single_keeps, remove_double_keeps, remove_single_free.
  - apply remove_single_free.
Qed.

Lemma strip_markup_id l : free "*" l → free "_" l → strip_markup l = l.
Proof.
  intros Hs Hu. unfold strip_markup.
  rewrite (remove_double_id "*" l Hs), (remove_single_id "*" l Hs).
  rewrite (remove_double_id "_" l Hu). apply remove_single_id, Hu.
Qed.

Lemma lstrip_keeps c l : free c l → free c (lstrip l).
Proof.
  induction 1 as [|a t Ha Ht IH]; simpl; [constructor|].
  destruct (is_space a); [assumption|]. constructor; assumption.
Qed.

Lemma rstrip_keeps c l : free c l → free c (rstrip l).
Proof.
  induction 1 as [|a t Ha Ht IH]; simpl; [constructor|].
  destruct (rstrip t) as [|b r].
  - destruct (is_space a); repeat constructor; assumption.
  - constructor; assumption.
Qed.

Lemma sub_ws_keeps c b l :
  Ascii.eqb " " c = false → free c l → free c (sub_ws b l).
Proof.
  intros Hc Hl. revert b.
  induction Hl as [|a t Ha Ht IH]; intros b; simpl; [constructor|].
  destruct (is_space a).
  - destruct b; [apply IH|]. constructor; [assumption|apply IH].
  - constructor; [assumption|apply IH].
Qed.

Lemma lower_keeps_star l : free "*" l → free "*" (lower l).
Proof.
  unfold free, lower. rewrite Forall_map. intros H.
  eapply Forall_impl; [exact H|].
  intros a Ha. simpl. rewrite lower_char_star. exact Ha.
Qed.

Lemma lower_keeps_underscore l : free "_" l → free "_" (lower l).
Proof.
  unfold free, lower. rewrite Forall_map. intros H.
  eapply Forall_impl; [exact H|].
  intros a Ha. simpl. rewrite lower_char_underscore. exact Ha.
Qed.

(** Lowering commutes with the white space steps. *)
Lemma lstrip_lower l : lstrip (lower l) = lower (lstrip l).
Proof.
  induction l as [|a t IH]; [reflexivity|].
  change (lower (a :: t)) with (lower_char a :: lower t).
  cbn [lstrip]. rewrite is_space_lower_char.
  destruct (is_space a); [exact IH|reflexivity].
Qed.

Lemma rstrip_lower l : rstrip (lower l) = lower (rstrip l).
Proof.
  induction l as [|a t IH]; [reflexivity|].
  change (lower (a :: t)) with (lower_char a :: lower t).
  cbn [rstrip]. rewrite IH, is_space_lower_char.
  destruct (rstrip t); [|reflexivity].
  destruct (is_space a); reflexivity.
Qed.

Lemma sub_ws_lower b l : sub_ws b (lower l) = lower (sub_ws b l).
Proof.
  revert b. induction l as [|a t IH]; intros b; [reflexivity|].
  change (lower (a :: t)) with (lower_char a :: lower t).
  cbn [sub_ws]. rewrite is_space_lower_char.
  destruct (is_space a).
  - destruct b; rewrite IH; reflexivity.
  - rewrite IH. reflexivity.
Qed.

Lemma lower_idem l : lower (lower l) = lower l.
Proof.
  unfold lower. rewrite map_map. apply map_ext. apply lower_char_idem.
Qed.

Lemma lstrip_head_ok l : head_ok (lstrip l).
Proof.
  induction l as [|a t IH]; simpl; [exact I|].
  destruct (is_space a) eqn:E; [exact IH|exact E].
Qed.

Lemma rstrip_head_ok l : head_ok l → head_ok (rstrip l).
Proof.
  destruct l as [|a t]; simpl; [trivial|]. intros Ha.
  destruct (rstrip t); [rewrite Ha|]; exact Ha.
Qed.

Lemma lstrip_id l : head_ok l → lstrip l = l.
Proof. destruct l as [|a t]; simpl; [reflexivity|]. intros ->. reflexivity. Qed.

Lemma rstrip_idem l : rstrip (rstrip l) = rstrip l.
Proof.
  induction l as [|a t IH]; simpl; [reflexivity|].
  destruct (rstrip t) as [|b r] eqn:E.
  - destruct (is_space a) eqn:Ea; simpl; [reflexivity|]. rewrite Ea. reflexivity.
  - change (rstrip (a :: b :: r)) with
      (match rstrip (b :: r) with
       | [] => if is_space a then [] else [a]
       | r' => a :: r'
       end).
    rewrite IH. reflexivity.
Qed.

Lemma sub_ws_head_ok l : head_ok l → head_ok (sub_ws false l).
Proof. destruct l as [|a t]; simpl; [trivial|]. intros Ha. rewrite Ha. exact Ha. Qed.

Lemma rstrip_fixed_inv a t :
  rstrip (a :: t) = a :: t →
  (t = [] ∧ is_space a = false) ∨ (t ≠ [] ∧ rstrip t = t).
Proof.
  simpl. destruct (rstrip t) as [|b r] eqn:E.
  - destruct (is_space a) eqn:Ea; [discriminate|].
    intros [= <-]. left. split; reflexivity.
  - intros [= <-]. right. split; [discriminate|reflexivity].
Qed.

Lemma sub_ws_nonempty b l : rstrip l = l → l ≠ [] → sub_ws b l ≠ [].
Proof.
  revert b. induction l as [|a t IH]; intros b Hfix Hne; [congruence|].
  simpl. destruct (is_space a) eqn:Ea; [|discriminate].
  destruct (rstrip_fixed_inv a t Hfix) as [[_ Hna]|[Ht Hfix']]; [congruence|].
  destruct b; [apply IH; assumption|discriminate].
Qed.

Lemma rstrip_sub_ws b l : rstrip l = l → rstrip (sub_ws b l) = sub_ws b l.
Proof.
  revert b. induction l as [|a t IH]; intros b Hfix; [reflexivity|].
  destruct (rstrip_fixed_inv a t Hfix) as [[-> Hna]|[Ht Hfix']].
  - simpl. rewrite Hna. simpl. rewrite Hna. reflexivity.
  - simpl. destruct (is_space a) eqn:Ea.
    + destruct b; [apply IH; assumption|].
      simpl. rewrite (IH true Hfix').
      destruct (sub_ws true t) eqn:E; [|reflexivity].
      exfalso. exact (sub_ws_nonempty true t Hfix' Ht E).
    + simpl. rewrite (IH false Hfix').
      destruct (sub_ws false t); [rewrite Ea|]; reflexivity.
Qed.

Lemma sub_ws_idem b l : sub_ws b (sub_ws b l) = sub_ws b l.
Proof.
  revert b. induction l as [|a t IH]; intros b; simpl; [reflexivity|].
  destruct (is_space a) eqn:Ea.
  - destruct b; [apply IH|]. simpl. rewrite IH. reflexivity.
  - simpl. rewrite Ea, IH. reflexivity.
Qed.

Lemma strip_sub_ws_strip l :
  strip (sub_ws false (strip l)) = sub_ws false (strip l).
Proof.
  unfold strip at 1.
  rewrite lstrip_id.
  - apply rstrip_sub_ws. unfold strip. apply rstrip_idem.
  - apply sub_ws_head_ok. unfold strip. apply rstrip_head_ok, lstrip_head_ok.
Qed.

(** Every step of the normalisation leaves a normalised text alone. *)
Lemma normalize_chars_fixed l :
  let r := normalize_chars l in
  strip_markup r = r ∧ strip r = r ∧ sub_ws false r = r ∧ lower r = r.
Proof.
  unfold normalize_chars. cbv zeta.
  destruct (strip_markup_free l) as [Hs Hu].
  set (m := strip_markup l) in *.
  repeat split.
  - apply strip_markup_id.
    + apply lower_keeps_star, sub_ws_keeps; [reflexivity|].
      apply rstrip_keeps, lstrip_keeps, Hs.
    + apply lower_keeps_underscore, sub_ws_keeps; [reflexivity|].
      apply rstrip_keeps, lstrip_keeps, Hu.
  - unfold strip at 1. rewrite lstrip_lower, rstrip_lower.
    fold (strip (sub_ws false (strip m))). rewrite strip_sub_ws_strip.
    reflexivity.
  - rewrite sub_ws_lower, sub_ws_idem. reflexivity.
  - apply lower_idem.
Qed.

Lemma normalize_chars_idem l :
  normalize_chars (normalize_chars l) = normalize_chars l.
Proof.
  destruct (normalize_chars_fixed l) as (H1 & H2 & H3 & H4).
  cbv zeta in *. set (r := normalize_chars l) in *.
  unfold normalize_chars. rewrite H1, H2, H3. exact H4.
Qed.

(** Case does not matter. *)
Lemma normalize_chars_lower l :
  normalize_chars (lower l) = normalize_chars l.
Proof.
  unfold normalize_chars, strip. cbv zeta.
  rewrite strip_markup_lower, lstrip_lower, rstrip_lower, sub_ws_lower.
  apply lower_idem.
Qed.

End TextFacts.

(** ** Normalising a text of any code points *)

Module UnicodeFacts.
Import Unicode.

Section Facts.

Context (U : Database).

Lemma uni_remove_single_app c l1 l2 :
  remove_single c (l1 ++ l2) = remove_single c l1 ++ remove_single c l2.
Proof.
  induction l1 as [|a t IH]; [reflexivity|]. simpl.
  destruct (a =? c)%N; simpl; rewrite IH; reflexivity.
Qed.

Lemma uni_remove_single_free c l : Forall (λ a, a ≠ c) (remove_single c l).
Proof.
  induction l as [|a t IH]; simpl; [constructor|].
  destruct (N.eqb_spec a c); [assumption|]. constructor; assumption.
Qed.

Lemma uni_remove_single_keeps d c l :
  Forall (λ a, a ≠ d) l → Forall (λ a, a ≠ d) (remove_single c l).
Proof.
  induction 1 as [|a t Ha Ht IH]; simpl; [constructor|].
  destruct (a =? c)%N; [assumption|]. constructor; assumption.
Qed.

Lemma uni_remove_single_id c l :
  Forall (λ a, a ≠ c) l → remove_single c l = l.
Proof.
  induction 1 as [|a t Ha Ht IH]; simpl; [reflexivity|].
  destruct (N.eqb_spec a c); [contradiction|]. f_equal. exact IH.
Qed.

(** [remove_double] recurses two code points ahead. *)
Lemma uni_remove_single_double_both c l :
  remove_single c (remove_double c l) = remove_single c l ∧
  (∀ a, remove_single c (remove_double c (a :: l)) = remove_single c (a :: l)).
Proof.
  induction l as [|b t [IH1 IH2]].
  - split; intros; reflexivity.
  - split; [apply IH2|].
    intros a.
    change (remove_double c (a :: b :: t)) with
      (if ((a =? c) && (b =? c))%N then remove_double c t
       else a :: remove_double c (b :: t)).
    destruct (a =? c)%N eqn:Ea; destruct (b =? c)%N eqn:Eb;
      cbn [andb remove_single]; rewrite ?Ea, ?Eb, ?IH1, ?IH2;
      cbn [remove_single]; rewrite ?Eb; reflexivity.
Qed.

(** The four substitutions together delete every asterisk and every
    underscore. *)
Lemma uni_strip_markup_deletes l :
  strip_markup l = remove_single underscore (remove_single asterisk l).
Proof.
  unfold strip_markup.
  rewrite (proj1 (uni_remove_single_double_both underscore _)).
  rewrite (proj1 (uni_remove_single_double_both asterisk _)). reflexivity.
Qed.

Lemma uni_strip_markup_app l1 l2 :
  strip_markup (l1 ++ l2) = strip_markup l1 ++ strip_markup l2.
Proof. rewrite !uni_strip_markup_deletes, !uni_remove_single_app. reflexivity. Qed.

Lemma uni_strip_markup_free l : markup_free (strip_markup l).
Proof.
  rewrite uni_strip_markup_deletes. unfold markup_free.
  apply Forall_and. split.
  - apply uni_remove_single_keeps, uni_remove_single_free.
  - apply uni_remove_single_free.
Qed.

Lemma uni_strip_markup_id l : markup_free l → strip_markup l = l.
Proof.
  unfold markup_free. rewrite Forall_and. intros [Hs Hu].
  rewrite uni_strip_markup_deletes.
  rewrite (uni_remove_single_id asterisk l Hs).
  apply uni_remove_single_id, Hu.
Qed.

Lemma uni_rstrip_cons c t :
  rstrip U (c :: t)
  = if db_space U c then match rstrip U t with [] => [] | r => c :: r end
    else c :: rstrip U t.
Proof. simpl. destruct (rstrip U t); destruct (db_space U c); reflexivity. Qed.

Lemma uni_collapse_blank_nil s l :
  rstrip U l = [] → collapse U s s l = [].
Proof.
  induction l as [|c t IH]; [reflexivity|].
  rewrite uni_rstrip_cons. simpl.
  destruct (db_space U c); [|discriminate].
  destruct (rstrip U t); [intros _; apply IH; reflexivity|discriminate].
Qed.

Lemma uni_collapse_rstrip l :
  sub_ws U false (rstrip U l) = collapse U false true l ∧
  (rstrip U l ≠ [] →
   space :: sub_ws U true (rstrip U l) = collapse U true true l).
Proof.
  induction l as [|c t [IHa IHb]];
    [split; [reflexivity|intros H; exfalso; apply H; reflexivity]|].
  rewrite uni_rstrip_cons. cbn [collapse].
  destruct (db_space U c) eqn:Hc.
  - destruct (rstrip U t) as [|d r] eqn:Hr.
    + split; [|congruence]. simpl. symmetry.
      apply uni_collapse_blank_nil, Hr.
    + assert (Hne : d :: r ≠ []) by discriminate.
      split; [|intros _]; cbn [sub_ws]; rewrite Hc; apply IHb, Hne.
  - split; [|intros _]; cbn [sub_ws app]; rewrite Hc, IHa; reflexivity.
Qed.

Lemma uni_collapse_lstrip l : collapse U false false (lstrip U l) = collapse U false false l.
Proof.
  induction l as [|c t IH]; [reflexivity|]. simpl.
  destruct (db_space U c) eqn:Hc; [exact IH|].
  simpl. rewrite Hc. reflexivity.
Qed.

(** Trimming and then replacing the runs is the one pass. *)
Lemma uni_squash l : sub_ws U false (strip U l) = collapse U false false l.
Proof.
  unfold strip. rewrite <- uni_collapse_lstrip.
  assert (Hhead : match lstrip U l with
                  | c :: _ => db_space U c = false
                  | [] => True
                  end).
  { induction l as [|c t IH]; simpl; [exact I|].
    destruct (db_space U c) eqn:Hc; [exact IH|exact Hc]. }
  destruct (lstrip U l) as [|c t]; [reflexivity|].
  rewrite uni_rstrip_cons. cbn [collapse]. rewrite Hhead.
  cbn [sub_ws app]. rewrite Hhead.
  rewrite (proj1 (uni_collapse_rstrip t)). reflexivity.
Qed.

(** A run of white space moves the pass to the state it had after it
    started, whatever the run is made of. *)
Lemma uni_collapse_blank p s w l :
  blank U w → w ≠ [] → collapse U p s (w ++ l) = collapse U s s l.
Proof.
  intros Hw. revert p. induction Hw as [|c t Hc Ht IH]; intros p Hne;
    [congruence|].
  cbn [app collapse]. rewrite Hc.
  destruct t as [|d t']; [reflexivity|]. apply IH. discriminate.
Qed.

Lemma uni_collapse_blank_start w l :
  blank U w → collapse U false false (w ++ l) = collapse U false false l.
Proof.
  intros Hw. destruct w; [reflexivity|].
  apply uni_collapse_blank; [exact Hw|discriminate].
Qed.

Lemma uni_collapse_blank_end p s l w :
  blank U w → collapse U p s (l ++ w) = collapse U p s l.
Proof.
  intros Hw. revert p s. induction l as [|c t IH]; intros p s.
  - simpl. revert p s. induction Hw as [|d w Hd Hw IHw]; intros p s;
      [reflexivity|].
    simpl. rewrite Hd. apply IHw.
  - cbn [app collapse]. destruct (db_space U c); rewrite ?IH; reflexivity.
Qed.

Lemma uni_collapse_run p s l1 w1 w2 l2 :
  blank U w1 → w1 ≠ [] → blank U w2 → w2 ≠ [] →
  collapse U p s (l1 ++ w1 ++ l2) = collapse U p s (l1 ++ w2 ++ l2).
Proof.
  intros H1 N1 H2 N2. revert p s. induction l1 as [|c t IH]; intros p s.
  - cbn [app]. rewrite !uni_collapse_blank by assumption. reflexivity.
  - cbn [app collapse]. destruct (db_space U c); rewrite ?IH; reflexivity.
Qed.

Section Lawful.

Hypothesis HU : lawful U.

Lemma uni_blank_no_markup w : blank U w → markup_free w.
Proof.
  destruct (markup_no_space U HU) as [Hs Hu].
  unfold blank, markup_free. intros H. eapply Forall_impl; [exact H|].
  intros c Hc. split; intros ->; congruence.
Qed.

Lemma uni_collapse_markup p s l :
  markup_free l → markup_free (collapse U p s l).
Proof.
  unfold markup_free. intros H. revert p s.
  induction H as [|c t Hc Ht IH]; intros p s; simpl; [constructor|].
  destruct (db_space U c); [apply IH|].
  destruct p; simpl; repeat constructor; try discriminate; try apply Hc;
    apply IH.
Qed.

(** A tidy text is left alone by the pass. *)
Lemma uni_tidy_fixed_both l :
  (tidy_from U false l = true → collapse U false true l = l) ∧
  (tidy_from U true l = true → collapse U true true l = space :: l).
Proof.
  induction l as [|c t [IHa IHb]]; [split; [reflexivity|discriminate]|].
  cbn [tidy_from collapse]. destruct (db_space U c) eqn:Hc.
  - split; [|discriminate]. cbn [negb andb]. intros H.
    apply andb_true_iff in H as [H1 H2]. apply N.eqb_eq in H1 as ->.
    exact (IHb H2).
  - split; intros H; cbn [app]; rewrite (IHa H); reflexivity.
Qed.

Lemma uni_tidy_fixed l : tidy U l = true → collapse U false false l = l.
Proof.
  destruct l as [|c t]; [reflexivity|].
  cbn [tidy tidy_from collapse]. destruct (db_space U c); [discriminate|].
  intros H. cbn [app]. rewrite (proj1 (uni_tidy_fixed_both t) H). reflexivity.
Qed.

(** The pass leaves a tidy text. *)
Lemma uni_collapse_tidy_from p l :
  tidy_from U false (collapse U p true l) = true.
Proof.
  revert p. induction l as [|c t IH]; intros p; [reflexivity|].
  cbn [collapse]. destruct (db_space U c) eqn:Hc; [apply IH|].
  destruct p; cbn [app tidy_from]; rewrite ?(space_is_space U HU), ?Hc;
    cbn [negb andb]; rewrite ?N.eqb_refl; cbn [andb]; rewrite ?Hc; apply IH.
Qed.

Lemma uni_collapse_tidy l : tidy U (collapse U false false l) = true.
Proof.
  induction l as [|c t IH]; [reflexivity|].
  cbn [collapse]. destruct (db_space U c) eqn:Hc; [exact IH|].
  cbn [app tidy tidy_from]. rewrite Hc. apply uni_collapse_tidy_from.
Qed.

Lemma uni_lower_from_stable b l : Forall (stable U) l → lower_from U b l = l.
Proof.
  intros H. revert b. induction H as [|c t [Hc1 Hc2] Ht IH]; intros b;
    [reflexivity|].
  cbn [lower_from]. destruct (N.eqb_spec c capital_sigma); [contradiction|].
  rewrite Hc2, IH. reflexivity.
Qed.

Lemma uni_lower_from_is_stable b l : Forall (stable U) (lower_from U b l).
Proof.
  revert b. induction l as [|c t IH]; intros b; [constructor|].
  cbn [lower_from]. apply Forall_app. split; [|apply IH].
  destruct (c =? capital_sigma)%N.
  - constructor; [|constructor]. unfold lower_sigma.
    destruct (sigma_stable U HU) as [Hf Hs].
    destruct (_ && _); split; try assumption; discriminate.
  - apply Forall_forall. intros d Hd. exact (lower_stable U HU c d Hd).
Qed.

Lemma uni_lower_idem l : lower U (lower U l) = lower U l.
Proof. apply uni_lower_from_stable, uni_lower_from_is_stable. Qed.

Lemma uni_lower_markup b l : markup_free l → markup_free (lower_from U b l).
Proof.
  unfold markup_free. intros H. revert b.
  induction H as [|c t [Hc1 Hc2] Ht IH]; intros b; [constructor|].
  cbn [lower_from]. apply Forall_app. split; [|apply IH].
  destruct (c =? capital_sigma)%N.
  - constructor; [|constructor]. unfold lower_sigma.
    destruct (_ && _); split; discriminate.
  - apply Forall_forall. intros d Hd.
    split; intros ->.
    + apply Hc1. apply (lower_no_markup U HU c _ Hd). left. reflexivity.
    + apply Hc2. apply (lower_no_markup U HU c _ Hd). right. reflexivity.
Qed.

Lemma uni_tidy_from_app a p l :
  p ≠ [] → Forall (λ d, db_space U d = false) p →
  tidy_from U a (p ++ l) = tidy_from U false l.
Proof.
  intros Hne Hp. revert a.
  induction Hp as [|d p Hd Hp IH]; intros a; [congruence|].
  cbn [app tidy_from]. rewrite Hd.
  destruct p as [|d' p']; [reflexivity|]. apply IH. discriminate.
Qed.

Lemma uni_lower_tidy_from a b l :
  tidy_from U a l = true → tidy_from U a (lower_from U b l) = true.
Proof.
  revert a b. induction l as [|c t IH]; intros a b; [auto|].
  cbn [tidy_from lower_from]. destruct (db_space U c) eqn:Hc.
  - intros H. apply andb_true_iff in H as [H H3].
    apply andb_true_iff in H as [H1 H2]. apply N.eqb_eq in H2 as ->.
    change (space =? capital_sigma)%N with false. cbv iota.
    rewrite (lower_of_space U HU). cbn [app tidy_from].
    rewrite Hc, H1, (IH _ _ H3). reflexivity.
  - intros H. rewrite uni_tidy_from_app; [apply IH, H| |].
    + destruct (c =? capital_sigma)%N; [discriminate|].
      apply (lower_some U HU).
    + destruct (c =? capital_sigma)%N.
      * constructor; [|constructor]. unfold lower_sigma.
        destruct (sigma_no_space U HU) as [Hf Hs].
        destruct (_ && _); assumption.
      * apply Forall_forall. intros d Hd.
        exact (lower_no_space U HU c d Hc Hd).
Qed.

Lemma uni_lower_tidy l : tidy U l = true → tidy U (lower U l) = true.
Proof.
  destruct l as [|c t]; [reflexivity|].
  unfold tidy at 1. intros H.
  apply (uni_lower_tidy_from true []) in H. unfold lower, tidy.
  destruct (lower_from U [] (c :: t)); [reflexivity|exact H].
Qed.

Lemma uni_normalize_unfold t :
  normalize U t = lower U (collapse U false false (strip_markup t)).
Proof. unfold normalize. cbv zeta. rewrite uni_squash. reflexivity. Qed.

(** A text without markup and with its white space in order is only
    lowered. *)
Lemma uni_normalize_clean t :
  markup_free t → tidy U t = true → normalize U t = lower U t.
Proof.
  intros Hm Ht. rewrite uni_normalize_unfold, (uni_strip_markup_id t Hm).
  rewrite (uni_tidy_fixed t Ht). reflexivity.
Qed.

(** The normal form has no markup, its white space is in order, and it
    is its own lower case. *)
Lemma uni_normalize_normal t :
  let r := normalize U t in
  markup_free r ∧ tidy U r = true ∧ lower U r = r.
Proof.
  cbv zeta. rewrite uni_normalize_unfold. split; [|split].
  - apply uni_lower_markup, uni_collapse_markup, uni_strip_markup_free.
  - apply uni_lower_tidy, uni_collapse_tidy.
  - apply uni_lower_idem.
Qed.

Lemma uni_normalize_idem t : normalize U (normalize U t) = normalize U t.
Proof.
  destruct (uni_normalize_normal t) as (Hm & Ht & Hl). cbv zeta in *.
  rewrite (uni_normalize_clean _ Hm Ht). exact Hl.
Qed.

Lemma uni_normalize_markup t1 c t2 :
  c = asterisk ∨ c = underscore →
  normalize U (t1 ++ c :: t2) = normalize U (t1 ++ t2).
Proof.
  intros Hc. rewrite !uni_normalize_unfold, !uni_strip_markup_app.
  do 3 f_equal. rewrite !uni_strip_markup_deletes.
  destruct Hc as [-> | ->]; reflexivity.
Qed.

Lemma uni_normalize_run t1 w1 w2 t2 :
  blank U w1 → w1 ≠ [] → blank U w2 → w2 ≠ [] →
  normalize U (t1 ++ w1 ++ t2) = normalize U (t1 ++ w2 ++ t2).
Proof.
  intros H1 N1 H2 N2. rewrite !uni_normalize_unfold, !uni_strip_markup_app.
  rewrite (uni_strip_markup_id w1), (uni_strip_markup_id w2)
    by (apply uni_blank_no_markup; assumption).
  f_equal. apply uni_collapse_run; assumption.
Qed.

Lemma uni_normalize_trim w1 t w2 :
  blank U w1 → blank U w2 → normalize U (w1 ++ t ++ w2) = normalize U t.
Proof.
  intros H1 H2. rewrite !uni_normalize_unfold, !uni_strip_markup_app.
  rewrite (uni_strip_markup_id w1), (uni_strip_markup_id w2)
    by (apply uni_blank_no_markup; assumption).
  f_equal. rewrite uni_collapse_blank_start by exact H1.
  apply uni_collapse_blank_end, H2.
Qed.

End Lawful.

Section Latin1.

Hypothesis HL : latin1 U.

Lemma uni_eqb_ascii a c : (N_of_ascii a =? N_of_ascii c)%N = Ascii.eqb a c.
Proof.
  destruct (Ascii.eqb_spec a c) as [->|Hn]; [apply N.eqb_refl|].
  apply N.eqb_neq. intros H. apply Hn.
  rewrite <- (ascii_N_embedding a), <- (ascii_N_embedding c), H. reflexivity.
Qed.

Lemma uni_enc_remove_single c l :
  remove_single (N_of_ascii c) (map N_of_ascii l) = map N_of_ascii (Text.remove_single c l).
Proof.
  induction l as [|a t IH]; [reflexivity|].
  cbn [map remove_single Text.remove_single].
  rewrite uni_eqb_ascii, IH. destruct (Ascii.eqb a c); reflexivity.
Qed.

Lemma uni_enc_remove_double_both c l :
  remove_double (N_of_ascii c) (map N_of_ascii l) = map N_of_ascii (Text.remove_double c l) ∧
  (∀ a, remove_double (N_of_ascii c) (map N_of_ascii (a :: l))
        = map N_of_ascii (Text.remove_double c (a :: l))).
Proof.
  induction l as [|b t [IH1 IH2]].
  - split; intros; reflexivity.
  - split; [apply IH2|]. intros a.
    change (Text.remove_double c (a :: b :: t)) with
      (if Ascii.eqb a c && Ascii.eqb b c then Text.remove_double c t
       else a :: Text.remove_double c (b :: t)).
    change (remove_double (N_of_ascii c) (map N_of_ascii (a :: b :: t))) with
      (if ((N_of_ascii a =? N_of_ascii c) && (N_of_ascii b =? N_of_ascii c))%N
       then remove_double (N_of_ascii c) (map N_of_ascii t)
       else N_of_ascii a :: remove_double (N_of_ascii c) (map N_of_ascii (b :: t))).
    rewrite !uni_eqb_ascii, IH1, IH2.
    destruct (_ && _); reflexivity.
Qed.

Lemma uni_enc_strip_markup l :
  strip_markup (map N_of_ascii l) = map N_of_ascii (Text.strip_markup l).
Proof.
  unfold strip_markup, Text.strip_markup. cbv zeta.
  change asterisk with (N_of_ascii "*").
  change underscore with (N_of_ascii "_").
  rewrite (proj1 (uni_enc_remove_double_both "*" l)), uni_enc_remove_single.
  rewrite (proj1 (uni_enc_remove_double_both "_" _)), uni_enc_remove_single.
  reflexivity.
Qed.

Lemma uni_enc_lstrip l : lstrip U (map N_of_ascii l) = map N_of_ascii (Text.lstrip l).
Proof.
  induction l as [|a t IH]; [reflexivity|].
  cbn [map lstrip Text.lstrip]. rewrite (proj1 (HL a)), IH.
  destruct (Text.is_space a); reflexivity.
Qed.

Lemma uni_enc_rstrip l : rstrip U (map N_of_ascii l) = map N_of_ascii (Text.rstrip l).
Proof.
  induction l as [|a t IH]; [reflexivity|].
  cbn [map rstrip Text.rstrip]. rewrite (proj1 (HL a)), IH.
  destruct (Text.rstrip t); [destruct (Text.is_space a)|]; reflexivity.
Qed.

Lemma uni_enc_sub_ws b l : sub_ws U b (map N_of_ascii l) = map N_of_ascii (Text.sub_ws b l).
Proof.
  revert b. induction l as [|a t IH]; intros b; [reflexivity|].
  cbn [map sub_ws Text.sub_ws]. rewrite (proj1 (HL a)), !IH.
  destruct (Text.is_space a); [destruct b|]; reflexivity.
Qed.

Lemma uni_enc_lower before l :
  lower_from U before (map N_of_ascii l) = map N_of_ascii (Text.lower l).
Proof.
  revert before. induction l as [|a t IH]; intros before; [reflexivity|].
  change (Text.lower (a :: t)) with (Text.lower_char a :: Text.lower t).
  cbn [map lower_from].
  assert (Hs : (N_of_ascii a =? capital_sigma)%N = false).
  { apply N.eqb_neq. pose proof (N_ascii_bounded a). unfold capital_sigma.
    lia. }
  rewrite Hs, (proj2 (HL a)), IH. reflexivity.
Qed.

(** On a text of code points below 256 the two models agree. *)
Lemma uni_latin1_agrees s :
  normalize_text s = decode (normalize U (encode s)).
Proof.
  unfold normalize_text, decode, encode, normalize, strip, lower,
    Text.normalize_chars, Text.strip. cbv zeta.
  rewrite uni_enc_strip_markup, uni_enc_lstrip, uni_enc_rstrip,
    uni_enc_sub_ws, uni_enc_lower.
  rewrite map_map. f_equal. symmetry.
  etransitivity; [|apply map_id]. apply map_ext. apply ascii_N_embedding.
Qed.

End Latin1.

End Facts.

(** The sample data obey the laws and agree with [Text]. *)
Lemma uni_sample_space a :
  db_space Cases.unicode (N_of_ascii a) = Text.is_space a.
Proof.
  cbn [db_space Cases.unicode].
  rewrite (proj2 (N.ltb_lt _ _) (N_ascii_bounded a)), ascii_N_embedding.
  reflexivity.
Qed.

Lemma uni_sample_lower a :
  db_lower Cases.unicode (N_of_ascii a) = [N_of_ascii (Text.lower_char a)].
Proof.
  cbn [db_lower Cases.unicode].
  rewrite (proj2 (N.ltb_lt _ _) (N_ascii_bounded a)), ascii_N_embedding.
  reflexivity.
Qed.

Lemma uni_sample_latin1 : latin1 Cases.unicode.
Proof. intros a. split; [apply uni_sample_space|apply uni_sample_lower]. Qed.

Lemma uni_sample_low c : (c <? 256)%N = true → ∃ a, c = N_of_ascii a.
Proof.
  intros H. exists (ascii_of_N c). symmetry.
  apply N_ascii_embedding, N.ltb_lt, H.
Qed.

Lemma uni_sample_lawful : lawful Cases.unicode.
Proof.
  split.
  - reflexivity.
  - split; reflexivity.
  - split; reflexivity.
  - intros c. cbn [db_lower Cases.unicode].
    destruct (c <? 256)%N; [discriminate|].
    destruct (c =? 931)%N; [discriminate|].
    destruct (c =? 304)%N; discriminate.
  - reflexivity.
  - intros c d Hc Hd. destruct (c <? 256)%N eqn:E.
    + apply uni_sample_low in E as [a ->].
      rewrite uni_sample_lower in Hd. rewrite uni_sample_space in Hc.
      apply list_elem_of_singleton in Hd as ->.
      rewrite uni_sample_space, TextFacts.is_space_lower_char. exact Hc.
    + cbn [db_lower Cases.unicode] in Hd. rewrite E in Hd.
      destruct (c =? 931)%N;
        [apply list_elem_of_singleton in Hd as ->; reflexivity|].
      destruct (c =? 304)%N.
      * apply elem_of_cons in Hd as [->|Hd]; [reflexivity|].
        apply list_elem_of_singleton in Hd as ->. reflexivity.
      * apply list_elem_of_singleton in Hd as ->. exact Hc.
  - intros c d Hd Hm. destruct (c <? 256)%N eqn:E.
    + apply uni_sample_low in E as [a ->].
      rewrite uni_sample_lower in Hd.
      apply list_elem_of_singleton in Hd as ->. f_equal.
      destruct Hm as [Hm|Hm].
      * change asterisk with (N_of_ascii "*") in Hm.
        apply N.eqb_eq in Hm. rewrite uni_eqb_ascii in Hm.
        rewrite TextFacts.lower_char_star in Hm.
        apply Ascii.eqb_eq in Hm as ->. reflexivity.
      * change underscore with (N_of_ascii "_") in Hm.
        apply N.eqb_eq in Hm. rewrite uni_eqb_ascii in Hm.
        rewrite TextFacts.lower_char_underscore in Hm.
        apply Ascii.eqb_eq in Hm as ->. reflexivity.
    + cbn [db_lower Cases.unicode] in Hd. rewrite E in Hd.
      destruct (c =? 931)%N;
        [apply list_elem_of_singleton in Hd as ->;
         destruct Hm; discriminate|].
      destruct (c =? 304)%N.
      * apply elem_of_cons in Hd as [->|Hd]; [destruct Hm; discriminate|].
        apply list_elem_of_singleton in Hd as ->. destruct Hm; discriminate.
      * apply list_elem_of_singleton in Hd as ->. reflexivity.
  - intros c d Hd. destruct (c <? 256)%N eqn:E.
    + apply uni_sample_low in E as [a ->].
      rewrite uni_sample_lower in Hd.
      apply list_elem_of_singleton in Hd as ->.
      split; [pose proof (N_ascii_bounded (Text.lower_char a));
              unfold capital_sigma; lia|].
      rewrite uni_sample_lower, TextFacts.lower_char_idem. reflexivity.
    + cbn [db_lower Cases.unicode] in Hd. rewrite E in Hd.
      destruct (c =? 931)%N eqn:E1;
        [apply list_elem_of_singleton in Hd as ->;
         split; [discriminate|reflexivity]|].
      destruct (c =? 304)%N eqn:E2.
      * apply elem_of_cons in Hd as [->|Hd];
          [split; [discriminate|reflexivity]|].
        apply list_elem_of_singleton in Hd as ->.
        split; [discriminate|reflexivity].
      * apply list_elem_of_singleton in Hd as ->.
        split; [apply N.eqb_neq, E1|].
        cbn [db_lower Cases.unicode]. rewrite E, E1, E2. reflexivity.
  - split; reflexivity.
Qed.

End UnicodeFacts.

(** C7.  [normalize_text] is idempotent on every text, and invariant
    under formatting: a text has the normal form of the text without one
    of its asterisks or underscores, of the text with one of its runs of
    white space replaced by another, and of the text with white space
    added at its ends.  The normal form has no such markup, its white
    space is single spaces between other characters, and it is its own
    lower case; a text that has no markup and whose white space is so is
    only lowered.  This holds whatever the Unicode database of the
    interpreter says, within its laws.  On the texts of the program, of
    code points below 256, [normalize_text] is this function, and
    [" **Hello**  world "] normalises like ["hello world"]. *)
Theorem normalize_text_idempotent (U : Unicode.Database) :
  Unicode.lawful U →
  let normalize := Unicode.normalize U in
  (∀ t, normalize (normalize t) = normalize t) ∧
  (∀ t1 c t2, c = Unicode.asterisk ∨ c = Unicode.underscore →
     normalize (t1 ++ c :: t2) = normalize (t1 ++ t2)) ∧
  (∀ t1 w1 w2 t2,
     Unicode.blank U w1 → w1 ≠ [] → Unicode.blank U w2 → w2 ≠ [] →
     normalize (t1 ++ w1 ++ t2) = normalize (t1 ++ w2 ++ t2)) ∧
  (∀ w1 t w2, Unicode.blank U w1 → Unicode.blank U w2 →
     normalize (w1 ++ t ++ w2) = normalize t) ∧
  (∀ t, Unicode.markup_free (normalize t) ∧
        Unicode.tidy U (normalize t) = true ∧
        Unicode.lower U (normalize t) = normalize t) ∧
  (∀ t, Unicode.markup_free t → Unicode.tidy U t = true →
        normalize t = Unicode.lower U t) ∧
  (Unicode.latin1 U →
   ∀ s, normalize_text s = Unicode.decode (normalize (Unicode.encode s))) ∧
  (∀ s, normalize_text (normalize_text s) = normalize_text s) ∧
  normalize_text " **Hello**  world " = normalize_text "hello world" ∧
  normalize_text " **Hello**  world " = "hello world".
Proof.
  intros HU. cbv zeta.
  split; [first [exact (UnicodeFacts.uni_normalize_idem U HU)|exact (UnicodeFacts.uni_normalize_idem U)]|].
  split; [first [exact (UnicodeFacts.uni_normalize_markup U HU)|exact (UnicodeFacts.uni_normalize_markup U)]|].
  split; [first [exact (UnicodeFacts.uni_normalize_run U HU)|exact (UnicodeFacts.uni_normalize_run U)]|].
  split; [first [exact (UnicodeFacts.uni_normalize_trim U HU)|exact (UnicodeFacts.uni_normalize_trim U)]|].
  split; [first [exact (UnicodeFacts.uni_normalize_normal U HU)|exact (UnicodeFacts.uni_normalize_normal U)]|].
  split; [first [exact (UnicodeFacts.uni_normalize_clean U HU)|exact (UnicodeFacts.uni_normalize_clean U)]|].
  split; [exact (UnicodeFacts.uni_latin1_agrees U)|].
  split; [|split; reflexivity].
  intros s. unfold normalize_text.
  rewrite list_ascii_of_string_of_list_ascii.
  rewrite TextFacts.normalize_chars_idem. reflexivity.
Qed.

(** An instance: a capital I with a dot, two spaces, an asterisk and a
    capital sigma, on the sample data. *)
Lemma normalize_text_idempotent_witness :
  let t := [304; 32; 32; 42; 931]%N in
  Unicode.normalize Cases.unicode t = [105; 775; 32; 963]%N ∧
  Unicode.normalize Cases.unicode (Unicode.normalize Cases.unicode t)
  = Unicode.normalize Cases.unicode t.
Proof.
  cbv zeta. split; [vm_compute; reflexivity|].
  exact (proj1 (normalize_text_idempotent Cases.unicode
                  UnicodeFacts.uni_sample_lawful) [304; 32; 32; 42; 931]%N).
Defined.

(** ** Sorting *)

Section Sorting.

Context {A : Type} (key : A → string).

Lemma ltb_false_leb s1 s2 : String.ltb s1 s2 = false → String.leb s2 s1 = true.
Proof.
  unfold String.ltb, String.leb. rewrite (String.compare_antisym s2 s1).
  destruct (String.compare s1 s2); simpl; congruence.
Qed.

Lemma ltb_true_leb s1 s2 : String.ltb s1 s2 = true → String.leb s1 s2 = true.
Proof.
  unfold String.ltb, String.leb. destruct (String.compare s1 s2); congruence.
Qed.

Lemma ltb_leb_absurd s1 s2 :
  String.ltb s1 s2 = true → String.leb s2 s1 = true → False.
Proof.
  unfold String.ltb, String.leb. rewrite (String.compare_antisym s2 s1).
  destruct (String.compare s1 s2); simpl; congruence.
Qed.

Lemma leb_trans s1 s2 s3 :
  String.leb s1 s2 = true → String.leb s2 s3 = true → String.leb s1 s3 = true.
Proof.
  intros H1 H2. apply Is_true_true.
  apply (transitivity (R := String.le) (y := s2)); apply Is_true_true; assumption.
Qed.

Lemma insert_by_key_perm x l : insert_by_key key x l ≡ₚ x :: l.
Proof.
  induction l as [|y t IH]; simpl; [reflexivity|].
  destruct (String.ltb (key y) (key x)); [|reflexivity].
  rewrite IH. apply Permutation_swap.
Qed.

Lemma py_sorted_perm l : py_sorted key l ≡ₚ l.
Proof.
  induction l as [|x t IH]; simpl; [reflexivity|].
  rewrite insert_by_key_perm, IH. reflexivity.
Qed.

Lemma insert_by_key_sorted x l :
  StronglySorted (key_le key) l →
  StronglySorted (key_le key) (insert_by_key key x l).
Proof.
  induction 1 as [|y t Ht IH Hy]; simpl.
  - repeat constructor.
  - destruct (String.ltb (key y) (key x)) eqn:E.
    + constructor; [exact IH|].
      rewrite insert_by_key_perm. constructor; [|exact Hy].
      apply ltb_true_leb, E.
    + apply ltb_false_leb in E.
      constructor; [constructor; assumption|].
      constructor; [exact E|].
      eapply Forall_impl; [exact Hy|].
      intros z Hz. unfold key_le in *. eapply leb_trans; eassumption.
Qed.

Lemma py_sorted_sorted l : StronglySorted (key_le key) (py_sorted key l).
Proof.
  induction l as [|x t IH]; simpl; [constructor|].
  apply insert_by_key_sorted, IH.
Qed.

Lemma ltb_irrefl s : String.ltb s s = false.
Proof.
  destruct (String.ltb s s) eqn:E; [|reflexivity].
  exfalso. eapply ltb_leb_absurd; [exact E|]. apply ltb_true_leb, E.
Qed.

(** The sort is stable: elements with one key keep their order. *)
Lemma insert_by_key_stable k x l :
  filter (λ y, key y = k) (insert_by_key key x l)
  = filter (λ y, key y = k) (x :: l).
Proof.
  induction l as [|y t IH]; [reflexivity|].
  cbn [insert_by_key]. destruct (String.ltb (key y) (key x)) eqn:E;
    [|reflexivity].
  rewrite (filter_cons _ y), IH, !filter_cons.
  destruct (decide (key y = k)) as [Hy|Hy]; [|reflexivity].
  destruct (decide (key x = k)) as [Hx|Hx]; [|reflexivity].
  exfalso. rewrite Hy, Hx, ltb_irrefl in E. discriminate.
Qed.

Lemma py_sorted_stable k l :
  filter (λ y, key y = k) (py_sorted key l) = filter (λ y, key y = k) l.
Proof.
  induction l as [|x t IH]; [reflexivity|].
  cbn [py_sorted]. rewrite insert_by_key_stable, !filter_cons, IH.
  reflexivity.
Qed.

End Sorting.

(** String order and numeric order of timestamps in one format. *)
Lemma is_digit_bounds a :
  is_digit a = true → (48 ≤ N_of_ascii a ∧ N_of_ascii a ≤ 57)%N.
Proof.
  unfold is_digit. intros H. apply andb_true_iff in H as [H1 H2].
  apply N.leb_le in H1, H2. split; assumption.
Qed.

Lemma digits_number_lt s1 s2 acc1 acc2 :
  same_format s1 s2 = true → (acc1 < acc2)%N →
  (digits_number s1 acc1 < digits_number s2 acc2)%N.
Proof.
  revert s2 acc1 acc2.
  induction s1 as [|a s1 IH]; intros [|b s2] acc1 acc2; try discriminate.
  - intros _ H. exact H.
  - cbn [same_format digits_number]. intros Hf Hlt.
    apply andb_true_iff in Hf as [Hab Hf]. apply IH; [exact Hf|].
    destruct (is_digit a) eqn:Ha.
    + rewrite Hab. apply is_digit_bounds in Ha, Hab. lia.
    + apply Ascii.eqb_eq in Hab as <-. rewrite Ha. exact Hlt.
Qed.

Lemma same_format_sym s1 s2 : same_format s1 s2 = true → same_format s2 s1 = true.
Proof.
  revert s2. induction s1 as [|a s1 IH]; intros [|b s2]; try discriminate.
  - reflexivity.
  - cbn [same_format]. intros Hf. apply andb_true_iff in Hf as [Hab Hf].
    rewrite (IH _ Hf), andb_true_r.
    destruct (is_digit a) eqn:Ha.
    + rewrite Hab. reflexivity.
    + apply Ascii.eqb_eq in Hab as <-. rewrite Ha. apply Ascii.eqb_refl.
Qed.

Lemma compare_digits_number s1 s2 acc :
  same_format s1 s2 = true →
  String.compare s1 s2
  = N.compare (digits_number s1 acc) (digits_number s2 acc).
Proof.
  revert s2 acc.
  induction s1 as [|a s1 IH]; intros [|b s2] acc; try discriminate.
  - intros _. simpl. symmetry. apply N.compare_refl.
  - cbn [same_format String.compare digits_number]. intros Hf.
    apply andb_true_iff in Hf as [Hab Hf].
    destruct (is_digit a) eqn:Ha.
    + rewrite Hab. unfold Ascii.compare.
      destruct (N.compare_spec (N_of_ascii a) (N_of_ascii b)) as [He|Hl|Hg].
      * rewrite He. apply IH, Hf.
      * symmetry. apply N.compare_lt_iff.
        apply digits_number_lt; [exact Hf|].
        apply is_digit_bounds in Ha, Hab. lia.
      * symmetry. apply N.compare_gt_iff.
        apply digits_number_lt; [apply same_format_sym, Hf|].
        apply is_digit_bounds in Ha, Hab. lia.
    + apply Ascii.eqb_eq in Hab as <-. rewrite Ha.
      unfold Ascii.compare. rewrite N.compare_refl. apply IH, Hf.
Qed.

Lemma ltb_same_format s1 s2 :
  same_format s1 s2 = true →
  String.ltb s1 s2 = true ↔ (digits_number s1 0 < digits_number s2 0)%N.
Proof.
  intros Hf. unfold String.ltb.
  rewrite (compare_digits_number s1 s2 0%N Hf), <- N.compare_lt_iff.
  destruct (N.compare _ _); split; congruence.
Qed.

Section Ordering.

Context {A : Type} (key : A → string).

(** An element with a smaller key comes first, wherever both stood. *)
Lemma py_sorted_order l a b :
  a ∈ l → b ∈ l → String.ltb (key a) (key b) = true →
  ∃ s1 s2 s3, py_sorted key l = s1 ++ a :: s2 ++ b :: s3.
Proof.
  intros Ha Hb Hlt.
  pose proof (py_sorted_sorted key l) as Hs.
  rewrite <- (py_sorted_perm key l) in Ha, Hb.
  destruct (list_elem_of_split _ _ Ha) as (s1 & r & Heq).
  rewrite Heq in Hb, Hs.
  apply elem_of_app in Hb as [Hb|Hb].
  - exfalso. apply StronglySorted_app in Hs as (Hall & _ & _).
    specialize (Hall b a Hb). unfold key_le in Hall.
    eapply ltb_leb_absurd; [exact Hlt|]. apply Hall. left.
  - apply elem_of_cons in Hb as [->|Hb].
    + exfalso. eapply ltb_leb_absurd; [exact Hlt|]. apply ltb_true_leb, Hlt.
    + destruct (list_elem_of_split _ _ Hb) as (s2 & s3 & ->).
      exists s1, s2, s3. exact Heq.
Qed.

(** The later element is never placed before the earlier one. *)
Lemma py_sorted_never_before l a b s1 s2 :
  String.ltb (key a) (key b) = true →
  py_sorted key l = s1 ++ a :: s2 → b ∉ s1.
Proof.
  intros Hlt Heq Hb.
  pose proof (py_sorted_sorted key l) as Hs. rewrite Heq in Hs.
  apply StronglySorted_app in Hs as (Hall & _ & _).
  eapply ltb_leb_absurd; [exact Hlt|]. apply (Hall b a Hb). left.
Qed.

End Ordering.

(** ** The effect monad *)

Section Effects.

Context {A B : Type}.

Lemma bind_unfold (m : M A) (f : A → M B) st :
  (m ≫= f) st =
  match m st with
  | (Ok a, st') => f a st'
  | (Raise e, st') => (Raise e, st')
  | (Diverge, st') => (Diverge, st')
  end.
Proof. reflexivity. Qed.

Lemma bind_Ok_inv (m : M A) (f : A → M B) st b st' :
  (m ≫= f) st = (Ok b, st') →
  ∃ a st1, m st = (Ok a, st1) ∧ f a st1 = (Ok b, st').
Proof.
  rewrite bind_unfold. destruct (m st) as [[a|e|] st1]; [|discriminate..].
  intros H. exists a, st1. split; [reflexivity|exact H].
Qed.

Lemma net_only_ret (a : A) : net_only (mret a : M A).
Proof.
  intros st r st' [= <- <-]. repeat split. exists []. symmetry. apply app_nil_r.
Qed.

Lemma net_only_diverge : net_only (diverge : M A).
Proof.
  intros st r st' [= <- <-]. repeat split. exists []. symmetry. apply app_nil_r.
Qed.

Lemma net_only_raise (e : exn) : net_only (raise e : M A).
Proof.
  intros st r st' [= <- <-]. repeat split. exists []. symmetry. apply app_nil_r.
Qed.

Lemma net_only_send (oracle : list request → answer A) req :
  net_only (send oracle req).
Proof.
  intros st r st'. unfold send.
  destruct (oracle (trace st ++ [req])); intros [= <- <-]; simpl;
    repeat split; exists [req]; reflexivity.
Qed.

Lemma net_only_bind (m : M A) (f : A → M B) :
  net_only m → (∀ a, net_only (f a)) → net_only (m ≫= f).
Proof.
  intros Hm Hf st r st'. rewrite bind_unfold.
  destruct (m st) as [[a|e|] st1] eqn:E;
    destruct (Hm _ _ _ E) as (H1 & H2 & H3 & new1 & H4).
  - intros E2. destruct (Hf _ _ _ _ E2) as (G1 & G2 & G3 & new2 & G4).
    repeat split; try congruence.
    exists (new1 ++ new2). rewrite G4, H4. symmetry. apply app_assoc.
  - intros [= <- <-]. repeat split; try assumption. exists new1. exact H4.
  - intros [= <- <-]. repeat split; try assumption. exists new1. exact H4.
Qed.

End Effects.

Lemma net_only_get_trace : net_only get_trace.
Proof.
  intros st r st' [= <- <-]. repeat split. exists []. symmetry. apply app_nil_r.
Qed.

Lemma net_only_for_each {A S} (body : A → S → M S) l acc :
  (∀ x a, net_only (body x a)) → net_only (for_each body l acc).
Proof.
  intros Hb. revert acc. induction l as [|x t IH]; intros acc; simpl.
  - apply net_only_ret.
  - apply net_only_bind; [apply Hb|]. intros a. apply IH.
Qed.

Lemma for_each_app {A S} (body : A → S → M S) l1 l2 acc st :
  for_each body (l1 ++ l2) acc st =
  (for_each body l1 acc ≫= for_each body l2) st.
Proof.
  revert acc st. induction l1 as [|x t IH]; intros acc st; simpl.
  - reflexivity.
  - rewrite !bind_unfold. destruct (body x acc st) as [[a|e|] st1]; [|reflexivity..].
    apply IH.
Qed.

Ltac net_step :=
  first [ apply net_only_ret | apply net_only_diverge | apply net_only_raise
        | apply net_only_send
        | apply net_only_get_trace
        | apply net_only_bind; [|intros ?]
        | apply net_only_for_each; intros ? ? ].

(** ** Chunks *)

Lemma concat_chunks_upto {A} (n m : nat) (l : list A) :
  (length l ≤ m * n)%nat →
  concat (map (λ k, take n (drop (k * n) l)) (seq 0 m)) = l.
Proof.
  revert l. induction m as [|m IH]; intros l Hl.
  - destruct l; [reflexivity|simpl in Hl; lia].
  - rewrite <- cons_seq, <- fmap_S_seq. simpl.
    transitivity (take n l ++ drop n l); [|apply take_drop].
    f_equal. etransitivity; [|apply (IH (drop n l))].
    + f_equal. rewrite <- list_fmap_compose. apply map_ext. intros k. simpl.
      rewrite drop_drop. reflexivity.
    + rewrite length_drop. simpl in Hl. lia.
Qed.

Lemma concat_py_chunks {A} (n : nat) (l : list A) :
  (0 < n)%nat → concat (py_chunks n l) = l.
Proof.
  intros Hn. unfold py_chunks, py_range. rewrite map_map.
  apply concat_chunks_upto.
  pose proof (Nat.div_mod (length l + n - 1) n ltac:(lia)) as Hd.
  pose proof (Nat.mod_upper_bound (length l + n - 1) n ltac:(lia)) as Hm.
  nia.
Qed.

Lemma py_chunks_nil {A} (n : nat) : (0 < n)%nat → py_chunks n (@nil A) = [].
Proof.
  intros Hn. unfold py_chunks, py_range. simpl.
  rewrite Nat.div_small by lia. reflexivity.
Qed.

Lemma py_chunks_small {A} (n : nat) (l : list A) :
  Forall (λ c, (length c ≤ n)%nat) (py_chunks n l).
Proof.
  unfold py_chunks. rewrite Forall_map. apply Forall_forall. intros i _.
  simpl. rewrite length_take. lia.
Qed.

Lemma py_chunks_nonempty {A} (n : nat) (l : list A) :
  (0 < n)%nat → Forall (λ c, c ≠ []) (py_chunks n l).
Proof.
  intros Hn. unfold py_chunks, py_range. rewrite !Forall_map.
  apply Forall_forall. intros k Hk. apply elem_of_seq in Hk as [_ Hk].
  simpl in Hk |- *.
  pose proof (Nat.Div0.mul_div_le (length l + n - 1) n) as Hd.
  assert (Hlt : (k * n < length l)%nat) by nia.
  intros Hnil. apply (f_equal length) in Hnil.
  rewrite length_take, length_drop in Hnil. simpl in Hnil. lia.
Qed.

Lemma flat_map_all_nil {A B} (f : A → list B) l :
  (∀ x, x ∈ l → f x = []) → flat_map f l = [].
Proof.
  induction l as [|x t IH]; intros H; [reflexivity|].
  cbn [flat_map]. rewrite (H x) by left. apply IH.
  intros y Hy. apply H. right. exact Hy.
Qed.

(** ** Building the blocks *)

Lemma block_step_fold E l acc :
  foldl (block_step E) acc l =
  {| blocks := blocks acc ++ flat_map (blocks_for E) l;
     new_count := new_count acc
       + length (filter (λ h, fingerprint (highlight_text h) ∉ E) l);
     dup_count := dup_count acc
       + length (filter (λ h, fingerprint (highlight_text h) ∈ E) l) |}.
Proof.
  revert acc. induction l as [|h t IH]; intros acc.
  - destruct acc. simpl. rewrite app_nil_r, !Nat.add_0_r. reflexivity.
  - cbn [foldl]. rewrite IH. clear IH.
    rewrite !filter_cons. cbn [flat_map].
    unfold block_step, blocks_for.
    unfold highlight_blocks.
    destruct (decide (fingerprint (highlight_text h) ∈ E)) as [Hin|Hnin];
      repeat case_decide; try tauto;
      destruct (truthy (h_note h)); cbn; f_equal;
      rewrite <- ?app_assoc; try reflexivity; lia.
Qed.

Lemma build_blocks_blocks E l :
  blocks (build_blocks E l) = flat_map (blocks_for E) l.
Proof. unfold build_blocks. rewrite block_step_fold. reflexivity. Qed.

Lemma build_blocks_new_count E l :
  new_count (build_blocks E l)
  = length (filter (λ h, fingerprint (highlight_text h) ∉ E) l).
Proof. unfold build_blocks. rewrite block_step_fold. reflexivity. Qed.

Lemma no_new_blocks E l :
  new_count (build_blocks E l) = 0 ↔ flat_map (blocks_for E) l = [].
Proof.
  rewrite build_blocks_new_count.
  induction l as [|h t IH]; [simpl; tauto|].
  rewrite filter_cons. cbn [flat_map]. unfold blocks_for at 1.
  destruct (decide (fingerprint (highlight_text h) ∈ E)) as [Hin|Hnin];
    repeat case_decide; try tauto.
  simpl. split; discriminate.
Qed.

Lemma quote_block_content t :
  block_content "quote" (quote_block t) = Some (str_take 2000 t).
Proof. reflexivity. Qed.

Lemma callout_block_content t :
  block_content "callout" (callout_block t)
  = Some ("Note: " +:+ str_take 2000 t).
Proof. reflexivity. Qed.

Lemma length_string_of_list_ascii l :
  String.length (string_of_list_ascii l) = length l.
Proof. induction l as [|a t IH]; simpl; [reflexivity|]. rewrite IH. reflexivity. Qed.

Lemma str_take_length n t : (String.length (str_take n t) ≤ n)%nat.
Proof.
  unfold str_take. rewrite length_string_of_list_ascii, length_take. lia.
Qed.

(** ** Requests of the methods *)

Section Methods.

Context (cfg : Config) (w : World).

Lemma net_only_get_existing_loop fuel url E has_more cursor :
  net_only (get_existing_page_content_loop w fuel url E has_more cursor).
Proof.
  revert E has_more cursor.
  induction fuel as [|fuel IH]; intros E has_more cursor; simpl;
    destruct has_more; repeat net_step. apply IH.
Qed.

Lemma net_only_get_existing fuel page_id :
  net_only (get_existing_page_content w fuel page_id).
Proof. apply net_only_get_existing_loop. Qed.

Lemma net_only_sorted highlights : net_only (sorted_highlights w highlights).
Proof. unfold sorted_highlights. destruct (unorderable _); net_step. Qed.

Lemma net_only_append fuel page_id highlights :
  net_only (append_highlights_to_page w fuel page_id highlights).
Proof.
  unfold append_highlights_to_page. net_step; [apply net_only_sorted|].
  net_step; [apply net_only_get_existing|].
  destruct (Nat.eqb _ 0); repeat net_step.
Qed.

Lemma net_only_get_highlights book_id after :
  net_only (get_highlights_for_book w book_id after).
Proof. unfold get_highlights_for_book. net_step. Qed.

Lemma net_only_update page_id book : net_only (update_notion_page w page_id book).
Proof. unfold update_notion_page. repeat net_step. Qed.

Lemma net_only_create book : net_only (create_notion_page cfg w book).
Proof. unfold create_notion_page. repeat net_step. Qed.

Lemma net_only_books_loop fuel url params all_books :
  net_only (get_readwise_books_loop w fuel url params all_books).
Proof.
  revert url params all_books.
  induction fuel as [|fuel IH]; intros url params all_books; simpl;
    destruct (truthy url); repeat net_step. apply IH.
Qed.

Lemma net_only_books fuel after : net_only (get_readwise_books w fuel after).
Proof.
  unfold get_readwise_books. net_step; [apply net_only_books_loop|].
  destruct (_ && _); [|net_step].
  destruct (Nat.ltb _ _); net_step.
Qed.

Lemma net_only_batch_search titles :
  net_only (batch_search_notion_pages cfg w titles).
Proof.
  unfold batch_search_notion_pages. destruct titles; repeat net_step.
Qed.

Lemma net_only_item fuel self pages book acc :
  net_only (full_sync_item cfg w fuel self pages book acc).
Proof.
  unfold full_sync_item. destruct (pages !! title_of book).
  - net_step; [apply net_only_update|].
    destruct (get_or _ _); [|net_step].
    destruct (Z.ltb _ _); [|net_step].
    net_step; [apply net_only_get_highlights|].
    destruct a0; [net_step|]. net_step; [apply net_only_append|net_step].
  - destruct (decide _); [net_step|].
    net_step; [apply net_only_create|].
    destruct (Z.ltb _ _); [|net_step].
    net_step; [apply net_only_get_highlights|].
    net_step; [apply net_only_append|net_step].
Qed.

Lemma add_fingerprint_fold E0 bs x :
  x ∈ foldl add_fingerprint E0 bs ↔ x ∈ E0 ∨ quoted_in bs x.
Proof.
  unfold quoted_in. revert E0. induction bs as [|b t IH]; intros E0.
  - simpl. rewrite Exists_nil. tauto.
  - cbn [foldl]. rewrite IH, Exists_cons. unfold add_fingerprint.
    destruct (decide (blk_type b = Some "quote")) as [Hq|Hq]; [|tauto].
    cbv zeta. destruct (String.eqb_spec (quote_text b) "") as [He|He];
      [tauto|].
    rewrite elem_of_union, elem_of_singleton. intuition congruence.
Qed.

Lemma quoted_in_fingerprints bs x :
  x ∈ foldl add_fingerprint ∅ bs ↔ quoted_in bs x.
Proof.
  rewrite add_fingerprint_fold. split; [|auto].
  intros [H|H]; [|exact H]. exfalso. exact (not_elem_of_empty x H).
Qed.

(** The requests of the loop that sends the chunks: a prefix of the
    chunks, all of them when the loop ends normally. *)
Lemma send_chunks_run page_id chunks st :
  let r := for_each
             (λ chunk (_ : unit),
                send (w_append w) (patch_children page_id chunk)) chunks () st in
  ∃ k, (k ≤ length chunks)%nat ∧
       trace (snd r) = trace st ++ map (patch_children page_id) (take k chunks) ∧
       (fst r = Ok () → k = length chunks).
Proof.
  cbv zeta. revert st. induction chunks as [|c t IH]; intros st.
  - exists 0%nat. simpl. rewrite app_nil_r. auto.
  - cbn [for_each]. rewrite bind_unfold.
    replace (send (w_append w) (patch_children page_id c) st) with
      (match w_append w (trace st ++ [patch_children page_id c]) with
       | Answer a => (Ok a, with_trace (trace st ++ [patch_children page_id c]) st)
       | Fails e => (Raise e, with_trace (trace st ++ [patch_children page_id c]) st)
       end) by reflexivity.
    destruct (w_append w (trace st ++ [patch_children page_id c])) as [[]|e].
    + destruct (IH (with_trace (trace st ++ [patch_children page_id c]) st))
        as (k & Hk & Htr & Hok).
      exists (S k). split; [simpl; lia|]. split.
      * rewrite Htr. simpl. rewrite <- app_assoc. reflexivity.
      * intros H. simpl. f_equal. apply Hok, H.
    + exists 1%nat. split; [simpl; lia|]. split; [|discriminate].
      simpl. try rewrite take_0. reflexivity.
Qed.

End Methods.

(** ** Appending highlights *)

Lemma blocks_for_fresh E l :
  flat_map (blocks_for E) l
  = flat_map highlight_blocks
      (filter (λ h, fingerprint (highlight_text h) ∉ E) l).
Proof.
  induction l as [|h t IH]; [reflexivity|].
  rewrite filter_cons. cbn [flat_map]. unfold blocks_for at 1.
  destruct (decide (fingerprint (highlight_text h) ∈ E));
    repeat case_decide; try tauto; cbn [flat_map app]; rewrite IH; reflexivity.
Qed.

Lemma blocks_on_fresh page_blocks l :
  flat_map (blocks_on page_blocks) l
  = flat_map highlight_blocks (filter (λ h, ¬ on_page page_blocks h) l).
Proof.
  induction l as [|h t IH]; [reflexivity|].
  rewrite filter_cons. cbn [flat_map]. unfold blocks_on at 1.
  destruct (decide (on_page page_blocks h));
    repeat case_decide; try tauto; cbn [flat_map app]; rewrite IH; reflexivity.
Qed.

(** The blocks decided by the set read from the page are those decided
    by the blocks of the page. *)
Lemma blocks_on_fingerprints page_blocks h :
  blocks_for (foldl add_fingerprint ∅ page_blocks) h = blocks_on page_blocks h.
Proof.
  unfold blocks_for, blocks_on, on_page.
  destruct (decide (_ ∈ _)) as [H|H];
    destruct (decide (quoted_in _ _)) as [Q|Q]; try reflexivity; exfalso.
  - apply Q, quoted_in_fingerprints, H.
  - apply H, quoted_in_fingerprints, Q.
Qed.

Section Appending.

Context (w : World).

Lemma sorted_highlights_run highlights st :
  sorted_highlights w highlights st
  = if unorderable (map sort_key highlights)
    then (Raise (TypeError (w_unorderable w (map sort_key highlights))), st)
    else (Ok (py_sorted highlighted_at highlights), st).
Proof. unfold sorted_highlights. destruct (unorderable _); reflexivity. Qed.

(** A call on keys that cannot be ordered raises before any request. *)
Lemma append_unorderable fuel page_id highlights st :
  unorderable (map sort_key highlights) = true →
  append_highlights_to_page w fuel page_id highlights st
  = (Raise (TypeError (w_unorderable w (map sort_key highlights))), st).
Proof.
  intros H. unfold append_highlights_to_page.
  rewrite bind_unfold, sorted_highlights_run, H. reflexivity.
Qed.

(** The loop of [get_existing_page_content] follows the listing of the
    service to its end, given fuel for each answer. *)
Lemma listing_complete url tr cursor page_blocks tr' n :
  listing w url tr cursor page_blocks tr' n →
  ∀ fuel E0 st, (n ≤ fuel)%nat → trace st = tr →
    get_existing_page_content_loop w fuel url E0 true cursor st
    = (Ok (foldl add_fingerprint E0 page_blocks), with_trace tr' st).
Proof.
  induction 1 as [tr cursor a Ha Hm|tr cursor a bs tr' n Ha Hm Hl IH];
    intros fuel E0 st Hn Htr;
    (destruct fuel as [|fuel]; [lia|]);
    cbn [get_existing_page_content_loop]; rewrite bind_unfold;
    unfold send; fold (cursor_params cursor); rewrite Htr, Ha, Hm.
  - destruct fuel; reflexivity.
  - rewrite (IH fuel _ (with_trace (tr ++ [GET url (cursor_params cursor)]) st))
      by (try reflexivity; lia).
    rewrite foldl_app. reflexivity.
Qed.

(** What the loop returns was listed by the service. *)
Lemma listing_sound fuel url E0 cursor st E st' :
  get_existing_page_content_loop w fuel url E0 true cursor st = (Ok E, st') →
  ∃ page_blocks n,
    listing w url (trace st) cursor page_blocks (trace st') n ∧
    (n ≤ fuel)%nat ∧
    E = foldl add_fingerprint E0 page_blocks ∧
    st' = with_trace (trace st') st.
Proof.
  revert E0 cursor st.
  induction fuel as [|fuel IH]; intros E0 cursor st;
    cbn [get_existing_page_content_loop]; [discriminate|].
  intros H. apply bind_Ok_inv in H as (data & s1 & Hsend & Hloop).
  unfold send in Hsend. fold (cursor_params cursor) in Hsend.
  destruct (w_children w _) as [a|e] eqn:Ha; [|discriminate].
  injection Hsend as <- <-.
  destruct (default false (cp_has_more a)) eqn:Hm.
  - apply IH in Hloop as (bs & n & Hl & Hn & -> & Hst).
    exists (cp_results a ++ bs), (S n).
    split; [eapply listing_more; eassumption|].
    split; [lia|]. split; [symmetry; apply foldl_app|].
    rewrite Hst at 1. reflexivity.
  - assert (Hret : (Ok E, st')
                   = (Ok (foldl add_fingerprint E0 (cp_results a)),
                      with_trace (trace st ++ [GET url (cursor_params cursor)])
                        st))
      by (rewrite <- Hloop; destruct fuel; reflexivity).
    injection Hret as -> ->.
    exists (cp_results a), 1%nat.
    split; [apply listing_last; assumption|].
    split; [lia|]. split; reflexivity.
Qed.

(** The requests of a listing go to the address of the listing. *)
Lemma listing_requests url tr cursor page_blocks tr' n :
  listing w url tr cursor page_blocks tr' n →
  ∃ reads, tr' = tr ++ reads ∧ length reads = n ∧
           Forall (λ req, ∃ c, req = GET url (cursor_params c)) reads ∧
           head reads = Some (GET url (cursor_params cursor)).
Proof.
  induction 1 as [tr cursor a Ha Hm|tr cursor a bs tr' n Ha Hm Hl IH].
  - exists [GET url (cursor_params cursor)].
    split; [reflexivity|]. split; [reflexivity|]. split; [|reflexivity].
    repeat constructor. eexists. reflexivity.
  - destruct IH as (reads & -> & Hlen & Hall & _).
    exists (GET url (cursor_params cursor) :: reads).
    rewrite <- app_assoc. split; [reflexivity|].
    split; [simpl; lia|]. split; [|reflexivity].
    constructor; [eexists; reflexivity|exact Hall].
Qed.

(** The loop that sends the chunks, when the service accepts them. *)
Lemma send_chunks_all page_id chunks st :
  (∀ tr, w_append w tr = Answer ()) →
  for_each (λ chunk (_ : unit),
              send (w_append w) (patch_children page_id chunk)) chunks () st
  = (Ok (), with_trace (trace st ++ map (patch_children page_id) chunks) st).
Proof.
  intros Hacc. revert st. induction chunks as [|c t IH]; intros st.
  - simpl. rewrite app_nil_r. destruct st. reflexivity.
  - cbn [for_each]. rewrite bind_unfold. unfold send at 1. rewrite Hacc.
    rewrite IH. cbn [trace with_trace map]. rewrite <- app_assoc.
    reflexivity.
Qed.

(** What one call of [append_highlights_to_page] sends once it has read
    the fingerprints [E] of the page. *)
Lemma append_run fuel page_id highlights st E st1 :
  unorderable (map sort_key highlights) = false →
  get_existing_page_content w fuel page_id st = (Ok E, st1) →
  let new_blocks :=
    blocks (build_blocks E (py_sorted highlighted_at highlights)) in
  let r := append_highlights_to_page w fuel page_id highlights st in
  (∃ k, trace (snd r)
        = trace st1
          ++ map (patch_children page_id) (take k (py_chunks 100 new_blocks)) ∧
        (fst r = Ok () → k = length (py_chunks 100 new_blocks))) ∧
  (new_blocks = [] → r = (Ok (), st1)).
Proof.
  intros Hord Hget. cbv zeta. unfold append_highlights_to_page.
  rewrite bind_unfold, sorted_highlights_run, Hord.
  rewrite bind_unfold, Hget.
  destruct (Nat.eqb _ 0) eqn:Hz.
  - apply Nat.eqb_eq in Hz. pose proof Hz as Hnil.
    rewrite no_new_blocks, <- build_blocks_blocks in Hnil.
    rewrite Hnil. split; [|reflexivity].
    rewrite (py_chunks_nil (A := json) 100) by lia.
    exists 0%nat. simpl. rewrite app_nil_r. split; reflexivity.
  - split.
    { destruct (send_chunks_run w page_id
                  (py_chunks 100
                     (blocks (build_blocks E (py_sorted highlighted_at highlights))))
                  st1) as (k & _ & Htr & Hok).
      exists k. split; [exact Htr|exact Hok]. }
    intros Hnil. apply Nat.eqb_neq in Hz. exfalso. apply Hz.
    rewrite no_new_blocks, <- build_blocks_blocks. exact Hnil.
Qed.

(** The whole call, when the keys can be ordered, the service lists the
    page and accepts the appends, and there is fuel for the listing. *)
Lemma append_total fuel page_id highlights st page_blocks tr1 n :
  unorderable (map sort_key highlights) = false →
  listing w (children_url page_id) (trace st) None page_blocks tr1 n →
  (n ≤ fuel)%nat →
  (∀ tr, w_append w tr = Answer ()) →
  let new_blocks :=
    flat_map (blocks_on page_blocks) (py_sorted highlighted_at highlights) in
  append_highlights_to_page w fuel page_id highlights st
  = (Ok (),
     with_trace
       (tr1 ++ map (patch_children page_id) (py_chunks 100 new_blocks)) st).
Proof.
  intros Hord Hl Hn Hacc. cbv zeta. unfold append_highlights_to_page.
  rewrite bind_unfold, sorted_highlights_run, Hord.
  rewrite bind_unfold. unfold get_existing_page_content.
  fold (children_url page_id).
  rewrite (listing_complete _ _ _ _ _ _ Hl fuel ∅ st Hn eq_refl).
  rewrite build_blocks_blocks.
  rewrite (flat_map_ext _ _ (blocks_on_fingerprints page_blocks)).
  destruct (Nat.eqb _ 0) eqn:Hz.
  - apply Nat.eqb_eq in Hz. rewrite no_new_blocks in Hz.
    rewrite (flat_map_ext _ _ (blocks_on_fingerprints page_blocks)) in Hz.
    rewrite Hz, (py_chunks_nil (A := json) 100) by lia.
    simpl. rewrite app_nil_r. reflexivity.
  - exact (send_chunks_all page_id _ (with_trace tr1 st) Hacc).
Qed.

End Appending.







Lemma two_positions_perm {A} (l1 l2 l3 s : list A) (h1 h2 : A) :
  l1 ++ h1 :: l2 ++ h2 :: l3 ≡ₚ s →
  ∃ x y s1 s2 s3,
    ((x = h1 ∧ y = h2) ∨ (x = h2 ∧ y = h1)) ∧ s = s1 ++ x :: s2 ++ y :: s3.
Proof.
  intros Hp.
  assert (Hin : h1 ∈ s).
  { rewrite <- Hp. apply elem_of_app. right. left. }
  destruct (list_elem_of_split _ _ Hin) as (a & c & ->).
  apply Permutation_app_inv in Hp.
  assert (Hin2 : h2 ∈ a ++ c).
  { rewrite <- Hp. apply elem_of_app. right. apply elem_of_app. right. left. }
  apply elem_of_app in Hin2 as [Hin2|Hin2];
    destruct (list_elem_of_split _ _ Hin2) as (u & v & ->).
  - exists h2, h1, u, v, c. split; [right; auto|].
    rewrite <- app_assoc. reflexivity.
  - exists h1, h2, a, u, v. split; [left; auto|reflexivity].
Qed.




(** ** Updating a page *)

(** C9.  [update_notion_page] sends one PATCH whose [properties] are
    [Highlights], [Last Synced] and, when the item has a last highlight
    date, [Last Highlighted]; besides [properties] the payload holds only
    [cover] and [icon], when the item has a cover.  [Title], [Author] and
    [Category] are not in it. *)
Theorem update_notion_page_patch w page_id book st :
  let r := update_notion_page w page_id book st in
  ∃ props extra,
    trace (snd r)
    = trace st ++ [PATCH (NOTION_API_BASE +:+ "/pages/" +:+ page_id)
                     (JObj (("properties", JObj props) :: extra))] ∧
    dict_keys props
    = ["Highlights"; "Last Synced"]
      ++ (if truthy (b_last_highlight_at book) then ["Last Highlighted"]
          else []) ∧
    dict_keys extra
    = (if truthy (b_cover_image_url book) then ["cover"; "icon"] else []) ∧
    ("Title" ∉ dict_keys props) ∧ ("Author" ∉ dict_keys props) ∧
    ("Category" ∉ dict_keys props) ∧
    json_get "Highlights" (JObj props)
    = Some (JObj [("number", JNum (default 0%Z (b_num_highlights book)))]) ∧
    json_get "Last Synced" (JObj props)
    = Some (date_prop (w_utcnow w (trace st))) ∧
    last_sync_file (snd r) = last_sync_file st ∧
    synced_items_file (snd r) = synced_items_file st.
Proof.
  cbv zeta. unfold update_notion_page. rewrite bind_unfold.
  unfold get_trace, send, update_payload.
  destruct (truthy (b_last_highlight_at book)) eqn:Hl;
  destruct (truthy (b_cover_image_url book)) eqn:Hc;
  destruct (w_page w _); cbn [snd trace with_trace dict_set String.eqb
                            Ascii.eqb Bool.eqb];
  eexists _, _; (split; [reflexivity|]);
  cbn [dict_keys map fst app];
  repeat split; try reflexivity;
  rewrite ?not_elem_of_cons; repeat split; try discriminate;
  apply not_elem_of_nil.
Qed.

(** ** The loop of [full_sync] *)

Section Items.

Context (cfg : Config) (w : World).

Lemma update_notion_page_run page_id book st :
  let req := update_request (w_utcnow w (trace st)) page_id book in
  update_notion_page w page_id book st
  = match w_page w (trace st ++ [req]) with
    | Answer pg => (Ok pg, with_trace (trace st ++ [req]) st)
    | Fails e => (Raise e, with_trace (trace st ++ [req]) st)
    end.
Proof. reflexivity. Qed.

Lemma get_highlights_run book_id since st :
  let req := highlights_request book_id since in
  get_highlights_for_book w book_id since st
  = match w_highlights w (trace st ++ [req]) with
    | Answer hs => (Ok hs, with_trace (trace st ++ [req]) st)
    | Fails e => (Raise e, with_trace (trace st ++ [req]) st)
    end.
Proof.
  cbv zeta. unfold get_highlights_for_book, highlights_request.
  destruct (truthy since); reflexivity.
Qed.

(** What the UPDATE path does, step by step. *)
Lemma update_path_run fuel self pages book acc page st :
  pages !! title_of book = Some page →
  let upd := update_request (w_utcnow w (trace st)) (p_id page) book in
  let fetch := highlights_request (b_id book) (last_sync_time self) in
  let st1 := with_trace (trace st ++ [upd]) st in
  let st2 := with_trace (trace st ++ [upd; fetch]) st in
  full_sync_item cfg w fuel self pages book acc st
  = match w_page w (trace st ++ [upd]) with
    | Fails e => (Raise e, st1)
    | Answer _ =>
        match get_or 0%Z (p_highlights page) with
        | None =>
            (Raise (TypeError
               "'>' not supported between instances of 'int' and 'NoneType'"),
             st1)
        | Some recorded =>
            if (recorded <? default 0 (b_num_highlights book))%Z
            then match w_highlights w (trace st ++ [upd; fetch]) with
                 | Fails e => (Raise e, st2)
                 | Answer [] => (Ok (count_updated book acc), st2)
                 | Answer (h :: hs) =>
                     (_ ← append_highlights_to_page w fuel (p_id page) (h :: hs);
                      mret (count_updated book acc)) st2
                 end
            else (Ok (count_updated book acc), st1)
        end
    end.
Proof.
  intros Hpage. cbv zeta. unfold full_sync_item. rewrite Hpage.
  rewrite bind_unfold, update_notion_page_run. cbv zeta.
  destruct (w_page w _) as [pg|e]; [|reflexivity].
  destruct (get_or _ _) as [recorded|]; [|reflexivity].
  destruct (Z.ltb _ _); [|reflexivity].
  rewrite bind_unfold, get_highlights_run. cbv zeta.
  cbn [trace with_trace]. rewrite <- app_assoc. cbn [app].
  destruct (w_highlights w _) as [[|h hs]|e]; reflexivity.
Qed.

End Items.




(** C2.  An item without a page whose id is in the synced-id set is
    skipped: the body of the loop sends no request, writes nothing, keeps
    the list of synced ids, and the loop goes on with the items that
    follow as if the item were not there, its skip counted. *)
Theorem full_sync_skip_path cfg w fuel self pages book acc st post :
  pages !! title_of book = None →
  b_id book ∈ synced_items self →
  full_sync_item cfg w fuel self pages book acc st
  = (Ok (count_skipped acc), st) ∧
  synced_ids (count_skipped acc) = synced_ids acc ∧
  created_count (count_skipped acc) = created_count acc ∧
  updated_count (count_skipped acc) = updated_count acc ∧
  for_each (full_sync_item cfg w fuel self pages) (book :: post) acc st
  = for_each (full_sync_item cfg w fuel self pages) post (count_skipped acc) st ∧
  (∀ pre acc0 st0,
     for_each (full_sync_item cfg w fuel self pages) (pre ++ book :: post)
       acc0 st0
     = (a ← for_each (full_sync_item cfg w fuel self pages) pre acc0;
        for_each (full_sync_item cfg w fuel self pages) post (count_skipped a))
         st0).
Proof.
  intros Hnone Hin.
  assert (Hitem : ∀ a s, full_sync_item cfg w fuel self pages book a s
                         = (Ok (count_skipped a), s)).
  { intros a s. unfold full_sync_item. rewrite Hnone.
    rewrite decide_True by assumption. reflexivity. }
  split; [apply Hitem|]. do 3 (split; [reflexivity|]).
  split.
  - cbn [for_each]. rewrite bind_unfold, Hitem. reflexivity.
  - intros pre acc0 st0. rewrite for_each_app, !bind_unfold.
    destruct (for_each _ pre acc0 st0) as [[a|e|] s]; [|reflexivity..].
    cbn [for_each]. rewrite bind_unfold, Hitem. reflexivity.
Qed.

(** An instance: item 7 was synced before and its page is gone. *)
Lemma full_sync_skip_path_witness :
  Sample.pages !! title_of (Sample.book 7 "Gone" 2) = None ∧
  b_id (Sample.book 7 "Gone" 2) ∈ synced_items Sample.self0 ∧
  full_sync_item Sample.cfg Sample.busy_world 3 Sample.self0 Sample.pages
    (Sample.book 7 "Gone" 2) no_counts Sample.st0
  = (Ok (count_skipped no_counts), Sample.st0).
Proof.
  assert (H1 : Sample.pages !! title_of (Sample.book 7 "Gone" 2) = None)
    by (vm_compute; reflexivity).
  assert (H2 : b_id (Sample.book 7 "Gone" 2) ∈ synced_items Sample.self0)
    by (vm_compute; reflexivity).
  split; [exact H1|]. split; [exact H2|].
  exact (proj1 (full_sync_skip_path Sample.cfg Sample.busy_world 3 Sample.self0
                  Sample.pages (Sample.book 7 "Gone" 2) no_counts Sample.st0
                  [] H1 H2)).
Defined.

(** ** Committing the state *)

Section Commit.

Context (cfg : Config) (w : World).

(** The ids gathered by the loop are those of the items that took the
    CREATE or the UPDATE path, in order. *)
Lemma item_synced_ids fuel self pages book acc st acc' st' :
  full_sync_item cfg w fuel self pages book acc st = (Ok acc', st') →
  synced_ids acc'
  = synced_ids acc
    ++ (if decide (reaches_page self pages book) then [b_id book] else []).
Proof.
  unfold full_sync_item.
  destruct (pages !! title_of book) as [page|] eqn:Hp.
  - rewrite decide_True
      by (unfold reaches_page; rewrite Hp; left; eexists; reflexivity).
    intros H. apply bind_Ok_inv in H as (pg & s1 & _ & H).
    destruct (get_or _ _); [|discriminate].
    destruct (Z.ltb _ _).
    + apply bind_Ok_inv in H as (hs & s2 & _ & H).
      destruct hs.
      * injection H as <- _. reflexivity.
      * apply bind_Ok_inv in H as (u & s3 & _ & H).
        injection H as <- _. reflexivity.
    + injection H as <- _. reflexivity.
  - destruct (decide (b_id book ∈ synced_items self)) as [Hin|Hnin].
    + rewrite decide_False.
      * intros [= <- _]. simpl. rewrite app_nil_r. reflexivity.
      * unfold reaches_page. rewrite Hp.
        intros [[x Hx]|Hn]; [discriminate|contradiction].
    + rewrite decide_True by (right; assumption).
      intros H. apply bind_Ok_inv in H as (pg & s1 & _ & H).
      destruct (Z.ltb _ _).
      * apply bind_Ok_inv in H as (hs & s2 & _ & H).
        apply bind_Ok_inv in H as (u & s3 & _ & H).
        injection H as <- _. reflexivity.
      * injection H as <- _. reflexivity.
Qed.

Lemma loop_synced_ids fuel self pages books acc st acc' st' :
  for_each (full_sync_item cfg w fuel self pages) books acc st = (Ok acc', st') →
  synced_ids acc'
  = synced_ids acc ++ map b_id (filter (reaches_page self pages) books).
Proof.
  revert acc st. induction books as [|b t IH]; intros acc st.
  - intros [= <- _]. simpl. rewrite app_nil_r. reflexivity.
  - cbn [for_each]. intros H.
    apply bind_Ok_inv in H as (a1 & s1 & Hb & Ht).
    rewrite (IH _ _ Ht), (item_synced_ids _ _ _ _ _ _ _ _ Hb).
    rewrite filter_cons. destruct (decide (reaches_page self pages b)).
    + rewrite <- app_assoc. reflexivity.
    + rewrite app_nil_r. reflexivity.
Qed.

Lemma net_only_loop fuel self pages books acc :
  net_only (for_each (full_sync_item cfg w fuel self pages) books acc).
Proof. apply net_only_for_each. intros. apply net_only_item. Qed.

End Commit.

(** The run of [full_sync], stage by stage. *)
Lemma full_sync_run cfg w fuel self st :
  full_sync cfg w fuel self st
  = match get_readwise_books w fuel (last_sync_time self) st with
    | (Ok books, st1) =>
        if Nat.eqb (length books) 0 then (Ok self, st1)
        else
          match batch_search_notion_pages cfg w (map title_of books) st1 with
          | (Ok pages, st2) =>
              match for_each (full_sync_item cfg w fuel self pages) books
                      no_counts st2 with
              | (Ok acc, st3) =>
                  let items := synced_items self ∪ list_to_set (synced_ids acc) in
                  (Ok {| last_sync_time := last_sync_time self;
                         synced_items := items |},
                   with_last_sync_file (Some (w_utcnow w (trace st3) +:+ "Z"))
                     (with_synced_items_file (Some items) st3))
              | (Raise e, st3) => (Raise e, st3)
              | (Diverge, st3) => (Diverge, st3)
              end
          | (Raise e, st2) => (Raise e, st2)
          | (Diverge, st2) => (Diverge, st2)
          end
    | (Raise e, st1) => (Raise e, st1)
    | (Diverge, st1) => (Diverge, st1)
    end.
Proof.
  unfold full_sync. rewrite bind_unfold.
  destruct (get_readwise_books w fuel (last_sync_time self) st)
    as [[books|e|] st1]; [|reflexivity..].
  destruct (Nat.eqb (length books) 0); [reflexivity|].
  rewrite bind_unfold.
  destruct (batch_search_notion_pages cfg w (map title_of books) st1)
    as [[pages|e|] st2]; [|reflexivity..].
  rewrite bind_unfold. fold no_counts.
  destruct (for_each (full_sync_item cfg w fuel self pages) books no_counts st2)
    as [[acc|e|] st3]; reflexivity.
Qed.

(** C3.  A run of [full_sync] that does not end normally leaves both
    state files as they were.  The last sync time, when it changes, is
    written by a run that ends normally and is the time read after the
    last request of the run. *)
Theorem full_sync_commits_last cfg w fuel self st r st' :
  full_sync cfg w fuel self st = (r, st') →
  ((∀ s, r ≠ Ok s) →
     last_sync_file st' = last_sync_file st ∧
     synced_items_file st' = synced_items_file st) ∧
  (last_sync_file st' = last_sync_file st ∨
   (∃ s, r = Ok s) ∧
   last_sync_file st' = Some (w_utcnow w (trace st') +:+ "Z")).
Proof.
  rewrite full_sync_run.
  destruct (get_readwise_books w fuel (last_sync_time self) st)
    as [o1 st1] eqn:E1.
  destruct (net_only_books w fuel _ _ _ _ E1) as (L1 & S1 & _ & _).
  destruct o1 as [books|e|];
    [|intros [= <- <-]; split; [intros _; split; assumption|left; assumption]..].
  destruct (Nat.eqb (length books) 0).
  { intros [= <- <-]. split; [intros H; destruct (H self eq_refl)|].
    left. assumption. }
  destruct (batch_search_notion_pages cfg w (map title_of books) st1)
    as [o2 st2] eqn:E2.
  destruct (net_only_batch_search cfg w _ _ _ _ E2) as (L2 & S2 & _ & _).
  destruct o2 as [pages|e|];
    [|intros [= <- <-]; split;
      [intros _; split; congruence|left; congruence]..].
  destruct (for_each (full_sync_item cfg w fuel self pages) books no_counts st2)
    as [o3 st3] eqn:E3.
  destruct (net_only_loop cfg w _ _ _ _ _ _ _ _ E3) as (L3 & S3 & _ & _).
  destruct o3 as [acc|e|];
    [|intros [= <- <-]; split;
      [intros _; split; congruence|left; congruence]..].
  cbv zeta. intros [= <- <-]. split.
  - intros H. exfalso. eapply H. reflexivity.
  - right. split; [eexists; reflexivity|reflexivity].
Qed.

(** An instance: Notion refuses to create the page of the only item. *)
Lemma full_sync_commits_last_witness :
  let r := full_sync Sample.cfg Sample.refusing_world 3 Sample.self0 Sample.st0 in
  fst r = Raise Sample.http_error ∧
  length (trace (snd r)) = 3%nat ∧
  last_sync_file (snd r) = last_sync_file Sample.st0 ∧
  synced_items_file (snd r) = synced_items_file Sample.st0.
Proof.
  cbv zeta.
  assert (Hr : fst (full_sync Sample.cfg Sample.refusing_world 3 Sample.self0
                      Sample.st0) = Raise Sample.http_error)
    by (vm_compute; reflexivity).
  split; [exact Hr|]. split; [vm_compute; reflexivity|].
  refine (proj1 (full_sync_commits_last Sample.cfg Sample.refusing_world 3
                   Sample.self0 Sample.st0 _ _ _) _).
  - apply surjective_pairing.
  - intros s. rewrite Hr. discriminate.
Defined.

(** C4.  A run of [full_sync] that ends normally on at least one item
    writes the union of the set it was given with the ids of the items
    that took the CREATE or the UPDATE path; a run without items writes
    nothing.  Either way the set only grows: ids already in it, those of
    skipped items among them, stay.  The set a run is given is the one
    [__init__] read from the file, empty when there is no readable file. *)
Theorem synced_items_grow cfg w fuel self st s' st' :
  full_sync cfg w fuel self st = (Ok s', st') →
  ∃ books st1,
    get_readwise_books w fuel (last_sync_time self) st = (Ok books, st1) ∧
    (books = [] → st' = st1 ∧ s' = self) ∧
    (books ≠ [] →
       ∃ pages st2,
         batch_search_notion_pages cfg w (map title_of books) st1
         = (Ok pages, st2) ∧
         let ids := map b_id (filter (reaches_page self pages) books) in
         synced_items_file st' = Some (synced_items self ∪ list_to_set ids) ∧
         synced_items s' = synced_items self ∪ list_to_set ids) ∧
    synced_items self ⊆ synced_items s' ∧
    (synced_items (match fst (init st) with Ok s => s | _ => self end)
     = default ∅ (synced_items_file st)) ∧
    (synced_items_file st = Some (synced_items self) →
       synced_items_file st' = Some (synced_items s')) ∧
    (∀ b, b ∈ books → b_id b ∈ synced_items self → b_id b ∈ synced_items s').
Proof.
  intros Hrun. rewrite full_sync_run in Hrun.
  destruct (get_readwise_books w fuel (last_sync_time self) st)
    as [o1 st1] eqn:E1.
  destruct (net_only_books w fuel _ _ _ _ E1) as (_ & S1 & _ & _).
  destruct o1 as [books|e|]; [|discriminate..].
  exists books, st1. split; [reflexivity|].
  destruct books as [|b0 bs].
  { cbn [length Nat.eqb] in Hrun. injection Hrun as <- <-.
    split; [auto|]. split; [congruence|].
    split; [reflexivity|]. split; [reflexivity|]. split; [congruence|]. auto. }
  cbn [length Nat.eqb] in Hrun.
  destruct (batch_search_notion_pages cfg w (map title_of (b0 :: bs)) st1)
    as [o2 st2] eqn:E2.
  destruct o2 as [pages|e|]; [|discriminate..].
  destruct (for_each (full_sync_item cfg w fuel self pages) (b0 :: bs)
              no_counts st2) as [o3 st3] eqn:E3.
  destruct o3 as [acc|e|]; [|discriminate..].
  cbv zeta in Hrun. injection Hrun as <- <-.
  pose proof (loop_synced_ids cfg w _ _ _ _ _ _ _ _ E3) as Hids.
  cbn [synced_ids no_counts app] in Hids. rewrite Hids.
  split; [discriminate|]. split.
  { intros _. exists pages, st2. split; [reflexivity|]. split; reflexivity. }
  cbn [synced_items]. split; [apply union_subseteq_l|].
  split; [reflexivity|]. split; [reflexivity|].
  intros b _ Hb. apply elem_of_union. left. exact Hb.
Qed.

(** An instance: of three items, one is skipped, one updated, one
    created; the set [{7}] becomes [{7, 42, 43}]. *)
Lemma synced_items_grow_witness :
  let r := full_sync Sample.cfg Sample.busy_world 3 Sample.self0 Sample.st0 in
  (∃ s', r = (Ok s', snd r)) ∧
  synced_items_file (snd r) = Some ({[ 7%Z; 42%Z; 43%Z ]} : gset Z) ∧
  ∃ books st1,
    get_readwise_books Sample.busy_world 3 (last_sync_time Sample.self0)
      Sample.st0 = (Ok books, st1).
Proof.
  cbv zeta.
  assert (Hr : full_sync Sample.cfg Sample.busy_world 3 Sample.self0 Sample.st0
               = (Ok {| last_sync_time := last_sync_time Sample.self0;
                        synced_items := {[ 7%Z; 42%Z; 43%Z ]} |},
                  snd (full_sync Sample.cfg Sample.busy_world 3 Sample.self0
                         Sample.st0)))
    by (vm_compute; reflexivity).
  split; [eexists; exact Hr|]. split; [vm_compute; reflexivity|].
  destruct (synced_items_grow Sample.cfg Sample.busy_world 3 Sample.self0
              Sample.st0 _ _ Hr)
    as (books & st1 & Hb & _).
  exists books, st1. exact Hb.
Defined.

(** ** The top level *)

Lemma main_handler_run e st :
  main_handler e st = (Ok (), with_console (console st ++ error_report e) st).
Proof.
  unfold main_handler, error_report, print, print_exc.
  rewrite !bind_unfold. cbn [console with_console].
  unfold with_console. cbn [trace last_sync_file synced_items_file console].
  rewrite <- !app_assoc. reflexivity.
Qed.

(** C8 (as amended).  When an exception reaches the [except] block of
    [main], the summary with its type and message and the stack trace
    (twice) are written after what was printed before; both state files
    and the trace are as the exception left them; [main] then returns, so
    the exit status is 0. *)
Theorem main_reports_error cfg w fuel args st e st1 :
  main_body cfg w fuel args st = (Raise e, st1) →
  script cfg w fuel args st
  = (Some 0%Z, with_console (console st1 ++ error_report e) st1) ∧
  In (Stdout ("   " +:+ exn_type e +:+ ": " +:+ exn_msg e)) (error_report e) ∧
  In (Traceback e) (error_report e).
Proof.
  intros Hbody. split.
  - unfold script, main, try_except. rewrite Hbody, main_handler_run.
    reflexivity.
  - split; simpl; tauto.
Qed.

(** An instance: Readwise answers the first request with an error. *)
Lemma main_reports_error_witness :
  ∃ st1,
    main_body Sample.cfg Sample.down_world 3 Sample.args Sample.st0
    = (Raise Sample.http_error, st1) ∧
    script Sample.cfg Sample.down_world 3 Sample.args Sample.st0
    = (Some 0%Z,
       with_console (console st1 ++ error_report Sample.http_error) st1).
Proof.
  eexists. 
  assert (H : main_body Sample.cfg Sample.down_world 3 Sample.args Sample.st0
              = (Raise Sample.http_error,
                 snd (main_body Sample.cfg Sample.down_world 3 Sample.args
                        Sample.st0)))
    by (vm_compute; reflexivity).
  split; [exact H|].
  exact (proj1 (main_reports_error Sample.cfg Sample.down_world 3 Sample.args
                  Sample.st0 _ _ H)).
Defined.

(** The claim as first stated fails: Readwise is down, the exception
    reaches the top level of [main], and the exit status is 0. *)
Lemma main_exit_status_counterexample :
  fst (main_body Sample.cfg Sample.down_world 3 Sample.args Sample.st0)
  = Raise Sample.http_error ∧
  fst (script Sample.cfg Sample.down_world 3 Sample.args Sample.st0)
  = Some 0%Z ∧
  ¬ (∃ n, fst (script Sample.cfg Sample.down_world 3 Sample.args Sample.st0)
          = Some n ∧ n ≠ 0%Z).
Proof.
  assert (H : fst (script Sample.cfg Sample.down_world 3 Sample.args Sample.st0)
              = Some 0%Z) by (vm_compute; reflexivity).
  split; [vm_compute; reflexivity|]. split; [exact H|].
  intros (n & Hn & Hne). rewrite H in Hn. congruence.
Qed.

(** * Further properties *)

(** ** Requests of a computation *)

Section SendsOnly.

Context {A B : Type} (P : request → Prop).

Lemma sends_only_ret (a : A) : sends_only P (mret a : M A).
Proof.
  intros st r st' [= <- <-]. exists []. split; [|constructor].
  symmetry. apply app_nil_r.
Qed.

Lemma sends_only_diverge : sends_only P (diverge : M A).
Proof.
  intros st r st' [= <- <-]. exists []. split; [|constructor].
  symmetry. apply app_nil_r.
Qed.

Lemma sends_only_raise (e : exn) : sends_only P (raise e : M A).
Proof.
  intros st r st' [= <- <-]. exists []. split; [|constructor].
  symmetry. apply app_nil_r.
Qed.

Lemma sends_only_send (oracle : list request → answer A) req :
  P req → sends_only P (send oracle req).
Proof.
  intros Hreq st r st'. unfold send.
  destruct (oracle (trace st ++ [req])); intros [= <- <-]; simpl;
    exists [req]; (split; [reflexivity|]); repeat constructor; exact Hreq.
Qed.

Lemma sends_only_bind (m : M A) (f : A → M B) :
  sends_only P m → (∀ a, sends_only P (f a)) → sends_only P (m ≫= f).
Proof.
  intros Hm Hf st r st'. rewrite bind_unfold.
  destruct (m st) as [[a|e|] st1] eqn:E;
    destruct (Hm _ _ _ E) as (new1 & H1 & F1).
  - intros E2. destruct (Hf _ _ _ _ E2) as (new2 & H2 & F2).
    exists (new1 ++ new2). split; [|apply Forall_app; split; assumption].
    rewrite H2, H1. symmetry. apply app_assoc.
  - intros [= <- <-]. exists new1. split; assumption.
  - intros [= <- <-]. exists new1. split; assumption.
Qed.

End SendsOnly.

Lemma sends_only_get_trace P : sends_only P get_trace.
Proof.
  intros st r st' [= <- <-]. exists []. split; [|constructor].
  symmetry. apply app_nil_r.
Qed.

Lemma sends_only_for_each {A S} P (body : A → S → M S) l acc :
  (∀ x a, sends_only P (body x a)) → sends_only P (for_each body l acc).
Proof.
  intros Hb. revert acc. induction l as [|x t IH]; intros acc; simpl.
  - apply sends_only_ret.
  - apply sends_only_bind; [apply Hb|]. intros a. apply IH.
Qed.

Lemma sends_only_impl {A} (P Q : request → Prop) (m : M A) :
  (∀ req, P req → Q req) → sends_only P m → sends_only Q m.
Proof.
  intros HPQ Hm st r st' E. destruct (Hm _ _ _ E) as (new & H & F).
  exists new. split; [exact H|]. eapply Forall_impl; [exact F|exact HPQ].
Qed.

(** ** Fetching the items *)

Lemma before_char_no_dot s : str_contains "." (before_char "." s) = false.
Proof.
  induction s as [|a s IH]; [reflexivity|].
  cbn [before_char]. destruct (Ascii.eqb a ".") eqn:E; [reflexivity|].
  unfold str_contains in *. cbn [list_ascii_of_string existsb].
  rewrite IH, orb_false_r. rewrite Ascii.eqb_sym. exact E.
Qed.

Lemma str_contains_app c s1 s2 :
  str_contains c (s1 +:+ s2) = str_contains c s1 || str_contains c s2.
Proof.
  unfold str_contains. induction s1 as [|a s1 IH]; [reflexivity|].
  simpl. rewrite IH.
  apply orb_assoc.
Qed.

Lemma books_since_truthy after :
  truthy (books_since after) = truthy after.
Proof.
  unfold books_since. destruct (truthy after) eqn:E; [|reflexivity].
  destruct (str_contains "." (default "" after)).
  - cbn [truthy]. destruct (before_char "." (default "" after)); reflexivity.
  - destruct after; [exact E|discriminate].
Qed.

(** The value of [highlighted_after] has no fractional part. *)
Lemma books_since_no_dot after v :
  books_since after = Some v → str_contains "." v = false ∧ v ≠ "".
Proof.
  unfold books_since. destruct (truthy after) eqn:E; [|discriminate].
  destruct (str_contains "." (default "" after)) eqn:Ed; intros [= <-].
  - split.
    + rewrite str_contains_app, before_char_no_dot. reflexivity.
    + destruct (before_char "." (default "" after)); discriminate.
  - split; [exact Ed|]. destruct after as [s|]; [|discriminate].
    simpl in *. intros ->. discriminate.
Qed.

Section Books.

Context (w : World).

Lemma paged_requests_plain urls :
  paged_requests [] urls = map (λ u, GET u []) urls.
Proof. destruct urls; reflexivity. Qed.

Lemma books_loop_requests fuel url params all_books st :
  ∃ urls,
    trace (snd (get_readwise_books_loop w fuel url params all_books st))
    = trace st ++ paged_requests params urls ∧
    (∀ u, head urls = Some u → url = Some u) ∧
    (∀ i u, urls !! S i = Some u →
       ∃ data,
         w_books w (trace st ++ take (S i) (paged_requests params urls))
         = Answer data ∧ snd data = Some u).
Proof.
  revert url params all_books st.
  induction fuel as [|fuel IH]; intros url params all_books st;
    cbn [get_readwise_books_loop]; destruct (truthy url) eqn:Hu;
    try (exists []; split; [symmetry; apply app_nil_r|];
         split; [discriminate|intros ? ? [=]]).
  rewrite bind_unfold.
  destruct url as [u|]; [|discriminate].
  change (default "" (Some u)) with u.
  destruct (send (w_books w) (GET u params) st) as [[data|e|] s1] eqn:Es;
    unfold send in Es;
    destruct (w_books w (trace st ++ [GET u params])) as [a|e'] eqn:Ea;
    inversion Es; subst.
  - destruct (IH (snd data) [] (all_books ++ fst data)
                (with_trace (trace st ++ [GET u params]) st))
      as (urls & Htr & Hhead & Hnext).
    exists (u :: urls). split; [|split; [intros ? [= <-]; reflexivity|]].
    + rewrite Htr. cbn [trace with_trace].
      rewrite <- app_assoc. cbn [app paged_requests].
      destruct urls; reflexivity.
    + intros i u' Hu'. cbn [paged_requests].
      change ((u :: urls) !! S i) with (urls !! i) in Hu'.
      destruct i as [|i].
      * exists data. cbn [take]. split; [exact Ea|].
        apply Hhead. destruct urls; [discriminate|exact Hu'].
      * destruct (Hnext i u' Hu') as (data' & Hd & Hs).
        exists data'. split; [|exact Hs].
        rewrite <- Hd. cbn [trace with_trace].
        rewrite paged_requests_plain. cbn [take].
        rewrite <- app_assoc. reflexivity.
  - exists [u]. split; [reflexivity|].
    split; [intros ? [= <-]; reflexivity|].
    intros i u' Hu'. destruct i; discriminate.
Qed.

Lemma books_loop_get fuel url params all_books :
  sends_only is_get (get_readwise_books_loop w fuel url params all_books).
Proof.
  revert url params all_books.
  induction fuel as [|fuel IH]; intros url params all_books;
    cbn [get_readwise_books_loop]; destruct (truthy url);
    try apply sends_only_ret; try apply sends_only_diverge.
  apply sends_only_bind; [apply sends_only_send; exact I|].
  intros a. apply IH.
Qed.

Lemma get_readwise_books_split fuel after st :
  let since := books_since after in
  get_readwise_books w fuel after st
  = (all_books ← get_readwise_books_loop w fuel
                   (Some (READWISE_API_BASE +:+ "/books/"))
                   (books_params after) [];
     if truthy since && negb (Nat.eqb (length all_books) 0) then
       let cutoff_date := str_remove "Z" (default "" since) in
       let filtered_books :=
         List.filter
           (λ book,
              let last_highlight := default "" (b_last_highlight_at book) in
              negb (String.eqb last_highlight "") &&
              negb (String.ltb (str_remove "Z" last_highlight) cutoff_date))
           all_books in
       if Nat.ltb (length filtered_books) (length all_books)
       then mret filtered_books else mret all_books
     else mret all_books) st.
Proof.
  cbv zeta. unfold get_readwise_books, books_params, books_since.
  cbv zeta. rewrite !bind_unfold.
  destruct after as [s|].
  - change (default "" (Some s)) with s. unfold truthy.
    destruct (String.eqb s "") eqn:E; cbn [negb]; lazy beta iota;
      rewrite ?E; cbn [negb andb]; lazy beta iota.
    + destruct (get_readwise_books_loop w fuel _ [] [] st) as [[l|e|] s1];
        reflexivity.
    + destruct (str_contains "." s) eqn:Ed; lazy beta iota.
      * change (default "" (Some (before_char "." s +:+ "Z")))
          with (before_char "." s +:+ "Z").
        destruct (before_char "." s) eqn:Eb; reflexivity.
      * change (default "" (Some s)) with s. rewrite ?E. reflexivity.
  - unfold truthy.
    destruct (get_readwise_books_loop w fuel _ [] [] st) as [[l|e|] s1];
      reflexivity.
Qed.

End Books.

Lemma filter_bool_sublist {A} (f : A → bool) l : sublist (List.filter f l) l.
Proof.
  induction l as [|x t IH]; simpl; [constructor|].
  destruct (f x); [apply sublist_skip|apply sublist_cons]; exact IH.
Qed.

Lemma filter_bool_full {A} (f : A → bool) l :
  (length l ≤ length (List.filter f l))%nat → List.filter f l = l.
Proof.
  induction l as [|x t IH]; simpl; [reflexivity|].
  pose proof (sublist_length _ _ (filter_bool_sublist f t)) as Hle.
  destruct (f x); simpl; intros H.
  - f_equal. apply IH. lia.
  - lia.
Qed.

(** X1.  [get_readwise_books] only sends GET requests: the first to the
    [books] collection, each following one to the [next] link of the
    answer to the one before it.  Only the first carries a query
    parameter, and only when a non-empty time is given; its value has no
    fractional part and is not empty.  The state files are not touched. *)
Theorem get_readwise_books_requests w fuel after st :
  let r := get_readwise_books w fuel after st in
  (∃ urls,
      trace (snd r) = trace st ++ paged_requests (books_params after) urls ∧
      (∀ u, head urls = Some u → u = READWISE_API_BASE +:+ "/books/") ∧
      (∀ i u, urls !! S i = Some u →
         ∃ data,
           w_books w (trace st
                      ++ take (S i) (paged_requests (books_params after) urls))
           = Answer data ∧ snd data = Some u)) ∧
  (∀ v, books_since after = Some v → str_contains "." v = false ∧ v ≠ "") ∧
  (books_params after = [] ↔ truthy after = false) ∧
  last_sync_file (snd r) = last_sync_file st ∧
  synced_items_file (snd r) = synced_items_file st.
Proof.
  cbv zeta. split; [|split; [|split]].
  - rewrite get_readwise_books_split. cbv zeta. rewrite bind_unfold.
    destruct (books_loop_requests w fuel
                (Some (READWISE_API_BASE +:+ "/books/"))
                (books_params after) [] st) as (urls & Htr & Hhead & Hnext).
    exists urls. split; [|split].
    + destruct (get_readwise_books_loop w fuel _ _ _ st) as [[l|e|] s1];
        cbn [snd] in Htr; [|exact Htr..].
      destruct (_ && _); [destruct (Nat.ltb _ _)|]; exact Htr.
    + intros u Hu. specialize (Hhead u Hu). congruence.
    + exact Hnext.
  - apply books_since_no_dot.
  - unfold books_params. rewrite <- books_since_truthy.
    destruct (books_since after) as [v|] eqn:E.
    + destruct (books_since_no_dot _ _ E) as [_ Hv].
      split; [discriminate|]. cbn [truthy].
      destruct (String.eqb_spec v ""); [contradiction|discriminate].
    + split; reflexivity.
  - destruct (get_readwise_books w fuel after st) as [o s1] eqn:E.
    destruct (net_only_books w fuel after _ _ _ E) as (H1 & H2 & _).
    split; assumption.
Qed.

(** X2.  With a non-empty time filter, the items [get_readwise_books]
    returns are, in order, those of the fetched items whose last
    highlight time is present and, the [Z] removed, not smaller than the
    cutoff; without it, every fetched item is returned. *)
Theorem get_readwise_books_client_filter w fuel after st books st' :
  get_readwise_books w fuel after st = (Ok books, st') →
  ∃ fetched,
    get_readwise_books_loop w fuel (Some (READWISE_API_BASE +:+ "/books/"))
      (books_params after) [] st = (Ok fetched, st') ∧
    sublist books fetched ∧
    (truthy after = false → books = fetched) ∧
    (∀ v, books_since after = Some v →
       Forall (recent_enough (str_remove "Z" v)) books ∧
       ∀ b, b ∈ fetched → recent_enough (str_remove "Z" v) b → b ∈ books).
Proof.
  rewrite get_readwise_books_split. cbv zeta. intros H.
  apply bind_Ok_inv in H as (fetched & s1 & Hloop & H).
  set (f := λ book : Book,
         negb (String.eqb (default "" (b_last_highlight_at book)) "") &&
         negb (String.ltb (str_remove "Z" (default "" (b_last_highlight_at book)))
                 (str_remove "Z" (default "" (books_since after))))) in H.
  assert (Hf : ∀ v b, books_since after = Some v →
                 (f b = true ↔ recent_enough (str_remove "Z" v) b)).
  { intros v b Hv. unfold f, recent_enough. rewrite Hv. cbn [default].
    rewrite andb_true_iff, !negb_true_iff. split.
    - intros [H1 H2]. destruct (b_last_highlight_at b) as [d|]; [|discriminate].
      exists d. split; [reflexivity|]. split; [|exact H2].
      intros ->. discriminate.
    - intros (d & -> & Hd & Hlt). split; [|exact Hlt].
      apply String.eqb_neq. exact Hd. }
  assert (Hres : books = (if truthy (books_since after)
                          then List.filter f fetched else fetched) ∧ st' = s1).
  { destruct (truthy (books_since after)).
    - destruct (Nat.eqb_spec (length fetched) 0) as [Hz|Hz]; cbn [negb andb] in H.
      + injection H as <- <-. destruct fetched; [split; reflexivity|discriminate].
      + destruct (Nat.ltb_spec (length (List.filter f fetched)) (length fetched));
          injection H as <- <-; split; try reflexivity.
        symmetry. apply filter_bool_full. assumption.
    - cbn [andb] in H. injection H as <- <-. split; reflexivity. }
  destruct Hres as [-> ->]. exists fetched. split; [exact Hloop|].
  rewrite books_since_truthy. split; [|split].
  - destruct (truthy after); [apply filter_bool_sublist|reflexivity].
  - intros ->. reflexivity.
  - intros v Hv. pose proof (books_since_truthy after) as Ht.
    rewrite Hv in Ht. destruct (books_since_no_dot _ _ Hv) as [_ Hne].
    assert (Htrue : truthy after = true).
    { rewrite <- Ht. cbn [truthy].
      destruct (String.eqb_spec v ""); [contradiction|reflexivity]. }
    rewrite Htrue. split.
    + apply Forall_forall. intros b Hb.
      apply list_elem_of_In, filter_In in Hb as [_ Hb]. apply (Hf v b Hv), Hb.
    + intros b Hb Hrec. apply list_elem_of_In, filter_In. split.
      * apply list_elem_of_In, Hb.
      * apply (Hf v b Hv), Hrec.
Qed.

(** An instance: two answers, four items; the cutoff 2024-01-01 drops the
    item last highlighted in 2023 and the one without a date. *)
Lemma get_readwise_books_client_filter_witness :
  ∃ fetched st',
    get_readwise_books Cases.paged_world 5 (Some "2024-01-01T00:00:00.5Z")
      Sample.st0
    = (Ok [Sample.book 42 "T" 5; Sample.book 43 "New" 0], st') ∧
    get_readwise_books_loop Cases.paged_world 5
      (Some (READWISE_API_BASE +:+ "/books/"))
      (books_params (Some "2024-01-01T00:00:00.5Z")) [] Sample.st0
    = (Ok fetched, st') ∧
    length fetched = 4%nat.
Proof.
  assert (H : get_readwise_books Cases.paged_world 5
                (Some "2024-01-01T00:00:00.5Z") Sample.st0
              = (Ok [Sample.book 42 "T" 5; Sample.book 43 "New" 0],
                 snd (get_readwise_books Cases.paged_world 5
                        (Some "2024-01-01T00:00:00.5Z") Sample.st0)))
    by (vm_compute; reflexivity).
  destruct (get_readwise_books_client_filter _ _ _ _ _ _ H)
    as (fetched & Hloop & _).
  exists fetched. eexists. split; [exact H|]. split; [exact Hloop|].
  apply (f_equal fst) in Hloop. vm_compute in Hloop.
  injection Hloop as <-. reflexivity.
Defined.

(** ** Looking pages up *)

Lemma enter_pages_lookup (l : list Page) (m : gmap string Page) t :
  foldl enter_page m l !! t
  = match last_titled t l with
    | Some p => Some p
    | None => m !! t
    end.
Proof.
  revert m. induction l as [|p l IH]; intros m; [reflexivity|].
  cbn [foldl]. rewrite IH. unfold last_titled. rewrite filter_cons.
  unfold enter_page.
  destruct (decide (p_title p = Some t)) as [Hp|Hp].
  - rewrite last_cons, Hp.
    destruct (last (filter _ l)); [reflexivity|]. apply lookup_insert_eq.
  - destruct (last (filter _ l)); [reflexivity|].
    destruct (p_title p) as [t'|]; [|reflexivity].
    apply lookup_insert_ne. congruence.
Qed.

Lemma last_titled_title t l p : last_titled t l = Some p → p_title p = Some t ∧ p ∈ l.
Proof.
  unfold last_titled. intros H. apply last_Some_elem_of in H.
  apply list_elem_of_filter in H. exact H.
Qed.

Section Lookup.

Context (cfg : Config) (w : World).

Lemma batch_body_run batch (m : gmap string Page) st :
  (results ← send (w_query w) (query_request cfg batch);
   mret (foldl enter_page m results)) st
  = match w_query w (trace st ++ [query_request cfg batch]) with
    | Answer results =>
        (Ok (foldl enter_page m results),
         with_trace (trace st ++ [query_request cfg batch]) st)
    | Fails e => (Raise e, with_trace (trace st ++ [query_request cfg batch]) st)
    end.
Proof.
  rewrite bind_unfold. unfold send.
  destruct (w_query w _); reflexivity.
Qed.

(** The loop of [batch_search_notion_pages] over the batches. *)
Lemma batch_loop_run chunks (m : gmap string Page) st :
  let r := for_each
             (λ batch (all_pages : gmap string Page),
                results ← send (w_query w) (query_request cfg batch);
                mret (foldl enter_page all_pages results)) chunks m st in
  ∃ k answered,
    trace (snd r) = trace st ++ map (query_request cfg) (take k chunks) ∧
    Forall (λ a, ∃ tr, w_query w tr = Answer a) answered ∧
    (∀ pages, fst r = Ok pages →
       k = length chunks ∧ pages = foldl enter_page m (concat answered)).
Proof.
  cbv zeta. revert m st. induction chunks as [|c t IH]; intros m st.
  - exists 0%nat, []. simpl. rewrite app_nil_r.
    split; [reflexivity|]. split; [constructor|].
    intros pages [= <-]. split; reflexivity.
  - cbn [for_each]. rewrite bind_unfold, batch_body_run.
    destruct (w_query w (trace st ++ [query_request cfg c])) as [results|e] eqn:Ea.
    + destruct (IH (foldl enter_page m results)
                  (with_trace (trace st ++ [query_request cfg c]) st))
        as (k & answered & Htr & Hall & Hok).
      exists (S k), (results :: answered). split; [|split].
      * rewrite Htr. simpl. rewrite <- app_assoc. reflexivity.
      * constructor; [eexists; exact Ea|exact Hall].
      * intros pages Hp. destruct (Hok pages Hp) as [-> ->].
        split; [reflexivity|]. cbn [concat]. rewrite foldl_app. reflexivity.
    + exists 1%nat, []. split; [|split; [constructor|discriminate]].
      simpl. try rewrite take_0. reflexivity.
Qed.

Lemma batch_search_unfold titles st :
  batch_search_notion_pages cfg w titles st
  = for_each
      (λ batch (all_pages : gmap string Page),
         results ← send (w_query w) (query_request cfg batch);
         mret (foldl enter_page all_pages results))
      (py_chunks 100 titles) ∅ st.
Proof.
  unfold batch_search_notion_pages. destruct titles; [|reflexivity].
  rewrite py_chunks_nil by lia. reflexivity.
Qed.

End Lookup.

(** X3.  [batch_search_notion_pages] sends one query per batch of at
    most 100 titles, in order, each batch non-empty, the batches together
    being the titles; a batch of one title is looked up by equality, a
    larger one by a disjunction.  It stops at the first query that fails,
    and sends nothing for no title. *)
Theorem batch_search_requests cfg w titles st :
  let r := batch_search_notion_pages cfg w titles st in
  let batches := py_chunks 100 titles in
  (∃ k, trace (snd r) = trace st ++ map (query_request cfg) (take k batches) ∧
        (∀ pages, fst r = Ok pages → k = length batches)) ∧
  concat batches = titles ∧
  Forall (λ c, c ≠ [] ∧ (length c ≤ 100)%nat) batches ∧
  (titles = [] → r = (Ok ∅, st)) ∧
  (∀ title, query_request cfg [title]
            = POST (query_url cfg) (JObj [("filter", title_equals title)])).
Proof.
  cbv zeta. rewrite batch_search_unfold.
  split; [|split; [|split; [|split]]].
  - destruct (batch_loop_run cfg w (py_chunks 100 titles) ∅ st)
      as (k & answered & Htr & _ & Hok).
    exists k. split; [exact Htr|]. intros pages Hp. apply (Hok pages Hp).
  - apply concat_py_chunks. lia.
  - apply Forall_and. split; [apply py_chunks_nonempty; lia|apply py_chunks_small].
  - intros ->. reflexivity.
  - reflexivity.
Qed.

(** X4.  The map [batch_search_notion_pages] returns sends each title to
    the last page with that title among the pages the queries returned,
    in the order they were returned; pages without a title are left
    out. *)
Theorem batch_search_last_wins cfg w titles st pages st' :
  batch_search_notion_pages cfg w titles st = (Ok pages, st') →
  ∃ answered,
    Forall (λ a, ∃ tr, w_query w tr = Answer a) answered ∧
    length answered = length (py_chunks 100 titles) ∧
    (∀ t, pages !! t = last_titled t (concat answered)) ∧
    (∀ t p, pages !! t = Some p → p_title p = Some t ∧ p ∈ concat answered) ∧
    (∀ p t, p ∈ concat answered → p_title p = Some t → is_Some (pages !! t)).
Proof.
  rewrite batch_search_unfold. intros H.
  assert (Hlen : ∀ chunks m s,
    ∀ pages' s', for_each
      (λ batch (all_pages : gmap string Page),
         results ← send (w_query w) (query_request cfg batch);
         mret (foldl enter_page all_pages results)) chunks m s = (Ok pages', s') →
    ∃ answered,
      Forall (λ a, ∃ tr, w_query w tr = Answer a) answered ∧
      length answered = length chunks ∧
      pages' = foldl enter_page m (concat answered)).
  { induction chunks as [|c t IH]; intros m s pages' s' Hrun.
    - injection Hrun as <- <-. exists []. repeat split. constructor.
    - cbn [for_each] in Hrun. rewrite bind_unfold, batch_body_run in Hrun.
      destruct (w_query w (trace s ++ [query_request cfg c])) as [results|e] eqn:Ea;
        [|discriminate].
      destruct (IH _ _ _ _ Hrun) as (answered & Hall & Hl & ->).
      exists (results :: answered). split; [|split].
      + constructor; [eexists; exact Ea|exact Hall].
      + simpl. f_equal. exact Hl.
      + cbn [concat]. rewrite foldl_app. reflexivity. }
  destruct (Hlen _ _ _ _ _ H) as (answered & Hall & Hl & ->).
  exists answered. split; [exact Hall|]. split; [exact Hl|].
  assert (Hlook : ∀ t, foldl enter_page ∅ (concat answered) !! t
                       = last_titled t (concat answered)).
  { intros t. rewrite enter_pages_lookup.
    destruct (last_titled t (concat answered)); [reflexivity|].
    apply lookup_empty. }
  split; [exact Hlook|]. split.
  - intros t p. rewrite Hlook. apply last_titled_title.
  - intros p t Hin Ht. rewrite Hlook. unfold last_titled.
    apply last_is_Some. intros Hnil.
    assert (Hp : p ∈ filter (λ p, p_title p = Some t) (concat answered))
      by (apply list_elem_of_filter; split; assumption).
    rewrite Hnil in Hp. inversion Hp.
Qed.

(** An instance: the query returns two pages called "T" and one without
    a title; the second "T" is kept. *)
Lemma batch_search_last_wins_witness :
  ∃ pages st',
    batch_search_notion_pages Sample.cfg Cases.paged_world ["T"; "Old"]
      Sample.st0 = (Ok pages, st') ∧
    pages !! "T" = Some (Sample.page "page-2" "T" 4) ∧
    ∃ answered, ∀ t, pages !! t = last_titled t (concat answered).
Proof.
  assert (H : batch_search_notion_pages Sample.cfg Cases.paged_world
                ["T"; "Old"] Sample.st0
              = (Ok {[ "T" := Sample.page "page-2" "T" 4 ]},
                 snd (batch_search_notion_pages Sample.cfg Cases.paged_world
                        ["T"; "Old"] Sample.st0)))
    by (vm_compute; reflexivity).
  eexists _, _. split; [exact H|]. split; [vm_compute; reflexivity|].
  destruct (batch_search_last_wins _ _ _ _ _ _ H) as (answered & _ & _ & Hl & _).
  exists answered. exact Hl.
Defined.

(** X5.  For one title, [search_notion_page] and the batched lookup send
    the same query and fail alike; on an answer, the first returns the
    first page returned, the second maps the title to the last returned
    page with that title, so they agree when a single page with that
    title is returned, and find nothing when no page is returned. *)
Theorem search_notion_page_single cfg w title st :
  let r1 := search_notion_page cfg w title st in
  let r2 := batch_search_notion_pages cfg w [title] st in
  let tr := trace st ++ [query_request cfg [title]] in
  snd r1 = with_trace tr st ∧ snd r2 = with_trace tr st ∧
  (∀ e, w_query w tr = Fails e → fst r1 = Raise e ∧ fst r2 = Raise e) ∧
  (∀ results, w_query w tr = Answer results →
     fst r1 = Ok (head results) ∧
     ∃ pages, fst r2 = Ok pages ∧ pages !! title = last_titled title results ∧
       (results = [] → head results = None ∧ pages = ∅) ∧
       (∀ p, results = [p] → p_title p = Some title →
             head results = Some p ∧ pages !! title = Some p)).
Proof.
  cbv zeta. rewrite batch_search_unfold.
  change (py_chunks 100 [title]) with [[title]]. cbn [for_each].
  rewrite bind_unfold, batch_body_run.
  unfold search_notion_page. rewrite bind_unfold. unfold send.
  change (POST (NOTION_API_BASE +:+ "/databases/" +:+ NOTION_DATABASE_ID cfg
                +:+ "/query") (JObj [("filter", title_equals title)]))
    with (query_request cfg [title]).
  destruct (w_query w (trace st ++ [query_request cfg [title]]))
    as [results|e].
  - split; [reflexivity|]. split; [reflexivity|]. split; [discriminate|].
    intros ? [= <-]. split; [reflexivity|].
    exists (foldl enter_page ∅ results). split; [reflexivity|].
    assert (Hl : foldl enter_page ∅ results !! title = last_titled title results).
    { rewrite enter_pages_lookup.
      destruct (last_titled title results); [reflexivity|apply lookup_empty]. }
    split; [exact Hl|]. split.
    + intros ->. split; reflexivity.
    + intros p -> Hp. split; [reflexivity|]. rewrite Hl.
      unfold last_titled. rewrite filter_cons, decide_True by exact Hp.
      reflexivity.
  - split; [reflexivity|]. split; [reflexivity|].
    split; [|discriminate]. intros ? [= <-]. split; reflexivity.
Qed.

(** ** Fingerprints *)

Lemma normalize_text_fixed t : normalize_text (normalize_text t) = normalize_text t.
Proof.
  unfold normalize_text. rewrite list_ascii_of_string_of_list_ascii.
  rewrite TextFacts.normalize_chars_idem. reflexivity.
Qed.

Lemma str_take_take n m t :
  (m ≤ n)%nat → str_take m (str_take n t) = str_take m t.
Proof.
  intros H. unfold str_take. rewrite list_ascii_of_string_of_list_ascii.
  rewrite take_take. f_equal. f_equal. lia.
Qed.

(** X6.  A fingerprint is its own normal form and depends on the first
    1000 characters of the text only: a text cut to 1000 characters or
    more has the fingerprint of the whole text, so has the text cut to
    2000 characters that a quote block stores, and two texts with the
    same first 1000 characters have the same fingerprint. *)
Theorem fingerprint_of_prefix :
  (∀ t, normalize_text (fingerprint t) = fingerprint t) ∧
  (∀ n t, (1000 ≤ n)%nat → fingerprint (str_take n t) = fingerprint t) ∧
  (∀ t, block_content "quote" (quote_block t) = Some (str_take 2000 t) ∧
        fingerprint (str_take 2000 t) = fingerprint t) ∧
  (∀ t1 t2, str_take 1000 t1 = str_take 1000 t2 →
            fingerprint t1 = fingerprint t2).
Proof.
  split; [|split; [|split]].
  - intros t. apply normalize_text_fixed.
  - intros n t Hn. unfold fingerprint. rewrite str_take_take by exact Hn.
    reflexivity.
  - intros t. split; [reflexivity|].
    unfold fingerprint. rewrite str_take_take by lia. reflexivity.
  - intros t1 t2 H. unfold fingerprint. rewrite H. reflexivity.
Qed.

(** ** Reading and extending a page *)

Section Page.

Context (w : World).

Lemma existing_loop_lists fuel page_id E has_more cursor :
  sends_only (lists_children page_id)
    (get_existing_page_content_loop w fuel (children_url page_id) E
       has_more cursor).
Proof.
  revert E has_more cursor.
  induction fuel as [|fuel IH]; intros E has_more cursor;
    cbn [get_existing_page_content_loop]; destruct has_more;
    try apply sends_only_ret; try apply sends_only_diverge.
  apply sends_only_bind; [|intros a; apply IH].
  apply sends_only_send. unfold lists_children.
  destruct cursor as [c|]; cbn [truthy]; [|left; reflexivity].
  destruct (String.eqb_spec c ""); cbn [negb]; [left; reflexivity|].
  right. exists c. split; [assumption|reflexivity].
Qed.

Lemma chunk_requests_append page_id (l : list json) k :
  Forall (appends_chunk page_id)
    (map (patch_children page_id) (take k (py_chunks 100 l))).
Proof.
  rewrite Forall_map. apply Forall_take.
  pose proof (py_chunks_nonempty 100 l ltac:(lia)) as H1.
  pose proof (py_chunks_small 100 l) as H2.
  rewrite Forall_forall in H1, H2. apply Forall_forall. intros c Hc.
  exists c. split; [reflexivity|]. split; [apply H1, Hc|apply H2, Hc].
Qed.

End Page.

(** X7.  [get_existing_page_content] follows the listing of the
    service.  Given fuel for each answer, it returns the fingerprints
    gathered from all the blocks listed, over every answer up to the
    first that announces no more, each request but the first starting at
    the cursor the previous answer named; and what it returns was listed
    so.  Its requests all list the blocks of the page, with no cursor or
    a non-empty one, the first with none; when the first request fails,
    so does the call.  The state files are not touched. *)
Theorem get_existing_page_content_reads w fuel page_id st :
  let r := get_existing_page_content w (S fuel) page_id st in
  let url := children_url page_id in
  let first := GET url [] in
  (∀ page_blocks tr' n,
     listing w url (trace st) None page_blocks tr' n → (n ≤ S fuel)%nat →
     r = (Ok (foldl add_fingerprint ∅ page_blocks), with_trace tr' st)) ∧
  (∀ E st', r = (Ok E, st') →
     ∃ page_blocks n,
       listing w url (trace st) None page_blocks (trace st') n ∧
       (n ≤ S fuel)%nat ∧ E = foldl add_fingerprint ∅ page_blocks) ∧
  (∃ rest, trace (snd r) = trace st ++ first :: rest ∧
           Forall (lists_children page_id) rest) ∧
  (∀ e, w_children w (trace st ++ [first]) = Fails e →
        r = (Raise e, with_trace (trace st ++ [first]) st)) ∧
  last_sync_file (snd r) = last_sync_file st ∧
  synced_items_file (snd r) = synced_items_file st.
Proof.
  cbv zeta. split; [|split].
  - intros page_blocks tr' n Hl Hn. unfold get_existing_page_content.
    fold (children_url page_id).
    exact (listing_complete w _ _ _ _ _ _ Hl (S fuel) ∅ st Hn eq_refl).
  - intros E st' H. unfold get_existing_page_content in H.
    fold (children_url page_id) in H.
    apply listing_sound in H as (bs & n & Hl & Hn & HE & _).
    exists bs, n. auto.
  - unfold get_existing_page_content.
    fold (children_url page_id).
    cbn [get_existing_page_content_loop truthy]. rewrite bind_unfold.
    unfold send at 1 2 3 4.
    destruct (w_children w (trace st ++ [GET (children_url page_id) []]))
      as [a|e] eqn:Ea.
    + split; [|split].
      * destruct (get_existing_page_content_loop w fuel (children_url page_id)
                    (foldl add_fingerprint ∅ (cp_results a))
                    (default false (cp_has_more a)) (cp_next_cursor a)
                    (with_trace (trace st ++ [GET (children_url page_id) []]) st))
          as [o s1] eqn:El.
        destruct (existing_loop_lists w _ _ _ _ _ _ _ _ El) as (new & Hn & Hall).
        exists new. split; [|exact Hall].
        cbn [snd]. rewrite Hn. cbn [trace with_trace].
        rewrite <- app_assoc. reflexivity.
      * discriminate.
      * destruct (get_existing_page_content_loop w fuel (children_url page_id)
                    (foldl add_fingerprint ∅ (cp_results a))
                    (default false (cp_has_more a)) (cp_next_cursor a)
                    (with_trace (trace st ++ [GET (children_url page_id) []]) st))
          as [o s1] eqn:El.
        destruct (net_only_get_existing_loop w _ _ _ _ _ _ _ _ El)
          as (H1 & H2 & _).
        split; assumption.
    + split; [exists []; split; [reflexivity|constructor]|].
      split; [|split; reflexivity].
      intros ? [= <-]. reflexivity.
Qed.

(** X8.  When [get_existing_page_content] returns, the service has
    listed the blocks of the page in this call, and the set returned
    holds the fingerprints of the listed quote blocks whose text is not
    empty, and nothing else; each of its elements is its own normal
    form. *)
Theorem existing_fingerprints_normal w fuel page_id st E st' :
  get_existing_page_content w fuel page_id st = (Ok E, st') →
  ∃ page_blocks n,
    listing w (children_url page_id) (trace st) None page_blocks
      (trace st') n ∧
    (∀ x, x ∈ E ↔
          ∃ b, b ∈ page_blocks ∧ blk_type b = Some "quote" ∧
               quote_text b ≠ "" ∧ x = fingerprint (quote_text b)) ∧
    (∀ x, x ∈ E → normalize_text x = x).
Proof.
  intros H. unfold get_existing_page_content in H.
  fold (children_url page_id) in H.
  apply listing_sound in H as (bs & n & Hl & _ & -> & _).
  exists bs, n. split; [exact Hl|].
  assert (Hq : ∀ x, x ∈ foldl add_fingerprint ∅ bs ↔
                 ∃ b, b ∈ bs ∧ blk_type b = Some "quote" ∧
                      quote_text b ≠ "" ∧ x = fingerprint (quote_text b)).
  { intros x. rewrite quoted_in_fingerprints. unfold quoted_in.
    apply Exists_exists. }
  split; [exact Hq|].
  intros x Hx. apply Hq in Hx as (b & _ & _ & _ & ->).
  apply normalize_text_fixed.
Qed.

(** An instance: the page of the sample world. *)
Lemma existing_fingerprints_normal_witness :
  ∃ page_blocks n,
    listing Sample.world (children_url "page-1") [] None page_blocks
      [GET (children_url "page-1") []] n ∧
    normalize_text "hello world" = "hello world".
Proof.
  assert (H : get_existing_page_content Sample.world 3 "page-1" Sample.st0
              = (Ok ({[ "hello world" ]} : gset string),
                 with_trace [GET (children_url "page-1") []] Sample.st0))
    by (vm_compute; reflexivity).
  assert (Hin : "hello world" ∈ ({[ "hello world" ]} : gset string))
    by (vm_compute; reflexivity).
  destruct (existing_fingerprints_normal _ _ _ _ _ _ H)
    as (page_blocks & n & Hl & _ & Hn).
  exists page_blocks, n. split; [exact Hl|exact (Hn _ Hin)].
Defined.

(** X9.  Appending again appends nothing: when the highlights can be
    sorted and the service lists, for every given highlight, a quote
    block that holds the text stored for the highlight, its first 2000
    characters, and that text is not empty, the call ends normally after
    the listing, without any append request. *)
Theorem append_highlights_again
    w fuel page_id highlights st page_blocks tr1 n :
  unorderable (map sort_key highlights) = false →
  listing w (children_url page_id) (trace st) None page_blocks tr1 n →
  (n ≤ fuel)%nat →
  (∀ h, h ∈ highlights →
        str_take 2000 (highlight_text h) ≠ "" ∧
        ∃ b, b ∈ page_blocks ∧ blk_type b = Some "quote" ∧
             quote_text b = str_take 2000 (highlight_text h)) →
  append_highlights_to_page w fuel page_id highlights st
  = (Ok (), with_trace tr1 st).
Proof.
  intros Hord Hl Hn Hall.
  assert (Hget : get_existing_page_content w fuel page_id st
                 = (Ok (foldl add_fingerprint ∅ page_blocks),
                    with_trace tr1 st)).
  { unfold get_existing_page_content. fold (children_url page_id).
    exact (listing_complete w _ _ _ _ _ _ Hl fuel ∅ st Hn eq_refl). }
  apply (proj2 (append_run w fuel page_id highlights st _ _ Hord Hget)).
  rewrite build_blocks_blocks. apply flat_map_all_nil.
  intros h Hh.
  rewrite (py_sorted_perm highlighted_at highlights) in Hh.
  unfold blocks_for. rewrite decide_True; [reflexivity|].
  destruct (Hall h Hh) as (Hne & b & Hb & Hty & Htext).
  apply quoted_in_fingerprints. unfold quoted_in. apply Exists_exists.
  exists b. split; [exact Hb|]. split; [exact Hty|].
  rewrite Htext. split; [exact Hne|].
  unfold fingerprint. rewrite str_take_take by lia. reflexivity.
Qed.

(** An instance: the duplicate of the quote the sample page holds. *)
Lemma append_highlights_again_witness :
  append_highlights_to_page Sample.world 3 "page-1"
    [{| h_text := Some "Hello world"; h_note := None;
        h_highlighted_at := Missing |}] Sample.st0
  = (Ok (), with_trace [GET (children_url "page-1") []] Sample.st0).
Proof.
  refine (append_highlights_again Sample.world 3 "page-1" _ Sample.st0
            (cp_results Sample.children) _ 1 _ _ _ _).
  - reflexivity.
  - apply (listing_last Sample.world (children_url "page-1") [] None
             Sample.children); reflexivity.
  - lia.
  - intros h Hh. apply list_elem_of_singleton in Hh as ->.
    split; [discriminate|].
    eexists. split; [apply list_elem_of_here|]. split; reflexivity.
Defined.

Lemma filter_length_perm {A} (P : A → Prop) `{∀ x, Decision (P x)} l1 l2 :
  l1 ≡ₚ l2 → length (filter P l1) = length (filter P l2).
Proof. intros Hp. rewrite Hp. reflexivity. Qed.

Lemma highlight_blocks_length l :
  length (flat_map highlight_blocks l)
  = (length l + length (filter (λ h, truthy (h_note h) = true) l))%nat.
Proof.
  induction l as [|h t IH]; [reflexivity|].
  cbn [flat_map]. rewrite length_app, IH, filter_cons.
  unfold highlight_blocks.
  destruct (truthy (h_note h)); repeat case_decide; try congruence;
    simpl; lia.
Qed.

(** X10.  When the highlights can be sorted, the service lists the page
    and accepts what is appended, the call ends normally and the number
    of its append requests is the number of blocks over 100, rounded up,
    the blocks being one for each highlight that is not on the page and
    one more for each of these that has a note; each request holds a
    non-empty chunk of at most 100 blocks. *)
Theorem append_highlights_request_count
    w fuel page_id highlights st page_blocks tr1 n :
  unorderable (map sort_key highlights) = false →
  listing w (children_url page_id) (trace st) None page_blocks tr1 n →
  (n ≤ fuel)%nat →
  (∀ tr, w_append w tr = Answer ()) →
  let fresh := filter (λ h, ¬ on_page page_blocks h) highlights in
  let noted := filter (λ h, truthy (h_note h) = true) fresh in
  ∃ writes,
    append_highlights_to_page w fuel page_id highlights st
    = (Ok (), with_trace (tr1 ++ writes) st) ∧
    Forall (appends_chunk page_id) writes ∧
    length writes = Nat.div (length fresh + length noted + 99) 100.
Proof.
  intros Hord Hl Hn Hacc. cbv zeta.
  eexists. split; [exact (append_total w fuel page_id highlights st
                            page_blocks tr1 n Hord Hl Hn Hacc)|].
  split.
  - rewrite <- (firstn_all (py_chunks 100 _)). apply chunk_requests_append.
  - rewrite length_map. unfold py_chunks, py_range.
    rewrite !length_map, length_seq. f_equal.
    rewrite blocks_on_fresh, highlight_blocks_length.
    pose proof (py_sorted_perm highlighted_at highlights) as Hp.
    rewrite (filter_length_perm _ _ _
               (filter_Permutation _ _ _ Hp)).
    rewrite (filter_length_perm _ _ _ Hp). lia.
Qed.

(** An instance: one new highlight with a note gives two blocks, sent in
    one request. *)
Lemma append_highlights_request_count_witness :
  ∃ writes,
    append_highlights_to_page Sample.world 3 "page-1"
      [Sample.h_dup; Sample.h_new] Sample.st0
    = (Ok (),
       with_trace ([GET (children_url "page-1") []] ++ writes) Sample.st0) ∧
    length writes = 1%nat.
Proof.
  destruct (append_highlights_request_count Sample.world 3 "page-1"
              [Sample.h_dup; Sample.h_new] Sample.st0
              (cp_results Sample.children)
              [GET (children_url "page-1") []] 1)
    as (writes & Hrun & _ & Hlen).
  - reflexivity.
  - apply (listing_last Sample.world (children_url "page-1") [] None
             Sample.children); reflexivity.
  - lia.
  - reflexivity.
  - exists writes. split; [exact Hrun|]. rewrite Hlen. vm_compute. reflexivity.
Defined.

(** X11.  [append_highlights_to_page] touches the blocks of its page only,
    and reads before it writes: it first lists the blocks, then sends
    append requests, each with a non-empty chunk of at most 100 blocks.
    The state files are not touched. *)
Theorem append_highlights_requests w fuel page_id highlights st :
  let r := append_highlights_to_page w fuel page_id highlights st in
  ∃ reads writes,
    trace (snd r) = trace st ++ reads ++ writes ∧
    Forall (lists_children page_id) reads ∧
    Forall (appends_chunk page_id) writes ∧
    Forall (λ req, request_url req = children_url page_id) (reads ++ writes) ∧
    (writes ≠ [] →
       ∃ E st1, get_existing_page_content w fuel page_id st = (Ok E, st1) ∧
                trace st1 = trace st ++ reads) ∧
    last_sync_file (snd r) = last_sync_file st ∧
    synced_items_file (snd r) = synced_items_file st.
Proof.
  cbv zeta.
  assert (Hfiles : last_sync_file
                     (snd (append_highlights_to_page w fuel page_id highlights st))
                   = last_sync_file st ∧
                   synced_items_file
                     (snd (append_highlights_to_page w fuel page_id highlights st))
                   = synced_items_file st).
  { destruct (append_highlights_to_page w fuel page_id highlights st)
      as [o s] eqn:E.
    destruct (net_only_append w fuel page_id highlights _ _ _ E) as (H1 & H2 & _).
    split; assumption. }
  assert (Hurl : ∀ reads writes,
            Forall (lists_children page_id) reads →
            Forall (appends_chunk page_id) writes →
            Forall (λ req, request_url req = children_url page_id)
              (reads ++ writes)).
  { intros reads writes Hr Hw. apply Forall_app. split.
    - eapply Forall_impl; [exact Hr|].
      intros req [->|(c & _ & ->)]; reflexivity.
    - eapply Forall_impl; [exact Hw|]. intros req (c & -> & _). reflexivity. }
  destruct (unorderable (map sort_key highlights)) eqn:Hord.
  { rewrite (append_unorderable w fuel page_id highlights st Hord) in *.
    exists [], []. cbn [snd app]. rewrite app_nil_r.
    split; [reflexivity|]. split; [constructor|]. split; [constructor|].
    split; [constructor|]. split; [intros Hw; contradiction|]. exact Hfiles. }
  destruct (get_existing_page_content w fuel page_id st) as [o s1] eqn:Eg.
  pose proof (existing_loop_lists w fuel page_id ∅ true None _ _ _ Eg)
    as (reads & Hreads & Hall).
  pose proof (Hurl reads [] Hall (Forall_nil_2 _)) as Hurl0.
  destruct o as [E|e|].
  - destruct (append_run w fuel page_id highlights st E s1 Hord Eg)
      as [(k & Htr & Hk) Hnil].
    cbv zeta in Htr, Hk, Hnil.
    eexists reads, _. split; [|split; [exact Hall|split; [|split; [|split]]]].
    + rewrite Htr, Hreads, <- app_assoc. reflexivity.
    + apply chunk_requests_append.
    + apply Hurl; [exact Hall|apply chunk_requests_append].
    + intros _. exists E, s1. split; [reflexivity|exact Hreads].
    + exact Hfiles.
  - unfold append_highlights_to_page in *.
    rewrite bind_unfold, sorted_highlights_run, Hord, bind_unfold, Eg in *.
    exists reads, []. rewrite app_nil_r.
    split; [exact Hreads|]. split; [exact Hall|]. split; [constructor|].
    split; [rewrite app_nil_r in Hurl0; exact Hurl0|].
    split; [intros Hw; contradiction|]. exact Hfiles.
  - unfold append_highlights_to_page in *.
    rewrite bind_unfold, sorted_highlights_run, Hord, bind_unfold, Eg in *.
    exists reads, []. rewrite app_nil_r.
    split; [exact Hreads|]. split; [exact Hall|]. split; [constructor|].
    split; [rewrite app_nil_r in Hurl0; exact Hurl0|].
    split; [intros Hw; contradiction|]. exact Hfiles.
Qed.

(** ** Creating a page *)

Lemma category_lookup k :
  default "Books" (CATEGORY_MAP !! k)
  = if decide (k = "articles") then "Articles"
    else if decide (k = "tweets") then "Quote"
    else if decide (k = "podcasts") then "Podcast"
    else if decide (k = "supplementals") then "Articles"
    else "Books".
Proof.
  unfold CATEGORY_MAP. cbn [list_to_map foldr fst snd].
  rewrite !lookup_insert, lookup_empty.
  repeat case_decide; subst; try reflexivity; try congruence.
Qed.

(** X12.  The page [create_notion_page] asks for has the properties
    [Title], [Author], [Category], [Highlights], [Status] and
    [Last Synced], then [URL] unless the item id is 0, then
    [Last Highlighted] when the item has such a date; an item without
    title is called "Untitled"; [cover] and [icon] are both present, with
    the same image, when the item has a cover, and both absent
    otherwise. *)
Theorem create_notion_page_payload cfg current_time book :
  let payload := create_payload cfg current_time book in
  let props := payload_properties payload in
  dict_keys props
  = ["Title"; "Author"; "Category"; "Highlights"; "Status"; "Last Synced"]
    ++ (if Z.eqb (b_id book) 0 then [] else ["URL"])
    ++ (if truthy (b_last_highlight_at book) then ["Last Highlighted"] else []) ∧
  json_get "parent" payload
  = Some (JObj [("database_id", JStr (NOTION_DATABASE_ID cfg))]) ∧
  json_get "Title" (JObj props)
  = Some (JObj [("title",
        JArr [JObj [("text", JObj [("content", JStr (title_of book))])]])]) ∧
  (b_title book = None → title_of book = "Untitled") ∧
  json_get "Status" (JObj props)
  = Some (JObj [("status", JObj [("name", JStr "Not started")])]) ∧
  json_get "cover" payload = json_get "icon" payload ∧
  json_get "cover" payload
  = (if truthy (b_cover_image_url book)
     then Some (external_image (default "" (b_cover_image_url book)))
     else None).
Proof.
  cbv zeta. unfold create_payload, payload_properties.
  destruct (Z.eqb (b_id book) 0); destruct (truthy (b_last_highlight_at book));
    destruct (truthy (b_cover_image_url book));
    cbn [negb dict_set String.eqb Ascii.eqb Bool.eqb json_get List.find fst snd
         fmap option_fmap option_map dict_keys map app];
    repeat split; try reflexivity; intros H; unfold title_of; rewrite H;
    reflexivity.
Qed.

(** X13.  The category of a created page is one of four names: the
    Readwise category is looked up without regard to case, [tweets]
    become [Quote], [podcasts] [Podcast], [articles] and [supplementals]
    [Articles], and everything else, a missing category included,
    [Books]. *)
Theorem create_notion_page_category cfg current_time book :
  let props := payload_properties (create_payload cfg current_time book) in
  let key := str_lower (default "books" (b_category book)) in
  ∃ name,
    json_get "Category" (JObj props) = Some (select_name name) ∧
    name ∈ ["Books"; "Articles"; "Quote"; "Podcast"] ∧
    (key = "articles" ∨ key = "supplementals" → name = "Articles") ∧
    (key = "tweets" → name = "Quote") ∧
    (key = "podcasts" → name = "Podcast") ∧
    (key ∉ ["articles"; "supplementals"; "tweets"; "podcasts"] →
     name = "Books") ∧
    (b_category book = None → name = "Books").
Proof.
  cbv zeta.
  exists (default "Books"
            (CATEGORY_MAP !! str_lower (default "books" (b_category book)))).
  split.
  - unfold create_payload, payload_properties.
    destruct (Z.eqb (b_id book) 0); destruct (truthy (b_last_highlight_at book));
      destruct (truthy (b_cover_image_url book)); reflexivity.
  - rewrite category_lookup.
    split; [repeat case_decide; set_solver|].
    split; [intros [H|H]; rewrite H; reflexivity|].
    split; [intros H; rewrite H; reflexivity|].
    split; [intros H; rewrite H; reflexivity|].
    split.
    + intros H. repeat case_decide; try reflexivity; exfalso; apply H;
        set_solver.
    + intros ->. reflexivity.
Qed.

(** X14.  What [update_notion_page] writes is what [create_notion_page]
    would write at the same time: every property of the update payload
    has the same value in the create payload, and so have [cover] and
    [icon]. *)
Theorem update_agrees_with_create cfg current_time book :
  let created := create_payload cfg current_time book in
  let updated := update_payload current_time book in
  (∀ k, k ∈ dict_keys (payload_properties updated) →
        json_get k (JObj (payload_properties created))
        = json_get k (JObj (payload_properties updated))) ∧
  json_get "cover" created = json_get "cover" updated ∧
  json_get "icon" created = json_get "icon" updated.
Proof.
  cbv zeta. unfold create_payload, update_payload, payload_properties.
  destruct (Z.eqb (b_id book) 0); destruct (truthy (b_last_highlight_at book));
    destruct (truthy (b_cover_image_url book));
    cbn [negb dict_set String.eqb Ascii.eqb Bool.eqb json_get List.find fst snd
         fmap option_fmap option_map dict_keys map app];
    (split; [|split; reflexivity]);
    intros k Hk; repeat (apply elem_of_cons in Hk as [->|Hk]; [reflexivity|]);
    inversion Hk.
Qed.

(** ** The CREATE path and the counters *)

Section Paths.

Context (cfg : Config) (w : World).

Lemma create_notion_page_run book st :
  let req := create_request cfg (w_utcnow w (trace st)) book in
  create_notion_page cfg w book st
  = match w_page w (trace st ++ [req]) with
    | Answer pg => (Ok pg, with_trace (trace st ++ [req]) st)
    | Fails e => (Raise e, with_trace (trace st ++ [req]) st)
    end.
Proof. reflexivity. Qed.

(** What the CREATE path does, step by step. *)
Lemma create_path_run fuel self pages book acc st :
  pages !! title_of book = None →
  b_id book ∉ synced_items self →
  let crt := create_request cfg (w_utcnow w (trace st)) book in
  let fetch := highlights_request (b_id book) None in
  let st1 := with_trace (trace st ++ [crt]) st in
  let st2 := with_trace (trace st ++ [crt; fetch]) st in
  full_sync_item cfg w fuel self pages book acc st
  = match w_page w (trace st ++ [crt]) with
    | Fails e => (Raise e, st1)
    | Answer new_page =>
        if (0 <? default 0 (b_num_highlights book))%Z
        then match w_highlights w (trace st ++ [crt; fetch]) with
             | Fails e => (Raise e, st2)
             | Answer highlights =>
                 (_ ← append_highlights_to_page w fuel (p_id new_page) highlights;
                  mret (count_created book acc)) st2
             end
        else (Ok (count_created book acc), st1)
    end.
Proof.
  intros Hpage Hid. cbv zeta. unfold full_sync_item. rewrite Hpage.
  rewrite decide_False by exact Hid.
  rewrite bind_unfold, create_notion_page_run. cbv zeta.
  destruct (w_page w _) as [pg|e]; [|reflexivity].
  destruct (Z.ltb _ _); [|reflexivity].
  rewrite bind_unfold, get_highlights_run. cbv zeta.
  cbn [trace with_trace]. rewrite <- app_assoc. cbn [app].
  destruct (w_highlights w _) as [hs|e]; reflexivity.
Qed.

(** The counters after one item. *)
Lemma item_counters fuel self pages book acc st acc' st' :
  full_sync_item cfg w fuel self pages book acc st = (Ok acc', st') →
  acc' = if decide (takes_update pages book) then count_updated book acc
         else if decide (takes_skip self pages book) then count_skipped acc
         else count_created book acc.
Proof.
  unfold full_sync_item.
  destruct (pages !! title_of book) as [page|] eqn:Hp.
  - rewrite decide_True
      by (unfold takes_update; rewrite Hp; eexists; reflexivity).
    intros H. apply bind_Ok_inv in H as (pg & s1 & _ & H).
    destruct (get_or _ _); [|discriminate].
    destruct (Z.ltb _ _).
    + apply bind_Ok_inv in H as (hs & s2 & _ & H).
      destruct hs.
      * injection H as <- _. reflexivity.
      * apply bind_Ok_inv in H as (u & s3 & _ & H).
        injection H as <- _. reflexivity.
    + injection H as <- _. reflexivity.
  - rewrite (decide_False (P := takes_update pages book))
      by (unfold takes_update; rewrite Hp; intros [x Hx]; discriminate).
    destruct (decide (b_id book ∈ synced_items self)) as [Hin|Hnin].
    + rewrite (decide_True (P := takes_skip self pages book))
        by (split; assumption).
      intros [= <- _]. reflexivity.
    + rewrite (decide_False (P := takes_skip self pages book))
        by (intros [_ Hin]; contradiction).
      intros H. apply bind_Ok_inv in H as (pg & s1 & _ & H).
      destruct (Z.ltb _ _).
      * apply bind_Ok_inv in H as (hs & s2 & _ & H).
        apply bind_Ok_inv in H as (u & s3 & _ & H).
        injection H as <- _. reflexivity.
      * injection H as <- _. reflexivity.
Qed.

End Paths.

(** X15.  For an item without page whose id was never synced, the
    request that creates the page is sent first.  When it succeeds and
    the item has highlights, all its highlights are requested, without
    time filter whatever [last_sync_time] is, and
    [append_highlights_to_page] runs on the page just created, also when
    no highlight came back; an item without highlights is done after the
    creation. *)
Theorem full_sync_create_path cfg w fuel self pages book acc st :
  pages !! title_of book = None →
  b_id book ∉ synced_items self →
  let crt := create_request cfg (w_utcnow w (trace st)) book in
  let fetch := GET (READWISE_API_BASE +:+ "/highlights/")
                   [("book_id", JNum (b_id book))] in
  let st1 := with_trace (trace st ++ [crt]) st in
  let st2 := with_trace (trace st ++ [crt; fetch]) st in
  let r := full_sync_item cfg w fuel self pages book acc st in
  (∃ rest, trace (snd r) = trace st ++ crt :: rest) ∧
  (∀ e, w_page w (trace st ++ [crt]) = Fails e → r = (Raise e, st1)) ∧
  (∀ new_page, w_page w (trace st ++ [crt]) = Answer new_page →
     ((default 0 (b_num_highlights book) ≤ 0)%Z →
        r = (Ok (count_created book acc), st1)) ∧
     ((0 < default 0 (b_num_highlights book))%Z →
        (∀ e, w_highlights w (trace st ++ [crt; fetch]) = Fails e →
              r = (Raise e, st2)) ∧
        (∀ highlights,
           w_highlights w (trace st ++ [crt; fetch]) = Answer highlights →
           r = (_ ← append_highlights_to_page w fuel (p_id new_page) highlights;
                mret (count_created book acc)) st2))).
Proof.
  intros Hpage Hid. cbv zeta.
  assert (Hgrow : ∃ new,
            trace (snd (full_sync_item cfg w fuel self pages book acc st))
            = trace st ++ new).
  { destruct (full_sync_item cfg w fuel self pages book acc st) as [o s] eqn:E.
    destruct (net_only_item cfg w _ _ _ _ _ _ _ _ E) as (_ & _ & _ & new & Hn).
    exists new. exact Hn. }
  destruct Hgrow as [new Hnew].
  rewrite (create_path_run cfg w fuel self pages book acc st Hpage Hid) in *.
  cbv zeta in *. change (highlights_request (b_id book) None)
    with (GET (READWISE_API_BASE +:+ "/highlights/")
              [("book_id", JNum (b_id book))]) in *.
  set (crt := create_request cfg (w_utcnow w (trace st)) book) in *.
  set (fetch := GET (READWISE_API_BASE +:+ "/highlights/")
                    [("book_id", JNum (b_id book))]) in *.
  split.
  - destruct (w_page w (trace st ++ [crt])) as [pg|e];
      [|exists []; reflexivity].
    destruct (Z.ltb _ _); [|exists []; reflexivity].
    destruct (w_highlights w (trace st ++ [crt; fetch])) as [hs|e].
    + destruct ((_ ← append_highlights_to_page w fuel (p_id pg) hs;
                 mret (count_created book acc))
                  (with_trace (trace st ++ [crt; fetch]) st)) as [o s] eqn:E.
      assert (Hnet : net_only
                (_ ← append_highlights_to_page w fuel (p_id pg) hs;
                 mret (count_created book acc) : M counters)).
      { apply net_only_bind; [apply net_only_append|].
        intros ?. apply net_only_ret. }
      destruct (Hnet _ _ _ E) as (_ & _ & _ & more & Hmore).
      exists (fetch :: more). cbn [snd]. rewrite Hmore. cbn [trace with_trace].
      rewrite <- app_assoc. reflexivity.
    + exists [fetch]. reflexivity.
  - split.
    + intros e ->. reflexivity.
    + intros pg ->. split.
      * intros Hle. destruct (Z.ltb_spec 0 (default 0%Z (b_num_highlights book)));
          [lia|reflexivity].
      * intros Hlt. destruct (Z.ltb_spec 0 (default 0%Z (b_num_highlights book)));
          [|lia].
        split; [intros e ->; reflexivity|intros hs ->; reflexivity].
Qed.

(** An instance: item 43 of the busy world is new and has no highlight. *)
Lemma full_sync_create_path_witness :
  Sample.pages !! title_of (Sample.book 43 "New" 0) = None ∧
  (b_id (Sample.book 43 "New" 0) ∉ synced_items Sample.self0) ∧
  ∃ rest,
    trace (snd (full_sync_item Sample.cfg Sample.busy_world 3 Sample.self0
                  Sample.pages (Sample.book 43 "New" 0) no_counts Sample.st0))
    = create_request Sample.cfg "2024-05-01T10:00:00.000000"
        (Sample.book 43 "New" 0) :: rest.
Proof.
  assert (H1 : Sample.pages !! title_of (Sample.book 43 "New" 0) = None)
    by (vm_compute; reflexivity).
  assert (H2 : b_id (Sample.book 43 "New" 0) ∉ synced_items Sample.self0)
    by (vm_compute; discriminate).
  split; [exact H1|]. split; [exact H2|].
  exact (proj1 (full_sync_create_path Sample.cfg Sample.busy_world 3
                  Sample.self0 Sample.pages (Sample.book 43 "New" 0) no_counts
                  Sample.st0 H1 H2)).
Defined.

(** An item takes exactly one of the three paths. *)
Lemma path_cases self pages b :
  (takes_update pages b ∧ ¬ takes_skip self pages b
   ∧ ¬ takes_create self pages b) ∨
  (¬ takes_update pages b ∧ takes_skip self pages b
   ∧ ¬ takes_create self pages b) ∨
  (¬ takes_update pages b ∧ ¬ takes_skip self pages b
   ∧ takes_create self pages b).
Proof.
  unfold takes_update, takes_skip, takes_create.
  destruct (pages !! title_of b) as [pg|];
    destruct (decide (b_id b ∈ synced_items self)) as [Hin|Hin].
  - left. split; [eexists; reflexivity|]. split; intros [? ?]; discriminate.
  - left. split; [eexists; reflexivity|]. split; intros [? ?]; discriminate.
  - right. left. split; [intros [? ?]; discriminate|]. split; [auto|].
    intros [_ ?]. contradiction.
  - right. right. split; [intros [? ?]; discriminate|]. split; [|auto].
    intros [_ ?]. contradiction.
Qed.

(** X16.  When the loop of [full_sync] ends normally, each item was
    counted once: as created when it had no page and its id was never
    synced, as updated when it had a page, as skipped otherwise; and the
    ids gathered are those of the created and updated items, one per
    item, in order. *)
Theorem full_sync_loop_counts cfg w fuel self pages books acc st acc' st' :
  for_each (full_sync_item cfg w fuel self pages) books acc st = (Ok acc', st') →
  created_count acc'
  = (created_count acc + length (filter (takes_create self pages) books))%nat ∧
  updated_count acc'
  = (updated_count acc + length (filter (takes_update pages) books))%nat ∧
  skipped_count acc'
  = (skipped_count acc + length (filter (takes_skip self pages) books))%nat ∧
  synced_ids acc'
  = synced_ids acc
    ++ map b_id (filter (λ b, ¬ takes_skip self pages b) books) ∧
  (length (filter (takes_create self pages) books)
   + length (filter (takes_update pages) books)
   + length (filter (takes_skip self pages) books) = length books)%nat.
Proof.
  revert acc st. induction books as [|b t IH]; intros acc st.
  - intros [= <- _]. simpl. rewrite app_nil_r. repeat split; lia.
  - cbn [for_each]. intros H.
    apply bind_Ok_inv in H as (a1 & s1 & Hb & Ht).
    destruct (IH _ _ Ht) as (Hc & Hu & Hs & Hids & Hlen).
    apply item_counters in Hb.
    rewrite Hc, Hu, Hs, Hids, !filter_cons. clear IH Ht Hc Hu Hs Hids.
    subst a1.
    destruct (path_cases self pages b) as [(U & S & C)|[(U & S & C)|(U & S & C)]].
    + rewrite !(decide_True (P := takes_update pages b)) by exact U.
      rewrite !(decide_False (P := takes_skip self pages b)) by exact S.
      rewrite !(decide_False (P := takes_create self pages b)) by exact C.
      rewrite !(decide_True (P := ¬ takes_skip self pages b)) by exact S.
      cbn [created_count updated_count skipped_count synced_ids
           count_updated length map].
      rewrite <- ?app_assoc. repeat split; try reflexivity; lia.
    + rewrite !(decide_False (P := takes_update pages b)) by exact U.
      rewrite !(decide_True (P := takes_skip self pages b)) by exact S.
      rewrite !(decide_False (P := takes_create self pages b)) by exact C.
      rewrite !(decide_False (P := ¬ takes_skip self pages b)) by tauto.
      cbn [created_count updated_count skipped_count synced_ids
           count_skipped length map].
      repeat split; try reflexivity; lia.
    + rewrite !(decide_False (P := takes_update pages b)) by exact U.
      rewrite !(decide_False (P := takes_skip self pages b)) by exact S.
      rewrite !(decide_True (P := takes_create self pages b)) by exact C.
      rewrite !(decide_True (P := ¬ takes_skip self pages b)) by exact S.
      cbn [created_count updated_count skipped_count synced_ids
           count_created length map].
      rewrite <- ?app_assoc. repeat split; try reflexivity; lia.
Qed.

(** An instance: the three items of the busy world. *)
Lemma full_sync_loop_counts_witness :
  ∃ acc' st',
    for_each (full_sync_item Sample.cfg Sample.busy_world 3 Sample.self0
                Sample.pages)
      [Sample.book 7 "Gone" 2; Sample.book 42 "T" 5; Sample.book 43 "New" 0]
      no_counts Sample.st0 = (Ok acc', st') ∧
    created_count acc' = 1%nat ∧ updated_count acc' = 1%nat ∧
    skipped_count acc' = 1%nat ∧ synced_ids acc' = [42%Z; 43%Z].
Proof.
  assert (H : for_each (full_sync_item Sample.cfg Sample.busy_world 3
                          Sample.self0 Sample.pages)
                [Sample.book 7 "Gone" 2; Sample.book 42 "T" 5;
                 Sample.book 43 "New" 0] no_counts Sample.st0
              = (Ok {| created_count := 1; updated_count := 1;
                       skipped_count := 1; synced_ids := [42%Z; 43%Z] |},
                 snd (for_each (full_sync_item Sample.cfg Sample.busy_world 3
                                  Sample.self0 Sample.pages)
                        [Sample.book 7 "Gone" 2; Sample.book 42 "T" 5;
                         Sample.book 43 "New" 0] no_counts Sample.st0)))
    by (vm_compute; reflexivity).
  eexists _, _. split; [exact H|].
  pose proof (full_sync_loop_counts _ _ _ _ _ _ _ _ _ _ H) as Hc.
  clear Hc. repeat split; reflexivity.
Defined.

(** ** The whole run *)

Lemma prefix_app s t : String.prefix s (s +:+ t) = true.
Proof.
  induction s as [|a s IH]; simpl; [destruct t; reflexivity|].
  destruct (Ascii.ascii_dec a a); [exact IH|contradiction].
Qed.

Lemma get_is_harmless req : is_get req → reads_or_writes_notion req.
Proof. destruct req; simpl; tauto. Qed.

Section Run.

Context (cfg : Config) (w : World).

Lemma books_get fuel after :
  sends_only is_get (get_readwise_books w fuel after).
Proof.
  intros st r st' H. rewrite get_readwise_books_split in H. cbv zeta in H.
  revert H. apply sends_only_bind; [apply books_loop_get|].
  intros all_books. destruct (_ && _); [destruct (Nat.ltb _ _)|];
    apply sends_only_ret.
Qed.

Lemma batch_search_notion (titles : list string) :
  sends_only reads_or_writes_notion (batch_search_notion_pages cfg w titles).
Proof.
  unfold batch_search_notion_pages.
  destruct titles as [|t ts]; [apply sends_only_ret|].
  apply sends_only_for_each. intros batch all_pages. cbv zeta.
  apply sends_only_bind; [|intros; apply sends_only_ret].
  apply sends_only_send. apply prefix_app.
Qed.

Lemma append_notion fuel page_id highlights :
  sends_only reads_or_writes_notion
    (append_highlights_to_page w fuel page_id highlights).
Proof.
  unfold append_highlights_to_page. cbv zeta.
  apply sends_only_bind.
  { unfold sorted_highlights. cbv zeta.
    destruct (unorderable _); [apply sends_only_raise|apply sends_only_ret]. }
  intros highlights_sorted. apply sends_only_bind.
  - eapply sends_only_impl; [|apply existing_loop_lists].
    intros req [->|(c & _ & ->)]; exact I.
  - intros E. destruct (Nat.eqb _ _); [apply sends_only_ret|].
    apply sends_only_for_each. intros chunk [].
    apply sends_only_send. apply prefix_app.
Qed.

Lemma highlights_get book_id after :
  sends_only reads_or_writes_notion (get_highlights_for_book w book_id after).
Proof. apply sends_only_send. exact I. Qed.

Lemma update_notion page_id book :
  sends_only reads_or_writes_notion (update_notion_page w page_id book).
Proof.
  unfold update_notion_page. cbv zeta.
  apply sends_only_bind; [apply sends_only_get_trace|].
  intros tr. apply sends_only_send. apply prefix_app.
Qed.

Lemma create_notion book :
  sends_only reads_or_writes_notion (create_notion_page cfg w book).
Proof.
  unfold create_notion_page. cbv zeta.
  apply sends_only_bind; [apply sends_only_get_trace|].
  intros tr. apply sends_only_send. apply prefix_app.
Qed.

Lemma item_notion fuel self pages book acc :
  sends_only reads_or_writes_notion
    (full_sync_item cfg w fuel self pages book acc).
Proof.
  unfold full_sync_item. cbv zeta.
  destruct (pages !! title_of book) as [page|].
  - apply sends_only_bind; [apply update_notion|]. intros _.
    destruct (get_or _ _); [|apply sends_only_raise].
    destruct (Z.ltb _ _); [|apply sends_only_ret].
    apply sends_only_bind; [apply highlights_get|].
    intros [|h hs]; [apply sends_only_ret|].
    apply sends_only_bind; [apply append_notion|].
    intros _. apply sends_only_ret.
  - destruct (decide _); [apply sends_only_ret|].
    apply sends_only_bind; [apply create_notion|]. intros new_page.
    destruct (Z.ltb _ _); [|apply sends_only_ret].
    apply sends_only_bind; [apply highlights_get|]. intros hs.
    apply sends_only_bind; [apply append_notion|].
    intros _. apply sends_only_ret.
Qed.

Lemma save_synced_items_silent P self ids :
  sends_only P (save_synced_items self ids).
Proof.
  intros st r st' [= <- <-]. exists []. split; [|constructor].
  symmetry. apply app_nil_r.
Qed.

Lemma save_last_sync_time_silent P : sends_only P (save_last_sync_time w).
Proof.
  intros st r st' [= <- <-]. exists []. split; [|constructor].
  symmetry. apply app_nil_r.
Qed.

(** What [full_sync] does with the items it fetched. *)
Lemma full_sync_tail_notion fuel self (books : list Book) :
  sends_only reads_or_writes_notion
    (if Nat.eqb (length books) 0 then mret self
     else
       existing_pages_map ← batch_search_notion_pages cfg w (map title_of books);
       acc ← for_each (full_sync_item cfg w fuel self existing_pages_map) books
               no_counts;
       self ← save_synced_items self (synced_ids acc);
       _ ← save_last_sync_time w;
       mret self).
Proof.
  destruct (Nat.eqb _ _); [apply sends_only_ret|].
  apply sends_only_bind; [apply batch_search_notion|]. intros pages.
  apply sends_only_bind;
    [apply sends_only_for_each; intros; apply item_notion|]. intros acc.
  apply sends_only_bind; [apply save_synced_items_silent|]. intros s.
  apply sends_only_bind; [apply save_last_sync_time_silent|]. intros _.
  apply sends_only_ret.
Qed.

(** The first request of [get_readwise_books]. *)
Lemma books_loop_first fuel u params all_books st :
  u ≠ "" →
  ∃ urls,
    trace (snd (get_readwise_books_loop w (S fuel) (Some u) params all_books st))
    = trace st ++ GET u params :: map (λ u, GET u []) urls.
Proof.
  intros Hu. cbn [get_readwise_books_loop truthy].
  destruct (String.eqb_spec u ""); [contradiction|]. cbn [negb].
  rewrite bind_unfold. change (default "" (Some u)) with u.
  destruct (send (w_books w) (GET u params) st) as [[data|e|] s1] eqn:Es;
    unfold send in Es; destruct (w_books w _) as [a|e']; inversion Es; subst.
  - destruct (books_loop_requests w fuel (snd data) [] (all_books ++ fst data)
                (with_trace (trace st ++ [GET u params]) st))
      as (urls & Htr & _).
    exists urls. rewrite Htr. cbn [trace with_trace].
    rewrite <- app_assoc. cbn [app]. destruct urls; reflexivity.
  - exists []. reflexivity.
Qed.

Lemma books_first_request fuel after st :
  ∃ rest,
    trace (snd (get_readwise_books w (S fuel) after st))
    = trace st
      ++ GET (READWISE_API_BASE +:+ "/books/") (books_params after) :: rest.
Proof.
  rewrite get_readwise_books_split. cbv zeta. rewrite bind_unfold.
  destruct (books_loop_first fuel (READWISE_API_BASE +:+ "/books/")
              (books_params after) [] st) as (urls & Htr); [discriminate|].
  exists (map (λ u, GET u []) urls).
  destruct (get_readwise_books_loop w (S fuel) _ _ _ st) as [[l|e|] s1];
    cbn [snd] in Htr |- *; [|exact Htr..].
  destruct (_ && _); [destruct (Nat.ltb _ _)|]; exact Htr.
Qed.

(** [main] up to the call of [full_sync], when the credentials are set. *)
Lemma main_body_run fuel args st :
  credentials_missing cfg = false →
  ∃ lines,
    main_body cfg w fuel args st
    = (_ ← full_sync cfg w fuel
             {| last_sync_time := chosen_since cfg w args st;
                synced_items := default ∅ (synced_items_file st) |};
       print (nl +:+ "✅ Sync completed successfully!"))
        (with_console (console st ++ lines) st).
Proof.
  unfold credentials_missing. intros H.
  apply orb_false_elim in H as [H E3]. apply orb_false_elim in H as [E1 E2].
  unfold main_body, chosen_since. rewrite E1, E2, E3.
  unfold init, load_last_sync_time, load_synced_items, print, get_trace,
    set_last_sync_time.
  destruct (args_all args);
    [|destruct (negb _); [|destruct (Z.ltb _ _)]];
    unfold with_console;
    repeat first
      [ rewrite bind_unfold
      | progress unfold mret, M_ret
      | progress cbv beta iota
      | progress cbn [console trace last_sync_file synced_items_file
                      synced_items last_sync_time] ];
    rewrite <- ?app_assoc; eexists; reflexivity.
Qed.

End Run.

(** X17.  Readwise is only read: every request of [full_sync] is a GET,
    or a POST or PATCH whose address starts with the address of the
    Notion API. *)
Theorem full_sync_readwise_read_only cfg w fuel self :
  sends_only reads_or_writes_notion (full_sync cfg w fuel self).
Proof.
  unfold full_sync. apply sends_only_bind.
  - eapply sends_only_impl; [exact get_is_harmless|apply books_get].
  - intros books. apply full_sync_tail_notion.
Qed.

(** X18.  What a run saves is what the next run loads: after a run of
    [full_sync] that ended normally on at least one item, [__init__]
    gives an object whose [last_sync_time] is the time of the end of the
    run, with a [Z], and whose [synced_items] is the set the run ended
    with. *)
Theorem saved_state_loaded_next cfg w fuel self st s' st' books st1 :
  full_sync cfg w fuel self st = (Ok s', st') →
  get_readwise_books w fuel (last_sync_time self) st = (Ok books, st1) →
  books ≠ [] →
  init st'
  = (Ok {| last_sync_time := Some (w_utcnow w (trace st') +:+ "Z");
           synced_items := synced_items s' |}, st').
Proof.
  rewrite full_sync_run. intros H E1 Hne. rewrite E1 in H.
  destruct books as [|b t]; [congruence|]. cbn [length Nat.eqb] in H.
  destruct (batch_search_notion_pages cfg w _ st1) as [[pages|e|] st2];
    [|discriminate..].
  destruct (for_each _ _ _ st2) as [[acc|e|] st3]; [|discriminate..].
  cbv zeta in H. injection H as <- <-. reflexivity.
Qed.

(** An instance: the run of the sample syncer. *)
Lemma saved_state_loaded_next_witness :
  ∃ s' st',
    full_sync Sample.cfg Sample.busy_world 3 Sample.self0 Sample.st0 = (Ok s', st') ∧
    init st'
    = (Ok {| last_sync_time := Some "2024-05-01T10:00:00.000000Z";
             synced_items := synced_items s' |}, st').
Proof.
  eexists. eexists.
  assert (H : full_sync Sample.cfg Sample.busy_world 3 Sample.self0 Sample.st0
              = (Ok (match fst (full_sync Sample.cfg Sample.busy_world 3
                                  Sample.self0 Sample.st0) with
                     | Ok s => s | _ => Sample.self0 end),
                 snd (full_sync Sample.cfg Sample.busy_world 3 Sample.self0
                        Sample.st0)))
    by (vm_compute; reflexivity).
  split; [exact H|].
  assert (E1 : get_readwise_books Sample.busy_world 3 (last_sync_time Sample.self0)
                 Sample.st0
               = (Ok (match fst (get_readwise_books Sample.busy_world 3
                                   (last_sync_time Sample.self0) Sample.st0) with
                      | Ok l => l | _ => [] end),
                  snd (get_readwise_books Sample.busy_world 3
                         (last_sync_time Sample.self0) Sample.st0)))
    by (vm_compute; reflexivity).
  refine (saved_state_loaded_next Sample.cfg Sample.busy_world 3 Sample.self0
            Sample.st0 _ _ _ _ H E1 _).
  vm_compute. discriminate.
Defined.

(** X19.  While one of the three credentials has its placeholder value,
    [main] prints two lines and returns: it sends no request and leaves
    both state files alone, whatever the arguments. *)
Theorem main_missing_credentials cfg w fuel args st :
  credentials_missing cfg = true →
  ∃ line1 line2,
    main cfg w fuel args st
    = (Ok (), with_console (console st ++ [Stdout line1; Stdout line2]) st).
Proof.
  unfold credentials_missing, main, try_except, main_body. intros H.
  destruct (String.eqb (READWISE_API_TOKEN cfg) _);
    [|destruct (String.eqb (NOTION_API_TOKEN cfg) _);
      [|destruct (String.eqb (NOTION_DATABASE_ID cfg) _); [|discriminate H]]];
    rewrite bind_unfold; unfold print, with_console;
    cbn [console trace last_sync_file synced_items_file];
    rewrite <- app_assoc; eexists; eexists; reflexivity.
Qed.

(** An instance: the Notion token was not set. *)
Lemma main_missing_credentials_witness :
  ∃ line1 line2,
    main Cases.no_token Sample.world 3 Sample.args Sample.st0
    = (Ok (), with_console
                (console Sample.st0 ++ [Stdout line1; Stdout line2]) Sample.st0).
Proof.
  apply (main_missing_credentials Cases.no_token Sample.world 3 Sample.args
           Sample.st0).
  reflexivity.
Defined.


